(** * ts-avif: container parsing, item resolution and OBU framing

    A shallow embedding of the TypeScript sources
      - [src/av1/obu.ts]      (parseOBUs, parseOBU, readLeb128, writeLeb128, createOBU)
      - [src/av1/decoder.ts]  (decodeAV1, parseSequenceHeader, decodeFrame, BitReader)
      - [src/container/heif.ts] (parseISOBMFF, findBox, findAllBoxes,
                                 validateFtyp, parseIloc, parseIinf, parseIspe,
                                 parsePixi, parseAv1C, getAvifInfo,
                                 getImageData, createFtyp)
      - [src/decoder.ts]      (decode, getPrimaryItemId, getAlphaItemId,
                               applyAlphaChannel, rgbaToRgb)
      - [src/encoder.ts]      (encode, encodeAV1, createSequenceHeader,
                               createSimpleFrame, createAvifContainer and
                               the box writers)

    Conventions of the embedding.
      - A [Uint8Array] is a [list byte]; [data[i]] is [idx data i], which is
        [None] (JavaScript [undefined]) outside the array.
      - A JavaScript number holding an integer is a [Z].  The bitwise
        operators [&], [|], [<<], [>>] work on the 32-bit two's complement
        image of their operands ([toInt32]) and are written out as such.
        Sums and products are exact, which agrees with IEEE doubles below
        2^53; where the source joins two 32-bit halves into a 64-bit
        quantity the result is rounded as a double is ([roundDouble]).
      - A thrown exception is [Throw e]; a loop whose number of iterations
        the source does not bound takes a fuel argument and answers [None]
        when the fuel is used up.  Arrays grow without limit here, so
        [None] for every fuel says that the loop never meets its exit
        condition: a run of the source then returns nothing, and ends only
        when the engine gives up (the process dies, or a [push] on an
        array that cannot grow any more throws). *)

From Stdlib Require Import ZArith Lia.
From Stdlib.Strings Require Import Byte Ascii String.
From stdpp Require Import base option list strings.

Local Open Scope Z_scope.

(** ** Results and exceptions *)

Inductive error : Type :=
  | RangeError            (* DataView access outside the view *)
  | InvalidOBU            (* 'Invalid OBU: forbidden bit is set' *)
  | Leb128UnexpectedEnd   (* 'Unexpected end of data while reading LEB128' *)
  | Leb128TooLarge        (* 'LEB128 value too large' *)
  | InvalidAv1C           (* 'Invalid AV1 codec configuration' *)
  | NoMetaBox             (* 'No meta box found' *)
  | NoItemProperties      (* 'No item properties box found' *)
  | NoItemPropertyContainer (* 'No item property container found' *)
  | NoSequenceHeader      (* 'No sequence header found' *)
  | NoFrameData.          (* 'No frame data found' *)

Inductive result (A : Type) : Type :=
  | Ok (a : A)
  | Throw (e : error).
Arguments Ok {A} a.
Arguments Throw {A} e.

Definition rbind {A B} (r : result A) (k : A -> result B) : result B :=
  match r with
  | Ok a => k a
  | Throw e => Throw e
  end.

(** Computations that may also run out of fuel. *)
Definition M (A : Type) : Type := option (result A).

Definition mret {A} (a : A) : M A := Some (Ok a).
Definition mthrow {A} (e : error) : M A := Some (Throw e).
Definition mbind {A B} (m : M A) (k : A -> M B) : M B :=
  match m with
  | Some (Ok a) => k a
  | Some (Throw e) => Some (Throw e)
  | None => None
  end.
Definition lift {A} (r : result A) : M A := Some r.

Declare Scope js_scope.
Delimit Scope js_scope with js.
Notation "'let!' x ':=' r 'in' k" := (rbind r (fun x => k))
  (at level 10, x name, r at level 100, k at level 200) : js_scope.
Notation "'do!' x ':=' m 'in' k" := (mbind m (fun x => k))
  (at level 10, x name, m at level 100, k at level 200) : js_scope.
Local Open Scope js_scope.

(** ** JavaScript integers and bytes *)

Module JS.

(** ToInt32 on an integer-valued number. *)
Definition toInt32 (z : Z) : Z := (z + 2 ^ 31) mod 2 ^ 32 - 2 ^ 31.

(** [a & b], [a | b], [a << n], [a >> n]. *)
Definition and (a b : Z) : Z := Z.land (toInt32 a) (toInt32 b).
Definition or (a b : Z) : Z := Z.lor (toInt32 a) (toInt32 b).
Definition shl (a n : Z) : Z := toInt32 (Z.shiftl (toInt32 a) (n mod 32)).
Definition sar (a n : Z) : Z := Z.shiftr (toInt32 a) (n mod 32).

(** The double that holds the exact non-negative integer [z]: [z]
    itself below 2^53, and above that the nearest multiple of the unit
    in the last place, [2^(log2 z - 52)], with a tie going to the even
    multiple (IEEE 754 round to nearest, ties to even). *)
Definition roundDouble (z : Z) : Z :=
  if z <? 2 ^ 53 then z
  else
    let ulp := 2 ^ (Z.log2 z - 52) in
    let q := z / ulp in
    let r := z mod ulp in
    if 2 * r <? ulp then q * ulp
    else if ulp <? 2 * r then (q + 1) * ulp
    else if Z.even q then q * ulp else (q + 1) * ulp.

(** The numeric value of a byte, and the store conversion of a
    [Uint8Array] (ToUint8: the value modulo 256). *)
Definition u8 (b : byte) : Z := Z.of_N (Byte.to_N b).
Definition toUint8 (z : Z) : byte :=
  match Byte.of_N (Z.to_N (z mod 256)) with
  | Some b => b
  | None => x00
  end.

(** [data.length] and [data[i]]. *)
Definition len {A} (data : list A) : Z := Z.of_nat (length data).
Definition idx {A} (data : list A) (i : Z) : option A :=
  if i <? 0 then None else data !! Z.to_nat i.

(** ToNumber/ToInt32 of an array read used in a bitwise expression:
    [undefined] counts as 0. *)
Definition num (o : option byte) : Z :=
  match o with
  | Some b => u8 b
  | None => 0
  end.

(** [data.slice(start, end)] with the relative-index rules of
    [%TypedArray%.prototype.slice]. *)
Definition rel (n i : Z) : Z :=
  if i <? 0 then Z.max (n + i) 0 else Z.min i n.
Definition slice {A} (data : list A) (start fin : Z) : list A :=
  let k := rel (len data) start in
  let e := rel (len data) fin in
  take (Z.to_nat (Z.max (e - k) 0)) (drop (Z.to_nat k) data).

(** [new Uint8Array(n)], [buffer[i] = v] (a store outside the array is
    ignored) and [buffer.set(src, offset)]. *)
Definition newUint8Array (n : Z) : result (list byte) :=
  if n <? 0 then Throw RangeError else Ok (replicate (Z.to_nat n) x00).
Definition store (buffer : list byte) (i v : Z) : list byte :=
  if i <? 0 then buffer else <[Z.to_nat i := toUint8 v]> buffer.
Definition set (buffer src : list byte) (offset : Z) : result (list byte) :=
  if (offset <? 0) || (len buffer <? offset + len src) then Throw RangeError
  else Ok (take (Z.to_nat offset) buffer ++ src
           ++ drop (Z.to_nat (offset + len src)) buffer).

End JS.
Import JS.

(** ** src/av1/obu.ts *)

Record AV1OBU : Type := mkOBU {
  obu_type : Z;
  obu_size : Z;
  obu_data : list byte;
}.

(** [readLeb128]: the do-while loop, one iteration per unit of fuel.
    The state is the pair of locals [value], [bytes]. *)
Fixpoint readLeb128_loop (fuel : nat) (data : list byte) (offset value bytes : Z)
  : M (Z * Z) :=
  match fuel with
  | O => None
  | S fuel' =>
    if offset + bytes >=? len data then mthrow Leb128UnexpectedEnd
    else
      let byte := num (idx data (offset + bytes)) in
      let value := JS.or value (JS.shl (JS.and byte 0x7F) (bytes * 7)) in
      let bytes := bytes + 1 in
      if bytes >? 8 then mthrow Leb128TooLarge
      else if JS.and byte 0x80 =? 0 then mret (value, bytes)
      else readLeb128_loop fuel' data offset value bytes
  end.

(** Nine iterations always suffice: the ninth one throws (see
    [readLeb128_loop_total]). *)
Definition readLeb128 (data : list byte) (offset : Z) : M (Z * Z) :=
  readLeb128_loop 9 data offset 0 0.

(** [writeLeb128]: the do-while loop over the locals [value], [bytes].
    [bytes.push] appends to a list that can always grow; the failure of
    a push on an array at the engine's length limit is not an outcome
    here, so a loop that never reaches [value === 0] gives [None] for
    every fuel. *)
Fixpoint writeLeb128_loop (fuel : nat) (value : Z) (bytes : list Z) : option (list Z) :=
  match fuel with
  | O => None
  | S fuel' =>
    let byte := JS.and value 0x7F in
    let value := JS.sar value 7 in
    let byte := if value =? 0 then byte else JS.or byte 0x80 in
    let bytes := bytes ++ [byte] in
    if value =? 0 then Some bytes
    else writeLeb128_loop fuel' value bytes
  end.

Definition writeLeb128 (fuel : nat) (value : Z) : option (list byte) :=
  match writeLeb128_loop fuel value [] with
  | Some bytes => Some (map toUint8 bytes)      (* new Uint8Array(bytes) *)
  | None => None
  end.

Definition parseOBU (data : list byte) (offset : Z) : M (option AV1OBU) :=
  if offset >=? len data then mret None
  else
    let header := num (idx data offset) in
    (* obu_forbidden_bit must be 0 *)
    if negb (JS.and header 0x80 =? 0) then mthrow InvalidOBU
    else
      let type := JS.and (JS.sar header 3) 0x0F in
      let hasExtension := negb (JS.and header 0x04 =? 0) in
      let hasSizeField := negb (JS.and header 0x02 =? 0) in
      let headerSize := 1 in
      let headerSize := if hasExtension then headerSize + 1 else headerSize in
      do! sizes :=
        (if hasSizeField then
           do! vb := readLeb128 data (offset + headerSize) in
           let (value, bytes) := vb : Z * Z in
           mret (value, headerSize + bytes)
         else
           (* Size extends to end of data *)
           mret (len data - offset - headerSize, headerSize)) in
      let (payloadSize, headerSize) := sizes : Z * Z in
      let totalSize := headerSize + payloadSize in
      mret (Some (mkOBU type totalSize
                    (slice data (offset + headerSize) (offset + totalSize)))).

Fixpoint parseOBUs_loop (fuel : nat) (data : list byte) (offset : Z)
    (obus : list AV1OBU) : M (list AV1OBU) :=
  match fuel with
  | O => None
  | S fuel' =>
    if offset <? len data then
      do! obu := parseOBU data offset in
      match obu with
      | None => mret obus
      | Some obu =>
        parseOBUs_loop fuel' data (offset + obu_size obu) (obus ++ [obu])
      end
    else mret obus
  end.

Definition parseOBUs (fuel : nat) (data : list byte) : M (list AV1OBU) :=
  parseOBUs_loop fuel data 0 [].

Record OBUOptions : Type := mkOptions {
  hasExtension : bool;
  temporalId : Z;
  spatialId : Z;
}.

(** The default [options = {}]. *)
Definition defaultOptions : OBUOptions := mkOptions false 0 0.

Definition createOBU (fuel : nat) (type : Z) (payload : list byte)
    (options : OBUOptions) : M (list byte) :=
  (* Calculate header *)
  let header := JS.or (JS.shl type 3) 0x02 in
  let header := if hasExtension options then JS.or header 0x04 else header in
  (* Encode size *)
  match writeLeb128 fuel (len payload) with
  | None => None
  | Some sizeBytes =>
    let headerSize := 1 + (if hasExtension options then 1 else 0) + len sizeBytes in
    lift (
      let! buffer := newUint8Array (headerSize + len payload) in
      (* Write header *)
      let buffer := store buffer 0 header in
      let offset := 1 in
      let '(buffer, offset) :=
        if hasExtension options then
          (store buffer offset
             (JS.or (JS.shl (JS.and (temporalId options) 0x07) 5)
                    (JS.shl (JS.and (spatialId options) 0x03) 3)),
           offset + 1)
        else (buffer, offset) in
      (* Write size *)
      let! buffer := set buffer sizeBytes offset in
      let offset := offset + len sizeBytes in
      (* Write payload *)
      set buffer payload offset)
  end.

(** The members of [enum OBUType] used by the decoder. *)
Module OBUType.
Definition SEQUENCE_HEADER : Z := 1.
Definition FRAME : Z := 6.
End OBUType.

(** ** src/av1/decoder.ts *)

(** *** class BitReader *)

Record BitReader : Type := mkReader {
  br_data : list byte;
  br_pos : Z;
  br_bitPos : Z;
}.

(** Methods of the reader are state transformers. *)
Definition Rd (A : Type) : Type := BitReader -> A * BitReader.
Definition rret {A} (a : A) : Rd A := fun r => (a, r).
Definition rseq {A B} (c : Rd A) (k : A -> Rd B) : Rd B :=
  fun r => let '(a, r') := c r in k a r'.
Notation "'rd!' x ':=' c 'in' k" := (rseq c (fun x => k))
  (at level 10, x name, c at level 100, k at level 200) : js_scope.
Notation "'skip!' c 'in' k" := (rseq c (fun _ => k))
  (at level 10, c at level 100, k at level 200) : js_scope.

Definition readBit : Rd Z := fun r =>
  if br_pos r >=? len (br_data r) then (0, r)
  else
    let bit := JS.and (JS.sar (num (idx (br_data r) (br_pos r))) (7 - br_bitPos r)) 1 in
    let bitPos := br_bitPos r + 1 in
    if bitPos =? 8 then (bit, mkReader (br_data r) (br_pos r + 1) 0)
    else (bit, mkReader (br_data r) (br_pos r) bitPos).

Fixpoint readBits_loop (n : nat) (value : Z) : Rd Z :=
  match n with
  | O => rret value
  | S n' => rd! b := readBit in readBits_loop n' (JS.or (JS.shl value 1) b)
  end.

Definition readBits (count : Z) : Rd Z := readBits_loop (Z.to_nat count) 0.

(** [readUvlc]: the while loop returns from inside ([inr]) once 32 zero
    bits were counted, so 32 rounds exhaust it; [inl] is the normal exit
    with the count of leading zeros. *)
Fixpoint readUvlc_loop (n : nat) (leadingZeros : Z) : Rd (Z + Z) :=
  match n with
  | O => rret (inr 0xFFFFFFFF)
  | S n' =>
    rd! b := readBit in
    if b =? 0 then
      let leadingZeros := leadingZeros + 1 in
      if leadingZeros >=? 32 then rret (inr 0xFFFFFFFF)
      else readUvlc_loop n' leadingZeros
    else rret (inl leadingZeros)
  end.

Definition readUvlc : Rd Z :=
  rd! z := readUvlc_loop 32 0 in
  match z with
  | inr v => rret v
  | inl leadingZeros =>
    if leadingZeros >=? 32 then rret 0xFFFFFFFF
    else
      rd! value := readBits leadingZeros in
      rret (value + JS.shl 1 leadingZeros - 1)
  end.

(** *** parseSequenceHeader *)

Record SequenceHeader : Type := mkSequenceHeader {
  seqProfile : Z;
  stillPicture : bool;
  reducedStillPictureHeader : bool;
  maxFrameWidth : Z;
  maxFrameHeight : Z;
  bitDepth : Z;
  monochrome : bool;
  colorSpace : Z;
  subX : Z;
  subY : Z;
  matrixCoefficients : Z;
  colorRange : bool;
}.

(** A number used as a condition: zero is falsy. *)
Definition truthy (z : Z) : bool := negb (z =? 0).

(** No-op of the reader, for the branches that read nothing. *)
Definition rskip : Rd unit := rret tt.

(** The body of [for (let i = 0; i <= operatingPointsCntMinus1; i++)],
    repeated [n] times. *)
Fixpoint operatingPoints (n : nat)
    (decoderModelInfoPresentFlag initialDisplayDelayPresentFlag : Z) : Rd unit :=
  match n with
  | O => rskip
  | S n' =>
    skip! readBits 12 in                        (* operating_point_idc *)
    rd! seqLevelIdx := readBits 5 in
    skip! (if seqLevelIdx >? 7 then skip! readBit in rskip else rskip) in
    skip! (if truthy decoderModelInfoPresentFlag then
             rd! decoderModelPresentForThisOp := readBit in
             if truthy decoderModelPresentForThisOp then
               skip! readBits 5 in               (* decoder_buffer_delay *)
               skip! readBits 5 in               (* encoder_buffer_delay *)
               skip! readBit in rskip            (* low_delay_mode_flag *)
             else rskip
           else rskip) in
    skip! (if truthy initialDisplayDelayPresentFlag then
             rd! initialDisplayDelayPresentForThisOp := readBit in
             if truthy initialDisplayDelayPresentForThisOp then
               skip! readBits 4 in rskip         (* initial_display_delay_minus_1 *)
             else rskip
           else rskip) in
    operatingPoints n' decoderModelInfoPresentFlag initialDisplayDelayPresentFlag
  end.

(** The [if (reducedStillPictureHeader)] branch: the pair
    [(maxFrameWidth, maxFrameHeight)]. *)
Definition reducedDimensions : Rd (Z * Z) :=
  (* Simplified header *)
  rd! seqLevelIdx := readBits 5 in
  rd! frameWidthBitsMinus1 := readBits 4 in
  let frameWidthBits := frameWidthBitsMinus1 + 1 in
  rd! frameHeightBitsMinus1 := readBits 4 in
  let frameHeightBits := frameHeightBitsMinus1 + 1 in
  rd! w := readBits frameWidthBits in
  rd! h := readBits frameHeightBits in
  rret (w + 1, h + 1).

(** The [else] branch: full sequence header parsing. *)
Definition fullDimensions : Rd (Z * Z) :=
  rd! timingInfoPresentFlag := readBit in
  skip! (if truthy timingInfoPresentFlag then
           (* Skip timing info *)
           skip! readBits 32 in                  (* num_units_in_display_tick *)
           skip! readBits 32 in                  (* time_scale *)
           rd! equalPictureInterval := readBit in
           if truthy equalPictureInterval then skip! readUvlc in rskip
           else rskip
         else rskip) in
  rd! decoderModelInfoPresentFlag := readBit in
  skip! (if truthy decoderModelInfoPresentFlag then
           (* Skip decoder model info *)
           skip! readBits 5 in
           skip! readBits 32 in
           skip! readBits 5 in
           skip! readBits 5 in rskip
         else rskip) in
  rd! initialDisplayDelayPresentFlag := readBit in
  rd! operatingPointsCntMinus1 := readBits 5 in
  skip! operatingPoints (Z.to_nat (operatingPointsCntMinus1 + 1))
          decoderModelInfoPresentFlag initialDisplayDelayPresentFlag in
  rd! frameWidthBitsMinus1 := readBits 4 in
  rd! frameHeightBitsMinus1 := readBits 4 in
  rd! w := readBits (frameWidthBitsMinus1 + 1) in
  rd! h := readBits (frameHeightBitsMinus1 + 1) in
  rret (w + 1, h + 1).

(** The reads after the dimensions when the header is not reduced; only
    the cursor moves. *)
Definition remainingColorInfo : Rd unit :=
  rd! frameIdNumbersPresentFlag := readBit in
  skip! (if truthy frameIdNumbersPresentFlag then
           skip! readBits 4 in                   (* delta_frame_id_length_minus_2 *)
           skip! readBits 3 in rskip             (* additional_frame_id_length_minus_1 *)
         else rskip) in
  skip! readBit in                               (* use_128x128_superblock *)
  skip! readBit in                               (* enable_filter_intra *)
  skip! readBit in rskip.                        (* enable_intra_edge_filter *)

Definition parseSequenceHeader_rd : Rd SequenceHeader :=
  rd! seqProfile := readBits 3 in
  rd! stillPictureBit := readBit in
  let stillPicture := stillPictureBit =? 1 in
  rd! reducedBit := readBit in
  let reducedStillPictureHeader := reducedBit =? 1 in
  rd! dims := (if reducedStillPictureHeader then reducedDimensions
               else fullDimensions) in
  let (maxFrameWidth, maxFrameHeight) := dims : Z * Z in
  (* Color config *)
  let highBitdepth := false in
  let twelveBit := false in
  let monochrome := false in
  let colorSpace := 0 in
  let subX := 1 in
  let subY := 1 in
  let matrixCoefficients := 0 in
  let colorRange := false in
  skip! (if negb reducedStillPictureHeader then remainingColorInfo else rskip) in
  (* Determine bit depth *)
  let bitDepth :=
    if (seqProfile =? 2) && highBitdepth then (if twelveBit then 12 else 10)
    else if seqProfile >=? 2 then 10
    else if highBitdepth then 10 else 8 in
  rret (mkSequenceHeader seqProfile stillPicture reducedStillPictureHeader
          maxFrameWidth maxFrameHeight bitDepth monochrome colorSpace
          subX subY matrixCoefficients colorRange).

Definition parseSequenceHeader (data : list byte) : SequenceHeader :=
  fst (parseSequenceHeader_rd (mkReader data 0 0)).

(** *** decodeFrame and decodeAV1 *)

(** The loop [for (let i = 0; i < numPixels; i++)], from index [i] on for
    [n] more rounds. *)
Fixpoint decodeFrame_loop (n : nat) (i : Z) (rgba : list byte) : list byte :=
  match n with
  | O => rgba
  | S n' =>
    let rgba := store rgba (i * 4) 128 in
    let rgba := store rgba (i * 4 + 1) 128 in
    let rgba := store rgba (i * 4 + 2) 128 in
    let rgba := store rgba (i * 4 + 3) 255 in
    decodeFrame_loop n' (i + 1) rgba
  end.

Definition decodeFrame (data : list byte) (seqHeader : SequenceHeader)
  : result (list byte) :=
  let width := maxFrameWidth seqHeader in
  let height := maxFrameHeight seqHeader in
  let numPixels := width * height in
  (* For now, return a gray placeholder *)
  let! rgba := newUint8Array (numPixels * 4) in
  Ok (decodeFrame_loop (Z.to_nat numPixels) 0 rgba).

Record AvifImageData : Type := mkImageData {
  img_data : list byte;
  img_width : Z;
  img_height : Z;
  img_hasAlpha : bool;
  img_bitDepth : Z;
}.

Definition decodeAV1 (fuel : nat) (data : list byte) : M AvifImageData :=
  (* Parse OBUs *)
  do! obus := parseOBUs fuel data in
  (* Find sequence header *)
  match List.find (fun obu => obu_type obu =? OBUType.SEQUENCE_HEADER) obus with
  | None => mthrow NoSequenceHeader
  | Some seqHeaderOBU =>
    let seqHeader := parseSequenceHeader (obu_data seqHeaderOBU) in
    (* Find frame OBU *)
    match List.find (fun obu => obu_type obu =? OBUType.FRAME) obus with
    | None => mthrow NoFrameData
    | Some frameOBU =>
      (* Decode frame *)
      do! pixels := lift (decodeFrame (obu_data frameOBU) seqHeader) in
      mret (mkImageData pixels (maxFrameWidth seqHeader) (maxFrameHeight seqHeader)
              false (* AV1 doesn't have native alpha *)
              (bitDepth seqHeader))
    end
  end.

(** ** src/container/heif.ts *)

(** *** DataView reads and character codes *)

(** [view.getUint16(off)] and [view.getUint32(off)] (big-endian); an
    access that leaves the view throws a RangeError. *)
Definition getUint16 (data : list byte) (off : Z) : result Z :=
  if (off <? 0) || (len data <? off + 2) then Throw RangeError
  else Ok (num (idx data off) * 0x100 + num (idx data (off + 1))).

Definition getUint32 (data : list byte) (off : Z) : result Z :=
  if (off <? 0) || (len data <? off + 4) then Throw RangeError
  else Ok (num (idx data off) * 0x1000000 + num (idx data (off + 1)) * 0x10000
           + num (idx data (off + 2)) * 0x100 + num (idx data (off + 3))).

(** One argument of [String.fromCharCode]: [undefined] gives the code 0. *)
Definition charOf (o : option byte) : ascii :=
  match o with
  | Some b => ascii_of_byte b
  | None => ascii_of_byte x00
  end.

(** [String.fromCharCode(data[off], data[off+1], data[off+2], data[off+3])]. *)
Definition fromCharCode4 (data : list byte) (off : Z) : string :=
  String (charOf (idx data off))
    (String (charOf (idx data (off + 1)))
       (String (charOf (idx data (off + 2)))
          (String (charOf (idx data (off + 3))) EmptyString))).

(** [s.includes(needle)]. *)
Fixpoint includes (s needle : string) : bool :=
  String.prefix needle s ||
  match s with
  | EmptyString => false
  | String _ rest => includes rest needle
  end.

(** [s.toLowerCase()] on code units below 256: A-Z and the Latin-1
    capitals 0xC0-0xDE (without the multiplication sign 0xD7) move up
    by 32. *)
Definition lowerChar (c : ascii) : ascii :=
  let n := Z.of_N (N_of_ascii c) in
  if ((0x41 <=? n) && (n <=? 0x5A))
     || ((0xC0 <=? n) && (n <=? 0xDE) && negb (n =? 0xD7))
  then ascii_of_N (Z.to_N (n + 32)) else c.

Fixpoint toLowerCase (s : string) : string :=
  match s with
  | EmptyString => EmptyString
  | String c rest => String (lowerChar c) (toLowerCase rest)
  end.

(** *** Boxes *)

#[warnings="-register-all"]
Inductive ISOBMFFBox : Type :=
  Box (type : string) (size : Z) (offset : Z) (data : list byte)
      (children : option (list ISOBMFFBox)).

Definition box_type (b : ISOBMFFBox) : string := let 'Box t _ _ _ _ := b in t.
Definition box_size (b : ISOBMFFBox) : Z := let 'Box _ s _ _ _ := b in s.
Definition box_offset (b : ISOBMFFBox) : Z := let 'Box _ _ o _ _ := b in o.
Definition box_data (b : ISOBMFFBox) : list byte := let 'Box _ _ _ d _ := b in d.
Definition box_children (b : ISOBMFFBox) : option (list ISOBMFFBox) :=
  let 'Box _ _ _ _ c := b in c.

Definition containerTypes : list string :=
  ["moov"; "trak"; "mdia"; "minf"; "stbl"; "dinf";
   "meta"; "iprp"; "ipco"; "iref"; "grpl"]%string.

Definition isContainerBox (type : string) : bool :=
  existsb (String.eqb type) containerTypes.

(** The size and header size of the box at [offset]: the 32-bit size, the
    64-bit form selected by [size === 1], or the rest of the buffer for
    [size === 0].  The product [highSize * 0x100000000] is exact in a
    double; the sum is rounded. *)
Definition boxExtent (buffer : list byte) (offset size : Z) : result (Z * Z) :=
  if size =? 1 then
    (* 64-bit size *)
    let! highSize := getUint32 buffer (offset + 8) in
    let! lowSize := getUint32 buffer (offset + 12) in
    Ok (roundDouble (highSize * 0x100000000 + lowSize), 16)
  else if size =? 0 then
    (* Box extends to end of file *)
    Ok (len buffer - offset, 8)
  else Ok (size, 8).

(** [parseISOBMFF]: the while loop over the locals [offset], [boxes]; a
    round and the recursive call on a container's payload each take one
    unit of fuel.  The sum [offset + boxSize] is exact here and a double
    in the source; the two differ only from 2^53 on, where both lie
    beyond the end of any buffer, so that the slice and the end of the
    loop are the same. *)
Fixpoint parseISOBMFF_loop (fuel : nat) (buffer : list byte) (offset : Z)
    (boxes : list ISOBMFFBox) : M (list ISOBMFFBox) :=
  match fuel with
  | O => None
  | S fuel' =>
    if offset <? len buffer - 8 then
      do! size := lift (getUint32 buffer offset) in
      let type := fromCharCode4 buffer (offset + 4) in
      do! ext := lift (boxExtent buffer offset size) in
      let (boxSize, headerSize) := ext : Z * Z in
      let data := slice buffer (offset + headerSize) (offset + boxSize) in
      (* Parse container boxes *)
      do! children :=
        (if isContainerBox type then
           do! cs := parseISOBMFF_loop fuel' data 0 [] in mret (Some cs)
         else mret None) in
      parseISOBMFF_loop fuel' buffer (offset + boxSize)
        (boxes ++ [Box type boxSize offset data children])
    else mret boxes
  end.

Definition parseISOBMFF (fuel : nat) (buffer : list byte) : M (list ISOBMFFBox) :=
  parseISOBMFF_loop fuel buffer 0 [].

(** [findBox]: depth-first, a box before its children. *)
Fixpoint findBox_in (type : string) (box : ISOBMFFBox) : option ISOBMFFBox :=
  match box with
  | Box t _ _ _ children =>
    if String.eqb t type then Some box
    else
      match children with
      | Some cs =>
        (fix scan (l : list ISOBMFFBox) : option ISOBMFFBox :=
           match l with
           | [] => None
           | b :: rest =>
             match findBox_in type b with
             | Some found => Some found
             | None => scan rest
             end
           end) cs
      | None => None
      end
  end.

Fixpoint findBox (boxes : list ISOBMFFBox) (type : string) : option ISOBMFFBox :=
  match boxes with
  | [] => None
  | b :: rest =>
    match findBox_in type b with
    | Some found => Some found
    | None => findBox rest type
    end
  end.

(** *** Typed decoders *)

Record Extent : Type := mkExtent {
  extentOffset : Z;
  extentLength : Z;
}.

Record ItemLocation : Type := mkItemLocation {
  loc_itemId : Z;
  constructionMethod : Z;
  dataReferenceIndex : Z;
  baseOffset : Z;
  extents : list Extent;
}.

(** Comparisons of the version byte [data[0]], which is [undefined] on an
    empty payload: [undefined === k] and [undefined < k] are false. *)
Definition versionIs (v : option byte) (k : Z) : bool :=
  match v with
  | Some b => u8 b =? k
  | None => false
  end.
Definition versionBelow (v : option byte) (k : Z) : bool :=
  match v with
  | Some b => u8 b <? k
  | None => false
  end.

(** The field of 0, 4 or 8 bytes that [parseIloc] reads three times (base
    offset, extent offset, extent length): the value and the advanced
    offset. *)
Definition readSized (data : list byte) (fieldSize offset : Z) : result (Z * Z) :=
  if fieldSize =? 4 then
    let! v := getUint32 data offset in Ok (v, offset + 4)
  else if fieldSize =? 8 then
    let! hi := getUint32 data offset in
    let! lo := getUint32 data (offset + 4) in
    Ok (roundDouble (hi * 0x100000000 + lo), offset + 8)
  else Ok (0, offset).

(** [for (let j = 0; j < extentCount; j++)], [n] more rounds. *)
Fixpoint parseIloc_extents (n : nat) (data : list byte)
    (indexSize offsetSize lengthSize offset : Z) (extents : list Extent)
  : result (list Extent * Z) :=
  match n with
  | O => Ok (extents, offset)
  | S n' =>
    let offset := if indexSize >? 0 then offset + indexSize else offset in
    let! eo := readSized data offsetSize offset in
    let (extentOffset, offset) := eo : Z * Z in
    let! el := readSized data lengthSize offset in
    let (extentLength, offset) := el : Z * Z in
    parseIloc_extents n' data indexSize offsetSize lengthSize offset
      (extents ++ [mkExtent extentOffset extentLength])
  end.

(** [for (let i = 0; i < itemCount; i++)], [n] more rounds. *)
Fixpoint parseIloc_items (n : nat) (data : list byte) (version : option byte)
    (offsetSize lengthSize baseOffsetSize indexSize offset : Z)
    (items : list ItemLocation) : result (list ItemLocation) :=
  match n with
  | O => Ok items
  | S n' =>
    let! io :=
      (if versionBelow version 2 then
         let! v := getUint16 data offset in Ok (v, offset + 2)
       else
         let! v := getUint32 data offset in Ok (v, offset + 4)) in
    let (itemId, offset) := io : Z * Z in
    let! co :=
      (if versionIs version 1 || versionIs version 2 then
         let! v := getUint16 data offset in Ok (JS.and v 0x0F, offset + 2)
       else Ok (0, offset)) in
    let (constructionMethod, offset) := co : Z * Z in
    let! dataReferenceIndex := getUint16 data offset in
    let offset := offset + 2 in
    let! bo := readSized data baseOffsetSize offset in
    let (baseOffset, offset) := bo : Z * Z in
    let! extentCount := getUint16 data offset in
    let offset := offset + 2 in
    let! eo := parseIloc_extents (Z.to_nat extentCount) data
                 indexSize offsetSize lengthSize offset [] in
    let (extents, offset) := eo : list Extent * Z in
    parseIloc_items n' data version offsetSize lengthSize baseOffsetSize
      indexSize offset
      (items ++ [mkItemLocation itemId constructionMethod dataReferenceIndex
                   baseOffset extents])
  end.

Definition parseIloc (data : list byte) : result (list ItemLocation) :=
  let version := idx data 0 in
  let offsetSize := JS.and (JS.sar (num (idx data 4)) 4) 0x0F in
  let lengthSize := JS.and (num (idx data 4)) 0x0F in
  let baseOffsetSize := JS.and (JS.sar (num (idx data 5)) 4) 0x0F in
  let indexSize :=
    if versionIs version 1 || versionIs version 2
    then JS.and (num (idx data 5)) 0x0F else 0 in
  let offset := 6 in
  let! co :=
    (if versionBelow version 2 then
       let! v := getUint16 data offset in Ok (v, offset + 2)
     else
       let! v := getUint32 data offset in Ok (v, offset + 4)) in
  let (itemCount, offset) := co : Z * Z in
  parseIloc_items (Z.to_nat itemCount) data version offsetSize lengthSize
    baseOffsetSize indexSize offset [].

Record ItemInfo : Type := mkItemInfo {
  info_itemId : Z;
  itemProtectionIndex : Z;
  itemType : string;
  itemName : string;
}.

(** The null-terminated name: the bytes from the cursor up to the first
    zero byte or the end of the entry. *)
Fixpoint readName (rest : list byte) : string :=
  match rest with
  | [] => EmptyString
  | b :: rest' =>
    if u8 b =? 0 then EmptyString
    else String (ascii_of_byte b) (readName rest')
  end.

Definition parseInfe (data : list byte) : result ItemInfo :=
  let version := idx data 0 in
  let offset := 4 in
  let! ids :=
    (if versionBelow version 2 then
       let! itemId := getUint16 data offset in
       let! itemProtectionIndex := getUint16 data (offset + 2) in
       Ok (itemId, itemProtectionIndex, offset + 4)
     else if versionIs version 2 then
       let! itemId := getUint16 data offset in
       let! itemProtectionIndex := getUint16 data (offset + 2) in
       Ok (itemId, itemProtectionIndex, offset + 4)
     else
       let! itemId := getUint32 data offset in
       let! itemProtectionIndex := getUint16 data (offset + 4) in
       Ok (itemId, itemProtectionIndex, offset + 6)) in
  let '(itemId, itemProtectionIndex, offset) := ids : Z * Z * Z in
  let itemType := fromCharCode4 data offset in
  let offset := offset + 4 in
  (* Read null-terminated item name *)
  let itemName := readName (drop (Z.to_nat offset) data) in
  Ok (mkItemInfo itemId itemProtectionIndex itemType itemName).

(** [for (let i = 0; i < entryCount; i++)], [n] more rounds. *)
Fixpoint parseIinf_entries (n : nat) (data : list byte) (offset : Z)
    (items : list ItemInfo) : result (list ItemInfo) :=
  match n with
  | O => Ok items
  | S n' =>
    let! entrySize := getUint32 data offset in
    let entryType := fromCharCode4 data (offset + 4) in
    let! items :=
      (if String.eqb entryType "infe" then
         let infeData := slice data (offset + 8) (offset + entrySize) in
         let! itemInfo := parseInfe infeData in
         Ok (items ++ [itemInfo])
       else Ok items) in
    parseIinf_entries n' data (offset + entrySize) items
  end.

Definition parseIinf (data : list byte) : result (list ItemInfo) :=
  let version := idx data 0 in
  let offset := 4 in
  let! co :=
    (if versionIs version 0 then
       let! v := getUint16 data offset in Ok (v, offset + 2)
     else
       let! v := getUint32 data offset in Ok (v, offset + 4)) in
  let (entryCount, offset) := co : Z * Z in
  parseIinf_entries (Z.to_nat entryCount) data offset [].

Record ImageSpatialExtent : Type := mkIspe {
  ispe_width : Z;
  ispe_height : Z;
}.

Definition parseIspe (data : list byte) : result ImageSpatialExtent :=
  (* Skip version and flags *)
  let! width := getUint32 data 4 in
  let! height := getUint32 data 8 in
  Ok (mkIspe width height).

(** [bitsPerChannel]: the array reads [data[5 + i]], each a number or
    [undefined]. *)
Fixpoint parsePixi_loop (n : nat) (data : list byte) (i : Z)
    (bitsPerChannel : list (option Z)) : list (option Z) :=
  match n with
  | O => bitsPerChannel
  | S n' =>
    parsePixi_loop n' data (i + 1)
      (bitsPerChannel ++ [u8 <$> idx data (5 + i)])
  end.

Definition parsePixi (data : list byte) : list (option Z) :=
  (* Skip version and flags *)
  let numChannels := idx data 4 in
  match numChannels with
  | Some n => parsePixi_loop (Z.to_nat (u8 n)) data 0 []
  | None => []
  end.

Record AV1CodecConfig : Type := mkAv1C {
  cfg_seqProfile : Z;
  seqLevelIdx0 : Z;
  seqTier0 : Z;
  highBitdepth : Z;
  twelveBit : Z;
  cfg_monochrome : Z;
  chromaSubsamplingX : Z;
  chromaSubsamplingY : Z;
  chromaSamplePosition : Z;
}.

Definition parseAv1C (data : list byte) : result AV1CodecConfig :=
  let marker := JS.sar (num (idx data 0)) 7 in
  let version := JS.and (num (idx data 0)) 0x7F in
  if negb (marker =? 1) || negb (version =? 1) then Throw InvalidAv1C
  else
    let d1 := num (idx data 1) in
    let d2 := num (idx data 2) in
    Ok (mkAv1C
          (JS.and (JS.sar d1 5) 0x07)
          (JS.and d1 0x1F)
          (JS.and (JS.sar d2 7) 0x01)
          (JS.and (JS.sar d2 6) 0x01)
          (JS.and (JS.sar d2 5) 0x01)
          (JS.and (JS.sar d2 4) 0x01)
          (JS.and (JS.sar d2 3) 0x01)
          (JS.and (JS.sar d2 2) 0x01)
          (JS.and d2 0x03)).

(** *** getAvifInfo and getImageData *)

Record AvifInfo : Type := mkAvifInfo {
  info_width : Z;
  info_height : Z;
  info_hasAlpha : bool;
  info_bitDepth : option Z;     (* [None]: the value [undefined] *)
  info_colorSpace : string;
  info_isSequence : bool;
}.

(** The test [!box || !box.children] of a lookup: the children when both
    are there. *)
Definition childrenOf (found : option ISOBMFFBox) : option (list ISOBMFFBox) :=
  match found with
  | Some box => box_children box
  | None => None
  end.

(** The predicate of [items.some(...)] in [getAvifInfo]. *)
Definition isAlphaInfo (item : ItemInfo) : bool :=
  String.eqb (itemType item) "auxl" || includes (itemName item) "Alpha".

Definition getAvifInfo (boxes : list ISOBMFFBox) : result AvifInfo :=
  (* Find meta box *)
  match childrenOf (findBox boxes "meta") with
  | None => Throw NoMetaBox
  | Some metaChildren =>
    (* Find item properties *)
    match childrenOf (findBox metaChildren "iprp") with
    | None => Throw NoItemProperties
    | Some iprpChildren =>
      match childrenOf (findBox iprpChildren "ipco") with
      | None => Throw NoItemPropertyContainer
      | Some ipcoChildren =>
        (* Get dimensions from ispe *)
        let! extent :=
          match findBox ipcoChildren "ispe" with
          | Some ispeBox => parseIspe (box_data ispeBox)
          | None => Ok (mkIspe 0 0)
          end in
        let width := ispe_width extent in
        let height := ispe_height extent in
        (* Get bit depth from pixi *)
        let bitDepth :=
          match findBox ipcoChildren "pixi" with
          | Some pixiBox =>
            match parsePixi (box_data pixiBox) with
            | first :: _ => first
            | [] => Some 8
            end
          | None => Some 8
          end in
        (* Get codec config from av1C *)
        let colorSpace := "srgb"%string in
        let! bitDepth :=
          match findBox ipcoChildren "av1C" with
          | Some av1cBox =>
            let! config := parseAv1C (box_data av1cBox) in
            if truthy (highBitdepth config)
            then Ok (Some (if truthy (twelveBit config) then 12 else 10))
            else Ok bitDepth
          | None => Ok bitDepth
          end in
        (* Check for alpha *)
        let! hasAlpha :=
          match findBox metaChildren "iinf" with
          | Some iinfBox =>
            let! items := parseIinf (box_data iinfBox) in
            Ok (existsb isAlphaInfo items)
          | None => Ok false
          end in
        (* Check for sequence *)
        let isSequence :=
          existsb (fun box => String.eqb (box_type box) "moov") boxes in
        Ok (mkAvifInfo width height hasAlpha bitDepth colorSpace isSequence)
      end
    end
  end.

(** [for (const part of parts) { result.set(part, offset); offset += part.length }] *)
Fixpoint copyParts (parts : list (list byte)) (res : list byte) (offset : Z)
  : result (list byte) :=
  match parts with
  | [] => Ok res
  | part :: rest =>
    let! res := set res part offset in
    copyParts rest res (offset + len part)
  end.

(** The slice of the file buffer that one extent of [location] names.
    The sums are exact here and doubles in the source; they differ only
    from 2^53 on, where both lie beyond the end of any buffer. *)
Definition extentBytes (buffer : list byte) (location : ItemLocation)
    (mdatOffset : Z) (extent : Extent) : list byte :=
  let offset := baseOffset location + extentOffset extent + mdatOffset in
  slice buffer offset (offset + extentLength extent).

Definition getImageData (buffer : list byte) (boxes : list ISOBMFFBox)
    (itemId : Z) : result (option (list byte)) :=
  (* Find meta box *)
  match childrenOf (findBox boxes "meta") with
  | None => Ok None
  | Some metaChildren =>
    (* Find iloc box *)
    match findBox metaChildren "iloc" with
    | None => Ok None
    | Some ilocBox =>
      let! locations := parseIloc (box_data ilocBox) in
      match List.find (fun loc => loc_itemId loc =? itemId) locations with
      | None => Ok None
      | Some location =>
        (* Find mdat box for data offset *)
        let mdatOffset :=
          match findBox boxes "mdat" with
          | Some mdatBox => box_offset mdatBox + 8
          | None => 0
          end in
        (* Collect all extents *)
        let parts := map (extentBytes buffer location mdatOffset)
                         (extents location) in
        (* Concatenate parts *)
        let totalLength := fold_left (fun sum part => sum + len part) parts 0 in
        let! res := newUint8Array totalLength in
        let! res := copyParts parts res 0 in
        Ok (Some res)
      end
    end
  end.

(** ** src/decoder.ts *)

(** The test of the loop in [getAlphaItemId]. *)
Definition isAlphaItem (item : ItemInfo) : bool :=
  String.eqb (itemType item) "auxl"
  || includes (toLowerCase (itemName item)) "alpha".

Definition getAlphaItemId (boxes : list ISOBMFFBox) : result (option Z) :=
  match childrenOf (findBox boxes "meta") with
  | None => Ok None
  | Some metaChildren =>
    match findBox metaChildren "iinf" with
    | None => Ok None
    | Some iinfBox =>
      let! items := parseIinf (box_data iinfBox) in
      (* Look for auxiliary image (alpha) *)
      Ok (info_itemId <$> List.find isAlphaItem items)
    end
  end.

(** ** Reference notions used in the statements *)

(** The 7-bit groups of [v], low-order group first, continuation bit on
    all but the last; [n] bounds the number of groups. *)
Fixpoint leb_groups (n : nat) (v : Z) : list Z :=
  match n with
  | O => []
  | S n' =>
    if v / 128 =? 0 then [v mod 128]
    else (v mod 128 + 128) :: leb_groups n' (v / 128)
  end.

(** Bit [k] of [data], most significant bit of each byte first; 0 past
    the end. *)
Definition bitAt (data : list byte) (k : Z) : Z :=
  match idx data (k / 8) with
  | Some b => Z.b2z (Z.testbit (u8 b) (7 - k mod 8))
  | None => 0
  end.

(** The unsigned integer written in the [n] bits from bit [k] on, most
    significant bit first, continuing the accumulator [acc]. *)
Fixpoint field_from (data : list byte) (k : Z) (n : nat) (acc : Z) : Z :=
  match n with
  | O => acc
  | S n' => field_from data (k + 1) n' (2 * acc + bitAt data k)
  end.

Definition field (data : list byte) (k n : Z) : Z :=
  field_from data k (Z.to_nat n) 0.

(** The reader [r] over [data] stands before bit [k]: its cursor is at
    bit [k], or at the end of the data when [k] lies beyond it. *)
Definition before (r : BitReader) (data : list byte) (k : Z) : Prop :=
  br_data r = data /\
  0 <= br_pos r /\ 0 <= br_bitPos r < 8 /\
  ((8 * br_pos r + br_bitPos r = k /\ br_pos r < len data)
   \/ (len data <= br_pos r /\ 8 * len data <= k)).

(** ** Sample inputs *)

(** A 12-byte file: one [free] box that declares 100 bytes and has 4. *)
Definition overrunFile : list byte :=
  [x00; x00; x00; x64; x66; x72; x65; x65; x01; x02; x03; x04].

(** A 16-byte file: one [free] box in the 64-bit form ([size] = 1) whose
    extended size is 0. *)
Definition zeroExtendedSizeFile : list byte :=
  [x00; x00; x00; x01; x66; x72; x65; x65;
   x00; x00; x00; x00; x00; x00; x00; x00].

(** An 18-byte file: one [free] box in the 64-bit form whose extended
    size is 2^64 - 1, with two bytes of payload. *)
Definition hugeSizeFile : list byte :=
  [x00; x00; x00; x01; x66; x72; x65; x65;
   xff; xff; xff; xff; xff; xff; xff; xff;
   x01; x02].

(** The box at [offset] declares more bytes than the buffer holds from
    there on. *)
Definition declaresPastEnd (buffer : list byte) (offset : Z) : Prop :=
  exists size boxSize headerSize,
    getUint32 buffer offset = Ok size /\
    boxExtent buffer offset size = Ok (boxSize, headerSize) /\
    len buffer < offset + boxSize.

(** A computation ended with an exception. *)
Definition failed {A} (m : M A) : Prop := exists e, m = mthrow e.

(** No position of the buffer holds a 64-bit box header with extended
    size 0. *)
Definition noZeroExtendedSize (buffer : list byte) : Prop :=
  forall off,
    ~ (getUint32 buffer off = Ok 1 /\
       getUint32 buffer (off + 8) = Ok 0 /\
       getUint32 buffer (off + 12) = Ok 0).

(** A 52-byte file: [meta] holding one [iloc] box (version 1, one item
    with id 1, construction method 1, one extent of 4 bytes at offset 0),
    followed by an [mdat] box with the payload DE AD BE EF. *)
Definition idatItemFile : list byte :=
  [ (* meta, 40 bytes *)
    x00; x00; x00; x28; x6d; x65; x74; x61;
    (* iloc, 32 bytes *)
    x00; x00; x00; x20; x69; x6c; x6f; x63;
    x01; x00; x00; x00;             (* version 1, flags 0 *)
    x44; x00;                       (* offset size 4, length size 4 *)
    x00; x01;                       (* item count *)
    x00; x01;                       (* item id *)
    x00; x01;                       (* construction method 1 *)
    x00; x00;                       (* data reference index *)
    x00; x01;                       (* extent count *)
    x00; x00; x00; x00;             (* extent offset *)
    x00; x00; x00; x04;             (* extent length *)
    (* mdat, 12 bytes *)
    x00; x00; x00; x0c; x6d; x64; x61; x74;
    xde; xad; xbe; xef ].

(** The offset that [getImageData] adds to every extent. *)
Definition mdatPayloadOffset (boxes : list ISOBMFFBox) : Z :=
  match findBox boxes "mdat" with
  | Some mdatBox => box_offset mdatBox + 8
  | None => 0
  end.

(** An 84-byte file: [meta] holding [iinf] with one [infe] entry (version
    2, item id 2, type [av01], name [alpha] in lower case) and
    [iprp] / [ipco] / [ispe] (2 by 1). *)
Definition alphaItemFile : list byte :=
  [ (* meta, 84 bytes *)
    x00; x00; x00; x54; x6d; x65; x74; x61;
    (* iinf, 40 bytes *)
    x00; x00; x00; x28; x69; x69; x6e; x66;
    x00; x00; x00; x00;             (* version 0, flags 0 *)
    x00; x01;                       (* entry count *)
    (* infe, 26 bytes *)
    x00; x00; x00; x1a; x69; x6e; x66; x65;
    x02; x00; x00; x00;             (* version 2, flags 0 *)
    x00; x02;                       (* item id *)
    x00; x00;                       (* item protection index *)
    x61; x76; x30; x31;             (* item type av01 *)
    x61; x6c; x70; x68; x61; x00;   (* item name alpha *)
    (* iprp, 36 bytes *)
    x00; x00; x00; x24; x69; x70; x72; x70;
    (* ipco, 28 bytes *)
    x00; x00; x00; x1c; x69; x70; x63; x6f;
    (* ispe, 20 bytes *)
    x00; x00; x00; x14; x69; x73; x70; x65;
    x00; x00; x00; x00;
    x00; x00; x00; x02;
    x00; x00; x00; x01 ].

(** The box trees of the two sample files, as [parseISOBMFF] returns
    them. *)
Definition boxesOf (fuel : nat) (buffer : list byte) : list ISOBMFFBox :=
  match parseISOBMFF fuel buffer with
  | Some (Ok boxes) => boxes
  | _ => []
  end.

Definition idatItemBoxes : list ISOBMFFBox :=
  Eval vm_compute in boxesOf 3 idatItemFile.

Definition alphaItemBoxes : list ISOBMFFBox :=
  Eval vm_compute in boxesOf 8 alphaItemFile.

(** A reduced sequence header: profile 0, still picture, level 0, both
    widths-minus-one 10, then 1919 and 1079 in eleven bits each. *)
Definition fullHDHeader : list byte := [x18; x2a; xbb; xfc; x37].

(** An 8-byte stream: a sequence-header OBU for a picture of 2 by 1 and
    a frame OBU with one byte of payload; and what [decodeAV1] makes of
    it. *)
Definition twoPixelStream : list byte :=
  [x0a; x03; x18; x00; x20; x32; x01; x00].

Definition twoPixelImage : AvifImageData :=
  mkImageData [x80; x80; x80; xff; x80; x80; x80; xff] 2 1 false 8.

(** A 20-byte file: a [free] box of 12 bytes and then a complete empty
    box [skip] in the last 8 bytes. *)
Definition trailingBoxFile : list byte :=
  [x00; x00; x00; x0c; x66; x72; x65; x65; x01; x02; x03; x04;
   x00; x00; x00; x08; x73; x6b; x69; x70].

(** The executable form of [noZeroExtendedSize]: the test at every offset
    inside the buffer. *)
Definition zeroExtendedAt (buffer : list byte) (off : Z) : bool :=
  match getUint32 buffer off, getUint32 buffer (off + 8),
        getUint32 buffer (off + 12) with
  | Ok 1, Ok 0, Ok 0 => true
  | _, _, _ => false
  end.

Definition noZeroExtendedSizeb (buffer : list byte) : bool :=
  forallb (fun n => negb (zeroExtendedAt buffer (Z.of_nat n)))
          (seq 0 (length buffer)).

(** * Further functions of the sources *)

(** ** src/container/heif.ts: findAllBoxes and validateFtyp *)

(** [findAllBoxes]: depth-first, a box before the matches among its
    children. *)
Fixpoint findAllBoxes_in (type : string) (box : ISOBMFFBox) : list ISOBMFFBox :=
  match box with
  | Box t _ _ _ children =>
    (if String.eqb t type then [box] else [])
    ++ match children with
       | Some cs =>
         (fix scan (l : list ISOBMFFBox) : list ISOBMFFBox :=
            match l with
            | [] => []
            | b :: rest => findAllBoxes_in type b ++ scan rest
            end) cs
       | None => []
       end
  end.

Fixpoint findAllBoxes (boxes : list ISOBMFFBox) (type : string)
  : list ISOBMFFBox :=
  match boxes with
  | [] => []
  | b :: rest => findAllBoxes_in type b ++ findAllBoxes rest type
  end.

Definition validBrands : list string := ["avif"; "avis"; "mif1"; "miaf"]%string.

(** [validBrands.includes(brand)]. *)
Definition isValidBrand (brand : string) : bool :=
  existsb (String.eqb brand) validBrands.

(** The loop [for (let i = 0; i < numBrands; i++)] with
    [numBrands = (size - 16) / 4], a quotient that need not be whole: the
    test [i < numBrands] is [i * 4 < size - 16].  [n] bounds the rounds;
    [size] rounds are never used up. *)
Fixpoint validateFtyp_loop (n : nat) (buffer : list byte) (size i : Z) : bool :=
  match n with
  | O => false
  | S n' =>
    if i * 4 <? size - 16 then
      let offset := 16 + i * 4 in
      if isValidBrand (fromCharCode4 buffer offset) then true
      else validateFtyp_loop n' buffer size (i + 1)
    else false
  end.

Definition validateFtyp (buffer : list byte) : result bool :=
  (* Read box header *)
  let! size := getUint32 buffer 0 in
  let type := fromCharCode4 buffer 4 in
  if negb (String.eqb type "ftyp") then Ok false
  else
    (* Read major brand *)
    let majorBrand := fromCharCode4 buffer 8 in
    if isValidBrand majorBrand then Ok true
    else
      (* Check compatible brands *)
      Ok (validateFtyp_loop (Z.to_nat size) buffer size 0).

(** ** src/decoder.ts *)

Definition getPrimaryItemId (boxes : list ISOBMFFBox) : result (option Z) :=
  (* Find meta box *)
  match childrenOf (findBox boxes "meta") with
  | None => Ok None
  | Some metaChildren =>
    (* Find pitm (primary item) box *)
    match findBox metaChildren "pitm" with
    | None => Ok (Some 1)        (* Default to item 1 if no pitm box *)
    | Some pitmBox =>
      let version := idx (box_data pitmBox) 0 in
      if versionIs version 0 then
        let! v := getUint16 (box_data pitmBox) 4 in Ok (Some v)
      else
        let! v := getUint32 (box_data pitmBox) 4 in Ok (Some v)
    end
  end.

(** The errors that [decode] and [applyAlphaChannel] add to those of the
    functions they call. *)
Inductive decodeError : Type :=
  | Inner (e : error)
  | InvalidAvifFile         (* 'Invalid AVIF file: not a valid AVIF or HEIF file' *)
  | NoPrimaryItem           (* 'No primary item found' *)
  | NoImageData             (* 'Could not locate image data' *)
  | AlphaDimensionsMismatch. (* 'Alpha image dimensions do not match' *)

Inductive outcome (A : Type) : Type :=
  | Returned (a : A)
  | Raised (e : decodeError).
Arguments Returned {A} a.
Arguments Raised {A} e.

Definition D (A : Type) : Type := option (outcome A).

Definition dret {A} (a : A) : D A := Some (Returned a).
Definition draise {A} (e : decodeError) : D A := Some (Raised e).
Definition dbind {A B} (m : D A) (k : A -> D B) : D B :=
  match m with
  | Some (Returned a) => k a
  | Some (Raised e) => Some (Raised e)
  | None => None
  end.
Definition ofResult {A} (r : result A) : D A :=
  match r with
  | Ok a => dret a
  | Throw e => draise (Inner e)
  end.
Definition ofM {A} (m : M A) : D A :=
  match m with
  | Some r => ofResult r
  | None => None
  end.

Notation "'try!' x ':=' m 'in' k" := (dbind m (fun x => k))
  (at level 10, x name, m at level 100, k at level 200) : js_scope.

(** The loop [for (let i = 0; i < width * height; i++)] of
    [applyAlphaChannel], [n] more rounds from index [i]. *)
Fixpoint applyAlpha_loop (n : nat) (i : Z) (data alpha : list byte) : list byte :=
  match n with
  | O => data
  | S n' =>
    (* Use R channel as alpha *)
    applyAlpha_loop n' (i + 1)
      (store data (i * 4 + 3) (num (idx alpha (i * 4)))) alpha
  end.

Definition applyAlphaChannel (imageData alphaImage : AvifImageData)
  : outcome AvifImageData :=
  let data := img_data imageData in
  let width := img_width imageData in
  let height := img_height imageData in
  if negb (img_width alphaImage =? width) || negb (img_height alphaImage =? height)
  then Raised AlphaDimensionsMismatch
  else
    let data := applyAlpha_loop (Z.to_nat (width * height)) 0 data
                  (img_data alphaImage) in
    Returned (mkImageData data width height true (img_bitDepth imageData)).

(** The loop of [rgbaToRgb], [n] more rounds from index [i]. *)
Fixpoint rgbaToRgb_loop (n : nat) (i : Z) (rgba rgb : list byte) : list byte :=
  match n with
  | O => rgb
  | S n' =>
    let rgb := store rgb (i * 3) (num (idx rgba (i * 4))) in
    let rgb := store rgb (i * 3 + 1) (num (idx rgba (i * 4 + 1))) in
    let rgb := store rgb (i * 3 + 2) (num (idx rgba (i * 4 + 2))) in
    rgbaToRgb_loop n' (i + 1) rgba rgb
  end.

(** [numPixels = rgba.length / 4] need not be whole: the array length
    [numPixels * 3] is truncated, and [i < numPixels] is
    [i * 4 < rgba.length]. *)
Definition rgbaToRgb (rgba : list byte) : list byte :=
  let rgb := replicate (Z.to_nat (len rgba * 3 / 4)) x00 in
  rgbaToRgb_loop (Z.to_nat ((len rgba + 3) / 4)) 0 rgba rgb.

Inductive OutputFormat : Type := FormatRgba | FormatRgb.

Record AvifDecodeOptions : Type := mkDecodeOptions {
  format : option OutputFormat;
  ignoreAlpha : bool;
}.

Definition decode (fuel : nat) (buffer : list byte) (options : AvifDecodeOptions)
  : D AvifImageData :=
  let data := buffer in
  (* Validate file type *)
  try! valid := ofResult (validateFtyp data) in
  if negb valid then draise InvalidAvifFile
  else
    (* Parse ISOBMFF boxes *)
    try! boxes := ofM (parseISOBMFF fuel data) in
    (* Get file info *)
    try! info := ofResult (getAvifInfo boxes) in
    (* Find the primary item *)
    try! primary := ofResult (getPrimaryItemId boxes) in
    match primary with
    | None => draise NoPrimaryItem
    | Some primaryItemId =>
      (* Get image data for primary item *)
      try! located := ofResult (getImageData data boxes primaryItemId) in
      match located with
      | None => draise NoImageData
      | Some av1Data =>
        (* Decode AV1 bitstream *)
        try! imageData := ofM (decodeAV1 fuel av1Data) in
        (* Handle alpha if present and not ignored *)
        try! imageData :=
          (if info_hasAlpha info && negb (ignoreAlpha options) then
             try! alphaItem := ofResult (getAlphaItemId boxes) in
             match alphaItem with
             | None => dret imageData
             | Some alphaItemId =>
               try! alphaLocated := ofResult (getImageData data boxes alphaItemId) in
               match alphaLocated with
               | None => dret imageData
               | Some alphaData =>
                 try! alphaImage := ofM (decodeAV1 fuel alphaData) in
                 Some (applyAlphaChannel imageData alphaImage)
               end
             end
           else dret imageData) in
        (* Convert to RGB if requested *)
        match format options with
        | Some FormatRgb =>
          dret (mkImageData (rgbaToRgb (img_data imageData)) (img_width imageData)
                  (img_height imageData) (img_hasAlpha imageData)
                  (img_bitDepth imageData))
        | _ => dret imageData
        end
      end
    end.

(** ** src/encoder.ts and the box writers of src/container/heif.ts *)

(** [view.setUint16(off, v)] and [view.setUint32(off, v)] (big-endian):
    the value is taken modulo 2^16 or 2^32; a write that leaves the view
    throws a RangeError. *)
Definition setUint16 (buffer : list byte) (off v : Z) : result (list byte) :=
  if (off <? 0) || (len buffer <? off + 2) then Throw RangeError
  else
    let v := v mod 0x10000 in
    Ok (store (store buffer off (v / 0x100)) (off + 1) v).

Definition setUint32 (buffer : list byte) (off v : Z) : result (list byte) :=
  if (off <? 0) || (len buffer <? off + 4) then Throw RangeError
  else
    let v := v mod 0x100000000 in
    Ok (store (store (store (store buffer off (v / 0x1000000))
                        (off + 1) (v / 0x10000))
                 (off + 2) (v / 0x100))
          (off + 3) v).

(** [s.charCodeAt(i)]; past the end it is NaN, which every use here
    stores into a byte array as 0. *)
Definition charCodeAt (s : string) (i : Z) : Z :=
  match String.get (Z.to_nat i) s with
  | Some c => Z.of_N (N_of_ascii c)
  | None => 0
  end.

(** [for (let i = 0; i < 4; i++) buffer[offset + i] = s.charCodeAt(i)] *)
Definition storeCode4 (buffer : list byte) (offset : Z) (s : string) : list byte :=
  let buffer := store buffer (offset + 0) (charCodeAt s 0) in
  let buffer := store buffer (offset + 1) (charCodeAt s 1) in
  let buffer := store buffer (offset + 2) (charCodeAt s 2) in
  store buffer (offset + 3) (charCodeAt s 3).

(** [for (const brand of brands) { ...; offset += 4 }] *)
Fixpoint storeBrands (brands : list string) (buffer : list byte) (offset : Z)
  : list byte :=
  match brands with
  | [] => buffer
  | brand :: rest => storeBrands rest (storeCode4 buffer offset brand) (offset + 4)
  end.

Definition createFtyp : result (list byte) :=
  let brands := ["avif"; "mif1"; "miaf"; "MA1A"]%string in
  let size := 8 + 4 + 4 + len brands * 4 in
  let! buffer := newUint8Array size in
  (* Size *)
  let! buffer := setUint32 buffer 0 size in
  (* Type 'ftyp' *)
  let buffer := store buffer 4 0x66 in
  let buffer := store buffer 5 0x74 in
  let buffer := store buffer 6 0x79 in
  let buffer := store buffer 7 0x70 in
  (* Major brand 'avif' *)
  let buffer := store buffer 8 0x61 in
  let buffer := store buffer 9 0x76 in
  let buffer := store buffer 10 0x69 in
  let buffer := store buffer 11 0x66 in
  (* Minor version *)
  let! buffer := setUint32 buffer 12 0 in
  (* Compatible brands *)
  Ok (storeBrands brands buffer 16).

Definition createHdlrBox : result (list byte) :=
  let size := 32 in
  let! buffer := newUint8Array size in
  let! buffer := setUint32 buffer 0 size in
  let buffer := store buffer 4 0x68 in
  let buffer := store buffer 5 0x64 in
  let buffer := store buffer 6 0x6C in
  let buffer := store buffer 7 0x72 in
  (* Version and flags *)
  let! buffer := setUint32 buffer 8 0 in
  (* Pre-defined *)
  let! buffer := setUint32 buffer 12 0 in
  (* Handler type: 'pict' *)
  let buffer := store buffer 16 0x70 in
  let buffer := store buffer 17 0x69 in
  let buffer := store buffer 18 0x63 in
  let buffer := store buffer 19 0x74 in
  (* Reserved *)
  let! buffer := setUint32 buffer 20 0 in
  let! buffer := setUint32 buffer 24 0 in
  setUint32 buffer 28 0.

Definition createPitmBox (primaryItemId : Z) : result (list byte) :=
  let size := 14 in
  let! buffer := newUint8Array size in
  let! buffer := setUint32 buffer 0 size in
  let buffer := store buffer 4 0x70 in
  let buffer := store buffer 5 0x69 in
  let buffer := store buffer 6 0x74 in
  let buffer := store buffer 7 0x6D in
  (* Version and flags *)
  let! buffer := setUint32 buffer 8 0 in
  (* Item ID *)
  setUint16 buffer 12 primaryItemId.

Definition createIlocBox (itemId dataSize : Z) : result (list byte) :=
  let size := 28 in
  let! buffer := newUint8Array size in
  let! buffer := setUint32 buffer 0 size in
  let buffer := store buffer 4 0x69 in
  let buffer := store buffer 5 0x6C in
  let buffer := store buffer 6 0x6F in
  let buffer := store buffer 7 0x63 in
  (* Version 0, flags 0 *)
  let! buffer := setUint32 buffer 8 0 in
  (* offset_size (4) << 4 | length_size (4) *)
  let buffer := store buffer 12 0x44 in
  (* base_offset_size (0) << 4 | reserved (0) *)
  let buffer := store buffer 13 0x00 in
  (* Item count *)
  let! buffer := setUint16 buffer 14 1 in
  (* Item ID *)
  let! buffer := setUint16 buffer 16 itemId in
  (* Data reference index *)
  let! buffer := setUint16 buffer 18 0 in
  (* Extent count *)
  let! buffer := setUint16 buffer 20 1 in
  (* Extent offset (will be set to mdat offset) *)
  let! buffer := setUint32 buffer 22 0 in
  (* Extent length *)
  setUint32 buffer 26 dataSize.

Definition createInfeBox (itemId : Z) (itemType : string) : result (list byte) :=
  let size := 21 in
  let! buffer := newUint8Array size in
  let! buffer := setUint32 buffer 0 size in
  let buffer := store buffer 4 0x69 in
  let buffer := store buffer 5 0x6E in
  let buffer := store buffer 6 0x66 in
  let buffer := store buffer 7 0x65 in
  (* Version 2, flags 0 *)
  let! buffer := setUint32 buffer 8 0x02000000 in
  (* Item ID *)
  let! buffer := setUint16 buffer 12 itemId in
  (* Item protection index *)
  let! buffer := setUint16 buffer 14 0 in
  (* Item type *)
  let buffer := storeCode4 buffer 16 itemType in
  (* Item name (null terminated) *)
  Ok (store buffer 20 0).

Definition createIinfBox : result (list byte) :=
  (* Create infe entry for av01 item *)
  let! infe := createInfeBox 1 "av01" in
  let size := 14 + len infe in
  let! buffer := newUint8Array size in
  let! buffer := setUint32 buffer 0 size in
  let buffer := store buffer 4 0x69 in
  let buffer := store buffer 5 0x69 in
  let buffer := store buffer 6 0x6E in
  let buffer := store buffer 7 0x66 in
  (* Version 0, flags 0 *)
  let! buffer := setUint32 buffer 8 0 in
  (* Entry count *)
  let! buffer := setUint16 buffer 12 1 in
  (* infe entry *)
  set buffer infe 14.

Definition createIspeBox (width height : Z) : result (list byte) :=
  let size := 20 in
  let! buffer := newUint8Array size in
  let! buffer := setUint32 buffer 0 size in
  let buffer := store buffer 4 0x69 in
  let buffer := store buffer 5 0x73 in
  let buffer := store buffer 6 0x70 in
  let buffer := store buffer 7 0x65 in
  (* Version and flags *)
  let! buffer := setUint32 buffer 8 0 in
  (* Width *)
  let! buffer := setUint32 buffer 12 width in
  (* Height *)
  setUint32 buffer 16 height.

Definition createAv1CBox : result (list byte) :=
  let size := 12 in
  let! buffer := newUint8Array size in
  let! buffer := setUint32 buffer 0 size in
  let buffer := store buffer 4 0x61 in
  let buffer := store buffer 5 0x76 in
  let buffer := store buffer 6 0x31 in
  let buffer := store buffer 7 0x43 in
  (* AV1 codec configuration *)
  let buffer := store buffer 8 0x81 in
  let buffer := store buffer 9 0x00 in
  let buffer := store buffer 10 0x00 in
  Ok (store buffer 11 0x00).

Definition createIpmaBox : result (list byte) :=
  let size := 17 in
  let! buffer := newUint8Array size in
  let! buffer := setUint32 buffer 0 size in
  let buffer := store buffer 4 0x69 in
  let buffer := store buffer 5 0x70 in
  let buffer := store buffer 6 0x6D in
  let buffer := store buffer 7 0x61 in
  (* Version 0, flags 0 *)
  let! buffer := setUint32 buffer 8 0 in
  (* Entry count *)
  let! buffer := setUint32 buffer 12 1 in
  (* Item ID *)
  setUint16 buffer 16 1.

Definition createIprpBox (width height : Z) : result (list byte) :=
  (* Create ipco (item property container) *)
  let! ispe := createIspeBox width height in
  let! av1c := createAv1CBox in
  let ipcoSize := 8 + len ispe + len av1c in
  let! ipco := newUint8Array ipcoSize in
  let! ipco := setUint32 ipco 0 ipcoSize in
  let ipco := store ipco 4 0x69 in
  let ipco := store ipco 5 0x70 in
  let ipco := store ipco 6 0x63 in
  let ipco := store ipco 7 0x6F in
  let! ipco := set ipco ispe 8 in
  let! ipco := set ipco av1c (8 + len ispe) in
  (* Create ipma (item property association) *)
  let! ipma := createIpmaBox in
  (* Create iprp box *)
  let size := 8 + len ipco + len ipma in
  let! buffer := newUint8Array size in
  let! buffer := setUint32 buffer 0 size in
  let buffer := store buffer 4 0x69 in
  let buffer := store buffer 5 0x70 in
  let buffer := store buffer 6 0x72 in
  let buffer := store buffer 7 0x70 in
  let! buffer := set buffer ipco 8 in
  set buffer ipma (8 + len ipco).

Definition createMdatBox (data : list byte) : result (list byte) :=
  let size := 8 + len data in
  let! buffer := newUint8Array size in
  let! buffer := setUint32 buffer 0 size in
  let buffer := store buffer 4 0x6D in
  let buffer := store buffer 5 0x64 in
  let buffer := store buffer 6 0x61 in
  let buffer := store buffer 7 0x74 in
  set buffer data 8.

Definition createMetaBox (width height dataSize : Z) : result (list byte) :=
  (* Create hdlr box (handler) *)
  let! hdlr := createHdlrBox in
  (* Create pitm box (primary item) *)
  let! pitm := createPitmBox 1 in
  (* Create iloc box (item location) *)
  let! iloc := createIlocBox 1 dataSize in
  (* Create iinf box (item info) *)
  let! iinf := createIinfBox in
  (* Create iprp box (item properties) *)
  let! iprp := createIprpBox width height in
  (* Calculate meta box size *)
  let childrenSize := len hdlr + len pitm + len iloc + len iinf + len iprp in
  let metaSize := 12 + childrenSize in
  let! meta := newUint8Array metaSize in
  (* Box header *)
  let! meta := setUint32 meta 0 metaSize in
  let meta := store meta 4 0x6D in
  let meta := store meta 5 0x65 in
  let meta := store meta 6 0x74 in
  let meta := store meta 7 0x61 in
  (* Version and flags *)
  let! meta := setUint32 meta 8 0 in
  (* Children *)
  let offset := 12 in
  let! meta := set meta hdlr offset in
  let offset := offset + len hdlr in
  let! meta := set meta pitm offset in
  let offset := offset + len pitm in
  let! meta := set meta iloc offset in
  let offset := offset + len iloc in
  let! meta := set meta iinf offset in
  let offset := offset + len iinf in
  set meta iprp offset.

Definition createAvifContainer (av1Data : list byte) (width height : Z)
  : result (list byte) :=
  (* Create ftyp box *)
  let! ftyp := createFtyp in
  (* Create meta box *)
  let! meta := createMetaBox width height (len av1Data) in
  (* Create mdat box *)
  let! mdat := createMdatBox av1Data in
  (* Concatenate all boxes *)
  let totalSize := len ftyp + len meta + len mdat in
  let! res := newUint8Array totalSize in
  let offset := 0 in
  let! res := set res ftyp offset in
  let offset := offset + len ftyp in
  let! res := set res meta offset in
  let offset := offset + len meta in
  set res mdat offset.

(** [createSimpleFrame]: one header byte and [Math.min(100, width * height)]
    zero bytes. *)
Definition createSimpleFrame (data : list byte) (width height : Z) : list byte :=
  let buffer := [0x00] ++ replicate (Z.to_nat (Z.min 100 (width * height))) 0x00 in
  map toUint8 buffer.

Section Encoder.

(** [ceilLog2 x] stands for [Math.ceil(Math.log2(x))], a floating-point
    computation that is left open; both of its uses pass through [<<] and
    [|], so an integer stands for every value it can take. *)
Variable ceilLog2 : Z -> Z.

Definition createSequenceHeader (fuel : nat) (width height : Z)
  : option (list byte) :=
  (* seq_profile (0) + still_picture (1) + reduced (1) *)
  let buffer := [0x18] in
  (* seq_level_idx (level 2.0 = 0) *)
  let buffer := buffer ++ [0x00] in
  (* Frame width bits - 1 (calculate how many bits needed) *)
  let widthBits := ceilLog2 (width + 1) in
  let heightBits := ceilLog2 (height + 1) in
  let buffer := buffer ++ [JS.or (JS.shl (widthBits - 1) 4) (heightBits - 1)] in
  (* Frame width - 1 *)
  match writeLeb128 fuel (width - 1) with
  | None => None
  | Some widthBytes =>
    let buffer := buffer ++ map u8 widthBytes in
    (* Frame height - 1 *)
    match writeLeb128 fuel (height - 1) with
    | None => None
    | Some heightBytes =>
      let buffer := buffer ++ map u8 heightBytes in
      Some (map toUint8 buffer)
    end
  end.

Definition encodeAV1 (fuel : nat) (data : list byte) (width height : Z)
  : M (list byte) :=
  (* Create sequence header OBU *)
  match createSequenceHeader fuel width height with
  | None => None
  | Some seqHeader =>
    do! seqHeaderOBU :=
      createOBU fuel OBUType.SEQUENCE_HEADER seqHeader defaultOptions in
    (* Create frame OBU (simplified - just placeholder for now) *)
    let frame := createSimpleFrame data width height in
    do! frameOBU := createOBU fuel OBUType.FRAME frame defaultOptions in
    (* Concatenate OBUs *)
    let totalLength := len seqHeaderOBU + len frameOBU in
    lift (let! res := newUint8Array totalLength in
          let! res := set res seqHeaderOBU 0 in
          set res frameOBU (len seqHeaderOBU))
  end.

Definition encode (fuel : nat) (imageData : AvifImageData) : M (list byte) :=
  let width := img_width imageData in
  let height := img_height imageData in
  let data := img_data imageData in
  (* Create AV1 bitstream *)
  do! av1Data := encodeAV1 fuel data width height in
  (* Create AVIF container *)
  lift (createAvifContainer av1Data width height).

End Encoder.

(** ** Reference notions of the further properties *)

(** The byte at index [i] exists and carries the continuation bit. *)
Definition continues (data : list byte) (i : Z) : Prop :=
  exists b, idx data i = Some b /\ 128 <= u8 b.

(** The header bytes that [createOBU] writes before the size field. *)
Definition obuHeader (type : Z) (options : OBUOptions) : list byte :=
  if hasExtension options then
    [toUint8 (JS.or (JS.or (JS.shl type 3) 0x02) 0x04);
     toUint8 (JS.or (JS.shl (JS.and (temporalId options) 0x07) 5)
                    (JS.shl (JS.and (spatialId options) 0x03) 3))]
  else [toUint8 (JS.or (JS.shl type 3) 0x02)].

(** The bytes of one OBU as [createOBU] lays them out: header, LEB128
    size, payload. *)
Definition framed (type : Z) (payload : list byte) (options : OBUOptions)
  : list byte :=
  obuHeader type options ++ map toUint8 (leb_groups 5 (len payload)) ++ payload.

(** A stream of OBUs built with the default options, and the OBUs that
    parsing it gives back. *)
Definition framedStream (items : list (Z * list byte)) : list byte :=
  concat (map (fun item => framed item.1 item.2 defaultOptions) items).

Definition parsedItem (item : Z * list byte) : AV1OBU :=
  mkOBU item.1 (len (framed item.1 item.2 defaultOptions)) item.2.

(** Six bytes: an OBU header with a size field whose LEB128 value is the
    32-bit image of -6. *)
Definition negativeSizeOBU : list byte := [x0a; xfa; xff; xff; xff; x0f].

(** The reader stands somewhere in [data]. *)
Definition positioned (data : list byte) (r : BitReader) : Prop :=
  exists k, 0 <= k /\ before r data k.

(** Run from any position in [data], the reader program [c] returns a
    value that satisfies [Q] and leaves the reader positioned in [data]. *)
Definition yields {A} (data : list byte) (c : Rd A) (Q : A -> Prop) : Prop :=
  forall r, positioned data r -> Q (c r).1 /\ positioned data (c r).2.

(** All the boxes of a tree, a box before its children. *)
Fixpoint boxesUnder (box : ISOBMFFBox) : list ISOBMFFBox :=
  match box with
  | Box _ _ _ _ children =>
    box :: match children with
           | Some cs =>
             (fix scan (l : list ISOBMFFBox) : list ISOBMFFBox :=
                match l with
                | [] => []
                | b :: rest => boxesUnder b ++ scan rest
                end) cs
           | None => []
           end
  end.

Definition allBoxes (boxes : list ISOBMFFBox) : list ISOBMFFBox :=
  concat (map boxesUnder boxes).

(** What holds of every box that [parseISOBMFF] builds. *)
Definition wellBuilt (b : ISOBMFFBox) : Prop :=
  String.length (box_type b) = 4%nat /\
  (is_Some (box_children b) <-> isContainerBox (box_type b) = true) /\
  0 <= box_offset b /\ 0 <= box_size b /\
  len (box_data b) <= Z.max (box_size b - 8) 0.

(** What [validateFtyp] accepts: the type [ftyp] and a recognized major
    brand, or a recognized brand among the compatible brands that the
    size field counts (brand [i] at byte [16 + 4 i], for [4 i < size - 16]). *)
Definition acceptsFtyp (buffer : list byte) (size : Z) : Prop :=
  fromCharCode4 buffer 4 = "ftyp"%string /\
  (isValidBrand (fromCharCode4 buffer 8) = true \/
   exists i, 0 <= i /\ i * 4 < size - 16 /\
             isValidBrand (fromCharCode4 buffer (16 + i * 4)) = true).

(** Where an extent starts in the file buffer. *)
Definition extentStart (location : ItemLocation) (mdatOffset : Z)
    (extent : Extent) : Z :=
  baseOffset location + extentOffset extent + mdatOffset.

(** The bytes of [buffer] from [offset], [length] of them or as many as
    there are, and their number. *)
Definition bytesAt (buffer : list byte) (offset length : Z) : list byte :=
  take (Z.to_nat length) (drop (Z.to_nat offset) buffer).
Definition available (buffer : list byte) (offset length : Z) : Z :=
  Z.max 0 (Z.min length (len buffer - offset)).

(** Byte [k] of the placeholder picture: gray in the three colour
    channels, 255 in the fourth. *)
Definition placeholderByte (k : Z) : byte :=
  if k mod 4 =? 3 then xff else x80.

(** An RGBA buffer of [width * height] pixels that is gray (0x80) in the
    colour channels of every pixel; the fourth channel is 255, or 0x80
    too once an alpha plane has been applied. *)
Definition uniformGray (image : AvifImageData) : Prop :=
  len (img_data image) = img_width image * img_height image * 4 /\
  forall k, 0 <= k < img_width image * img_height image * 4 ->
    idx (img_data image) k
    = Some (if (k mod 4 =? 3) && negb (img_hasAlpha image) then xff else x80).

(** A 155-byte still picture with an alpha item: [ftyp] (major brand
    avif), [meta] holding [iloc] (items 1 and 2, each one extent of 8
    bytes at offset 0 of the media data), [iinf] (item 2 of type [auxl])
    and [iprp] / [ipco] / [ispe] (2 by 1), and [mdat] holding the
    two-pixel OBU stream. *)
Definition stillFile : list byte :=
  [ (* ftyp, 16 bytes *)
    x00; x00; x00; x10; x66; x74; x79; x70;
    x61; x76; x69; x66; x00; x00; x00; x00;
    (* meta, 123 bytes *)
    x00; x00; x00; x7b; x6d; x65; x74; x61;
    (* iloc, 44 bytes *)
    x00; x00; x00; x2c; x69; x6c; x6f; x63;
    x00; x00; x00; x00;             (* version 0, flags 0 *)
    x44; x00;                       (* offset size 4, length size 4 *)
    x00; x02;                       (* item count *)
    x00; x01; x00; x00; x00; x01;   (* item 1, one extent *)
    x00; x00; x00; x00; x00; x00; x00; x08;
    x00; x02; x00; x00; x00; x01;   (* item 2, one extent *)
    x00; x00; x00; x00; x00; x00; x00; x08;
    (* iinf, 35 bytes *)
    x00; x00; x00; x23; x69; x69; x6e; x66;
    x00; x00; x00; x00;             (* version 0, flags 0 *)
    x00; x01;                       (* entry count *)
    (* infe, 21 bytes *)
    x00; x00; x00; x15; x69; x6e; x66; x65;
    x02; x00; x00; x00;             (* version 2, flags 0 *)
    x00; x02;                       (* item id *)
    x00; x00;                       (* item protection index *)
    x61; x75; x78; x6c;             (* item type auxl *)
    x00;                            (* empty item name *)
    (* iprp, 36 bytes *)
    x00; x00; x00; x24; x69; x70; x72; x70;
    (* ipco, 28 bytes *)
    x00; x00; x00; x1c; x69; x70; x63; x6f;
    (* ispe, 20 bytes *)
    x00; x00; x00; x14; x69; x73; x70; x65;
    x00; x00; x00; x00;
    x00; x00; x00; x02;
    x00; x00; x00; x01;
    (* mdat, 16 bytes *)
    x00; x00; x00; x10; x6d; x64; x61; x74;
    x0a; x03; x18; x00; x20; x32; x01; x00 ].

(** The box tree of [stillFile], as [parseISOBMFF] returns it. *)
Definition stillBoxes : list ISOBMFFBox :=
  Eval vm_compute in boxesOf 10 stillFile.

Definition rgbaOptions : AvifDecodeOptions := mkDecodeOptions None false.
Definition rgbOptions : AvifDecodeOptions :=
  mkDecodeOptions (Some FormatRgb) false.

(** The sequence header that [createSequenceHeader] writes, [dims] being
    its third byte. *)
Definition sequenceHeaderBytes (dims width height : Z) : list byte :=
  x18 :: x00 :: toUint8 dims
    :: map toUint8 (leb_groups 5 (width - 1))
    ++ map toUint8 (leb_groups 5 (height - 1)).

(** [Math.ceil(Math.log2(x))] on the positive integers. *)
Definition log2Up (x : Z) : Z := Z.log2_up x.

(** Big-endian bytes of the low 16 or 32 bits of [v], the four bytes of
    a type code, and a box with a 32-bit size: header and payload. *)
Definition be16 (v : Z) : list byte :=
  [toUint8 (v mod 0x10000 / 0x100); toUint8 (v mod 0x10000)].
Definition be32 (v : Z) : list byte :=
  [toUint8 (v mod 0x100000000 / 0x1000000);
   toUint8 (v mod 0x100000000 / 0x10000);
   toUint8 (v mod 0x100000000 / 0x100);
   toUint8 (v mod 0x100000000)].
Definition code4 (s : string) : list byte :=
  map (fun i => toUint8 (charCodeAt s i)) [0; 1; 2; 3].
Definition boxBytes (type : string) (payload : list byte) : list byte :=
  be32 (8 + len payload) ++ code4 type ++ payload.

(** A type code of exactly four characters. *)
Definition fourChars (a b c d : ascii) : string :=
  String a (String b (String c (String d EmptyString))).

(** * Properties *)

(** ** Integers, bytes and arrays *)

Section JsFacts.

Lemma toInt32_small z : - 2 ^ 31 <= z < 2 ^ 31 -> toInt32 z = z.
Proof.
  intros Hz. unfold toInt32.
  rewrite Z.mod_small; lia.
Qed.

Lemma roundDouble_small z : z < 2 ^ 53 -> roundDouble z = z.
Proof.
  intros Hz. unfold roundDouble.
  destruct (Z.ltb_spec z (2 ^ 53)); [reflexivity|lia].
Qed.

(** From 2^53 on, the rounded value is a multiple of the unit in the
    last place with a quotient of 53 bits, and it lies within half a
    unit of the exact value. *)
Lemma roundDouble_nearest z :
  2 ^ 53 <= z ->
  let ulp := 2 ^ (Z.log2 z - 52) in
  exists q, roundDouble z = q * ulp /\ 2 ^ 52 <= q <= 2 ^ 53 /\
            2 * Z.abs (roundDouble z - z) <= ulp /\
            (2 * Z.abs (roundDouble z - z) = ulp -> Z.even q = true).
Proof.
  intros Hz ulp. unfold roundDouble.
  destruct (Z.ltb_spec z (2 ^ 53)); [lia|]. fold ulp.
  assert (Hlog : 53 <= Z.log2 z).
  { change 53 with (Z.log2 (2 ^ 53)). apply Z.log2_le_mono. lia. }
  destruct (Z.log2_spec z ltac:(lia)) as [Hlo Hhi].
  assert (Hulp : 0 < ulp) by (apply Z.pow_pos_nonneg; lia).
  assert (Hpow : 2 ^ Z.log2 z = 2 ^ 52 * ulp).
  { unfold ulp. rewrite <- Z.pow_add_r by lia. f_equal. lia. }
  assert (Hsucc : 2 ^ Z.succ (Z.log2 z) = 2 ^ 53 * ulp).
  { unfold ulp. rewrite <- Z.pow_add_r by lia. f_equal. lia. }
  rewrite Hpow in Hlo. rewrite Hsucc in Hhi.
  pose proof (Z.div_mod z ulp ltac:(lia)) as Hdm.
  pose proof (Z.mod_pos_bound z ulp Hulp) as Hr.
  set (q := z / ulp) in *. set (r := z mod ulp) in *.
  assert (Hq : 2 ^ 52 <= q < 2 ^ 53) by nia.
  destruct (Z.ltb_spec (2 * r) ulp).
  - exists q. split; [reflexivity|]. split; [lia|]. split; [nia|]. nia.
  - destruct (Z.ltb_spec ulp (2 * r)).
    + exists (q + 1). split; [reflexivity|]. split; [lia|]. split; [nia|]. nia.
    + destruct (Z.even q) eqn:Heven.
      * exists q. split; [reflexivity|]. split; [lia|]. split; [nia|]. done.
      * exists (q + 1). split; [reflexivity|]. split; [lia|]. split; [nia|].
        intros _. rewrite Z.even_add, Heven. reflexivity.
Qed.

Lemma roundDouble_large z : 2 ^ 53 <= z -> 2 ^ 53 <= roundDouble z.
Proof.
  intros Hz. destruct (roundDouble_nearest z Hz) as (q & -> & Hq & _).
  assert (53 <= Z.log2 z).
  { change 53 with (Z.log2 (2 ^ 53)). apply Z.log2_le_mono. lia. }
  assert (2 ^ 1 <= 2 ^ (Z.log2 z - 52)) by (apply Z.pow_le_mono_r; lia).
  change (2 ^ 1) with 2 in *. nia.
Qed.

Lemma roundDouble_nonneg z : 0 <= z -> 0 <= roundDouble z.
Proof.
  intros Hz. destruct (Z.lt_ge_cases z (2 ^ 53)).
  - by rewrite roundDouble_small.
  - pose proof (roundDouble_large z). lia.
Qed.

Lemma roundDouble_zero z : 0 <= z -> roundDouble z = 0 -> z = 0.
Proof.
  intros Hz. destruct (Z.lt_ge_cases z (2 ^ 53)).
  - by rewrite roundDouble_small.
  - pose proof (roundDouble_large z). lia.
Qed.

Lemma toInt32_range z : - 2 ^ 31 <= toInt32 z < 2 ^ 31.
Proof.
  unfold toInt32.
  pose proof (Z.mod_pos_bound (z + 2 ^ 31) (2 ^ 32) ltac:(lia)). lia.
Qed.

Lemma u8_range b : 0 <= u8 b < 256.
Proof.
  unfold u8. pose proof (Byte.to_N_bounded b). lia.
Qed.

Lemma toUint8_u8 b : toUint8 (u8 b) = b.
Proof.
  unfold toUint8. pose proof (u8_range b) as Hb.
  rewrite Z.mod_small by lia. unfold u8.
  rewrite N2Z.id, Byte.of_to_N. reflexivity.
Qed.

Lemma u8_toUint8 z : u8 (toUint8 z) = z mod 256.
Proof.
  unfold toUint8, u8.
  pose proof (Z.mod_pos_bound z 256 ltac:(lia)) as Hm.
  destruct (Byte.of_N (Z.to_N (z mod 256))) as [b|] eqn:E.
  - apply Byte.to_of_N in E. rewrite E. lia.
  - apply Byte.of_N_None_iff in E. lia.
Qed.

Lemma len_nonneg {A} (l : list A) : 0 <= len l.
Proof. unfold len. lia. Qed.

Lemma len_app {A} (l k : list A) : len (l ++ k) = len l + len k.
Proof. unfold len. rewrite length_app. lia. Qed.

Lemma len_cons {A} (x : A) (l : list A) : len (x :: l) = 1 + len l.
Proof. unfold len. simpl. lia. Qed.

Lemma len_map {A B} (f : A -> B) (l : list A) : len (map f l) = len l.
Proof. unfold len. by rewrite length_map. Qed.

(** Disjoint bit ranges: [&] gives 0 and [|] adds. *)
Lemma land_shifted_0 a b n :
  0 <= n -> 0 <= a < 2 ^ n -> Z.land a (b * 2 ^ n) = 0.
Proof.
  intros Hn Ha. apply Z.bits_inj'. intros i Hi.
  rewrite Z.land_spec, Z.bits_0.
  destruct (Z.lt_ge_cases i n) as [Hlt|Hge].
  - rewrite Z.mul_pow2_bits_low by lia. apply andb_false_r.
  - rewrite <- (Z.mod_small a (2 ^ n)) by lia.
    rewrite Z.mod_pow2_bits_high by lia. reflexivity.
Qed.

Lemma lor_shifted_add a b n :
  0 <= n -> 0 <= a < 2 ^ n -> Z.lor a (b * 2 ^ n) = a + b * 2 ^ n.
Proof.
  intros Hn Ha. pose proof (land_shifted_0 a b n Hn Ha) as H0.
  rewrite <- Z.lxor_lor by exact H0.
  symmetry. apply Z.add_nocarry_lxor. exact H0.
Qed.

Lemma land_127 v : Z.land v 0x7F = v mod 128.
Proof. change 0x7F with (Z.ones 7). rewrite Z.land_ones by lia. reflexivity. Qed.

Lemma shiftr_7 v : Z.shiftr v 7 = v / 128.
Proof. rewrite Z.shiftr_div_pow2 by lia. reflexivity. Qed.

Lemma len_replicate {A} (n : nat) (x : A) : len (replicate n x) = Z.of_nat n.
Proof. unfold len. by rewrite length_replicate. Qed.

Lemma to_nat_len {A} (l : list A) : Z.to_nat (len l) = length l.
Proof. unfold len. apply Nat2Z.id. Qed.

(** [buffer.set(src, offset)] overwrites exactly the part it covers. *)
Lemma set_middle (pre mid post src : list byte) :
  len mid = len src ->
  set (pre ++ mid ++ post) src (len pre) = Ok (pre ++ src ++ post).
Proof.
  intros Hlen. unfold set. rewrite !len_app.
  pose proof (len_nonneg pre). pose proof (len_nonneg post).
  destruct (Z.ltb_spec (len pre) 0); [lia|].
  destruct (Z.ltb_spec (len pre + (len mid + len post)) (len pre + len src));
    [lia|].
  cbn [orb]. f_equal. f_equal.
  - apply take_app_length'. apply to_nat_len.
  - f_equal. rewrite app_assoc. apply drop_app_length'.
    rewrite length_app. unfold len in *. lia.
Qed.

(** A slice that names exactly the middle part. *)
Lemma slice_middle {A} (pre mid post : list A) :
  slice (pre ++ mid ++ post) (len pre) (len pre + len mid) = mid.
Proof.
  unfold slice, rel. rewrite !len_app.
  pose proof (len_nonneg pre). pose proof (len_nonneg mid).
  pose proof (len_nonneg post).
  destruct (Z.ltb_spec (len pre) 0); [lia|].
  destruct (Z.ltb_spec (len pre + len mid) 0); [lia|].
  rewrite Z.min_l by lia. rewrite Z.min_l by lia.
  replace (Z.max (len pre + len mid - len pre) 0) with (len mid) by lia.
  rewrite !to_nat_len. rewrite drop_app_length. apply take_app_length.
Qed.

Lemma len_store buffer i v : len (store buffer i v) = len buffer.
Proof.
  unfold store, len. destruct (i <? 0); [reflexivity|].
  by rewrite length_insert.
Qed.

Lemma idx_store_eq buffer i v :
  0 <= i < len buffer -> idx (store buffer i v) i = Some (toUint8 v).
Proof.
  intros Hi. unfold store, idx, len in *.
  destruct (Z.ltb_spec i 0); [lia|].
  apply list_lookup_insert_eq. lia.
Qed.

Lemma idx_store_ne buffer i j v :
  i <> j -> idx (store buffer i v) j = idx buffer j.
Proof.
  intros Hne. unfold store, idx.
  destruct (Z.ltb_spec i 0); [reflexivity|].
  destruct (Z.ltb_spec j 0); [reflexivity|].
  apply list_lookup_insert_ne. lia.
Qed.

End JsFacts.

(** ** LEB128 *)

Section Leb128.

Lemma js_and_127 v : 0 <= v < 2 ^ 31 -> JS.and v 0x7F = v mod 128.
Proof.
  intros Hv. unfold JS.and. rewrite !toInt32_small by lia. apply land_127.
Qed.

Lemma js_sar_7 v : - 2 ^ 31 <= v < 2 ^ 31 -> JS.sar v 7 = v / 128.
Proof.
  intros Hv. unfold JS.sar. rewrite toInt32_small by lia.
  change (7 mod 32) with 7. apply shiftr_7.
Qed.

Lemma js_or_128 g : 0 <= g < 128 -> JS.or g 0x80 = g + 128.
Proof.
  intros Hg. unfold JS.or. rewrite !toInt32_small by lia.
  apply (lor_shifted_add g 1 7); lia.
Qed.

Lemma js_and_128_low g : 0 <= g < 128 -> JS.and g 0x80 = 0.
Proof.
  intros Hg. unfold JS.and. rewrite !toInt32_small by lia.
  apply (land_shifted_0 g 1 7); lia.
Qed.

Lemma js_and_128_high g : 0 <= g < 128 -> JS.and (g + 128) 0x80 = 128.
Proof.
  intros Hg. unfold JS.and. rewrite !toInt32_small by lia.
  replace (g + 128) with (Z.lor g (1 * 2 ^ 7))
    by (rewrite lor_shifted_add; lia).
  rewrite Z.land_lor_distr_l.
  change 128 with (1 * 2 ^ 7) at 1.
  rewrite (land_shifted_0 g 1 7) by lia. reflexivity.
Qed.

Lemma js_and_127_high g : 0 <= g < 128 -> JS.and (g + 128) 0x7F = g.
Proof.
  intros Hg. rewrite js_and_127 by lia.
  rewrite <- (Z.mul_1_l 128) at 1. rewrite Z.mod_add by lia.
  apply Z.mod_small. lia.
Qed.

Lemma pow_7_succ k : 0 <= k -> 2 ^ (7 * (k + 1)) = 128 * 2 ^ (7 * k).
Proof.
  intros Hk. replace (7 * (k + 1)) with (7 + 7 * k) by lia.
  rewrite Z.pow_add_r by lia. reflexivity.
Qed.

(** The write loop emits the groups of its argument. *)
Lemma writeLeb128_loop_groups n :
  forall fuel v acc,
    (1 <= n <= fuel)%nat -> 0 <= v < 2 ^ 31 -> v < 2 ^ (7 * Z.of_nat n) ->
    writeLeb128_loop fuel v acc = Some (acc ++ leb_groups n v).
Proof.
  induction n as [|n IH]; intros fuel v acc Hn Hv Hlt; [lia|].
  destruct fuel as [|fuel]; [lia|].
  cbn [writeLeb128_loop leb_groups].
  rewrite js_and_127, js_sar_7 by lia.
  pose proof (Z.mod_pos_bound v 128 ltac:(lia)) as Hm.
  destruct (Z.eqb_spec (v / 128) 0) as [E|E]; [reflexivity|].
  rewrite js_or_128 by lia.
  replace (Z.of_nat (S n)) with (Z.of_nat n + 1) in Hlt by lia.
  rewrite pow_7_succ in Hlt by lia.
  assert (0 < v / 128) by (pose proof (Z.div_pos v 128); lia).
  assert (v / 128 < 2 ^ (7 * Z.of_nat n))
    by (apply Z.div_lt_upper_bound; lia).
  assert (v / 128 < 2 ^ 31) by (apply Z.div_lt_upper_bound; lia).
  destruct n as [|n]; [simpl in *; lia|].
  rewrite IH by lia. by rewrite <- app_assoc.
Qed.

Lemma leb_groups_nonempty n v : (1 <= n)%nat -> (1 <= length (leb_groups n v))%nat.
Proof.
  destruct n; [lia|]. intros _. simpl. destruct (_ =? _); simpl; lia.
Qed.

Lemma leb_groups_length n v : (length (leb_groups n v) <= n)%nat.
Proof.
  revert v. induction n as [|n IH]; intros v; simpl; [lia|].
  destruct (_ =? _); simpl; [lia|]. specialize (IH (v / 128)). lia.
Qed.

Lemma js_shl_small a n :
  0 <= n < 32 -> 0 <= a -> a * 2 ^ n < 2 ^ 31 -> JS.shl a n = a * 2 ^ n.
Proof.
  intros Hn Ha Hlt. unfold JS.shl.
  assert (0 < 2 ^ n) by (apply Z.pow_pos_nonneg; lia).
  rewrite (toInt32_small a) by nia.
  rewrite Z.mod_small by lia. rewrite Z.shiftl_mul_pow2 by lia.
  apply toInt32_small. nia.
Qed.

Lemma js_or_add a b n :
  0 <= n -> 0 <= a < 2 ^ n -> 0 <= b -> a + b * 2 ^ n < 2 ^ 31 ->
  JS.or a (b * 2 ^ n) = a + b * 2 ^ n.
Proof.
  intros Hn Ha Hb Hlt. unfold JS.or.
  assert (0 < 2 ^ n) by (apply Z.pow_pos_nonneg; lia).
  rewrite !toInt32_small by nia. by apply lor_shifted_add.
Qed.

Lemma idx_after {A} (pre : list A) (x : A) (rest : list A) (p : Z) :
  len pre = p -> idx (pre ++ x :: rest) p = Some x.
Proof.
  intros <-. unfold idx, len.
  destruct (Z.ltb_spec (Z.of_nat (length pre)) 0); [lia|].
  rewrite Nat2Z.id. by rewrite list_lookup_middle.
Qed.

Lemma shifted_sum_bound k value v :
  0 <= k <= 4 -> 0 <= value < 2 ^ (7 * k) -> 0 <= v ->
  v * 2 ^ (7 * k) < 2 ^ 31 -> value + v * 2 ^ (7 * k) < 2 ^ 31.
Proof.
  intros Hk Hval Hv Hsh.
  assert (k = 0 \/ k = 1 \/ k = 2 \/ k = 3 \/ k = 4) as Hc by lia.
  destruct Hc as [->|[->|[->|[->| ->]]]]; simpl in *; lia.
Qed.

(** The read loop, started on the groups of [v] with [k] groups already
    consumed, returns [v] shifted into place. *)
Lemma readLeb128_loop_groups n :
  forall fuel v k value pre post offset,
    (1 <= n <= fuel)%nat ->
    0 <= k <= 4 -> 0 <= v -> v * 2 ^ (7 * k) < 2 ^ 31 ->
    v < 2 ^ (7 * Z.of_nat n) ->
    0 <= value < 2 ^ (7 * k) ->
    len pre = offset + k ->
    readLeb128_loop fuel (pre ++ map toUint8 (leb_groups n v) ++ post)
      offset value k
    = mret (value + v * 2 ^ (7 * k), k + len (leb_groups n v)).
Proof.
  induction n as [|n IH]; intros fuel v k value pre post offset
    Hn Hk Hv Hsh Hlt Hval Hpre; [lia|].
  destruct fuel as [|fuel]; [lia|].
  assert (HP : 0 < 2 ^ (7 * k)) by (apply Z.pow_pos_nonneg; lia).
  pose proof (Z.mod_pos_bound v 128 ltac:(lia)) as Hm.
  pose proof (Z.div_mod v 128 ltac:(lia)) as Hdm.
  assert (Hq : 0 <= v / 128) by (apply Z.div_pos; lia).
  cbn [readLeb128_loop leb_groups].
  destruct (Z.eqb_spec (v / 128) 0) as [E|E].
  - (* last group *)
    cbn [map app]. rewrite len_app, len_cons.
    pose proof (len_nonneg post).
    match goal with |- context [offset + k >=? ?R] =>
      destruct (Z.geb_spec (offset + k) R); [lia|] end.
    rewrite idx_after by (symmetry; lia). cbn [num].
    rewrite u8_toUint8, (Z.mod_small (v mod 128) 256) by lia.
    rewrite js_and_127 by lia. rewrite Z.mod_mod by lia.
    assert (v mod 128 = v) as -> by lia.
    replace (k * 7) with (7 * k) by lia.
    pose proof (shifted_sum_bound k value v Hk Hval Hv Hsh).
    rewrite js_shl_small by lia. rewrite js_or_add by lia.
    destruct (Z.gtb_spec (k + 1) 8); [lia|].
    rewrite js_and_128_low by lia. cbn [Z.eqb].
    rewrite len_cons. unfold mret. repeat f_equal.
  - (* a group with the continuation bit *)
    cbn [map app]. rewrite len_app, len_cons.
    pose proof (len_nonneg (map toUint8 (leb_groups n (v / 128)) ++ post)).
    match goal with |- context [offset + k >=? ?R] =>
      destruct (Z.geb_spec (offset + k) R); [lia|] end.
    rewrite idx_after by (symmetry; lia). cbn [num].
    rewrite u8_toUint8, (Z.mod_small (v mod 128 + 128) 256) by lia.
    rewrite js_and_127_high, js_and_128_high by lia.
    replace (k * 7) with (7 * k) by lia.
    assert (Hk3 : k <= 3).
    { assert (k = 0 \/ k = 1 \/ k = 2 \/ k = 3 \/ k = 4) as Hc by lia.
      destruct Hc as [->|[->|[->|[->| ->]]]]; lia. }
    pose proof (shifted_sum_bound k value v Hk Hval Hv Hsh).
    rewrite js_shl_small by nia. rewrite js_or_add by nia.
    destruct (Z.gtb_spec (k + 1) 8); [lia|].
    cbn [Z.eqb].
    replace (Z.of_nat (S n)) with (Z.of_nat n + 1) in Hlt by lia.
    rewrite pow_7_succ in Hlt by lia.
    assert (v / 128 < 2 ^ (7 * Z.of_nat n))
      by (apply Z.div_lt_upper_bound; lia).
    destruct n as [|n]; [simpl in *; lia|].
    rewrite (cons_middle (toUint8 (v mod 128 + 128)) pre), app_assoc.
    rewrite (IH fuel (v / 128) (k + 1) _ (pre ++ [toUint8 (v mod 128 + 128)]));
      rewrite ?pow_7_succ by lia; try lia; try nia.
    + rewrite len_cons. unfold mret. f_equal. f_equal. f_equal; nia.
    + rewrite len_app, len_cons. unfold len at 2. simpl. lia.
Qed.

(** Nine rounds exhaust the read loop: it never runs out of fuel. *)
Lemma readLeb128_loop_total fuel :
  forall data offset value bytes,
    (1 <= fuel)%nat -> 9 <= bytes + Z.of_nat fuel ->
    is_Some (readLeb128_loop fuel data offset value bytes).
Proof.
  induction fuel as [|fuel IH]; intros data offset value bytes Hf Hb; [lia|].
  cbn [readLeb128_loop].
  destruct (_ >=? _); [by eexists|].
  destruct (Z.gtb_spec (bytes + 1) 8); [by eexists|].
  destruct (_ =? _); [by eexists|].
  apply IH; lia.
Qed.

Lemma readLeb128_total data offset : is_Some (readLeb128 data offset).
Proof. apply readLeb128_loop_total; lia. Qed.

(** Below 2^31 the encoder stops within five rounds. *)
Lemma writeLeb128_groups fuel v :
  (5 <= fuel)%nat -> 0 <= v < 2 ^ 31 ->
  writeLeb128 fuel v = Some (map toUint8 (leb_groups 5 v)).
Proof.
  intros Hf Hv. unfold writeLeb128.
  rewrite (writeLeb128_loop_groups 5) by (simpl; lia). reflexivity.
Qed.

Lemma readLeb128_groups v pre post :
  0 <= v < 2 ^ 31 ->
  readLeb128 (pre ++ map toUint8 (leb_groups 5 v) ++ post) (len pre)
  = mret (v, len (leb_groups 5 v)).
Proof.
  intros Hv. unfold readLeb128.
  rewrite (readLeb128_loop_groups 5) by (simpl; lia).
  unfold mret. repeat f_equal. simpl. lia.
Qed.

(** Round trip on [0, 2^31): the decoder returns the value and the
    number of bytes the encoder emitted, whatever follows them. *)
Theorem leb128_roundtrip_below_2_31 fuel v :
  (5 <= fuel)%nat -> 0 <= v < 2 ^ 31 ->
  exists bytes,
    writeLeb128 fuel v = Some bytes /\
    forall post, readLeb128 (bytes ++ post) 0 = mret (v, len bytes).
Proof.
  intros Hf Hv. exists (map toUint8 (leb_groups 5 v)).
  split; [by apply writeLeb128_groups|].
  intros post. rewrite len_map.
  apply (readLeb128_groups v [] post Hv).
Qed.

(** A value whose 32-bit image is negative never becomes 0 under
    [>>= 7]: the write loop does not end. *)
Lemma writeLeb128_loop_negative fuel :
  forall value bytes,
    toInt32 value < 0 -> writeLeb128_loop fuel value bytes = None.
Proof.
  induction fuel as [|fuel IH]; intros value bytes Hneg; [reflexivity|].
  cbn [writeLeb128_loop]. unfold JS.sar at 1 2 3.
  change (7 mod 32) with 7. rewrite shiftr_7.
  pose proof (toInt32_range value) as Hr.
  assert (Hq : - 2 ^ 31 <= toInt32 value / 128 < 0).
  { split.
    - apply Z.div_le_lower_bound; lia.
    - apply Z.div_lt_upper_bound; lia. }
  destruct (Z.eqb_spec (toInt32 value / 128) 0); [lia|].
  apply IH. rewrite toInt32_small; lia.
Qed.

Lemma writeLeb128_diverges fuel v :
  2 ^ 31 <= v < 2 ^ 32 -> writeLeb128 fuel v = None.
Proof.
  intros Hv. unfold writeLeb128.
  rewrite writeLeb128_loop_negative; [reflexivity|].
  unfold toInt32.
  replace (v + 2 ^ 31) with (v - 2 ^ 31 + 1 * 2 ^ 32) by lia.
  rewrite Z.mod_add by lia. rewrite Z.mod_small; lia.
Qed.

(** C1 (fails on the code).  The spec promises the round trip, and so
    termination of the write, on all of [0, 2^32).  At v = 2^31 the
    write loop of [writeLeb128] never reaches its exit: with any amount
    of fuel it is still running and no bytes are returned, because
    [value >>= 7] is a signed shift. *)
Theorem writeLeb128_no_result_at_2_31 :
  forall fuel, writeLeb128 fuel 2147483648 = None.
Proof.
  intros fuel. apply writeLeb128_diverges. lia.
Qed.

Example leb128_roundtrip_300 :
  writeLeb128 5 300 = Some [xac; x02] /\
  readLeb128 [xac; x02] 0 = mret (300, 2).
Proof. split; vm_compute; reflexivity. Qed.

End Leb128.

(** ** OBU framing *)

Section ObuFraming.

Lemma readLeb128_loop_not_InvalidOBU fuel :
  forall data offset value bytes,
    readLeb128_loop fuel data offset value bytes <> mthrow InvalidOBU.
Proof.
  induction fuel as [|fuel IH]; intros data offset value bytes; [done|].
  cbn [readLeb128_loop].
  destruct (_ >=? _); [done|].
  destruct (_ >? _); [done|].
  destruct (_ =? _); [done|]. apply IH.
Qed.

Lemma forbidden_bit_byte b :
  JS.and (u8 b) 0x80 = if Z.testbit (u8 b) 7 then 128 else 0.
Proof. destruct b; reflexivity. Qed.

Lemma idx_Some_bounds {A} (data : list A) i x :
  idx data i = Some x -> 0 <= i < len data.
Proof.
  unfold idx, len. destruct (Z.ltb_spec i 0); [done|].
  intros Hl%lookup_lt_Some. lia.
Qed.

(** C8.  When the byte at [offset] has its top bit set, [parseOBU]
    throws the forbidden-bit error; when that bit is clear, [parseOBU]
    does not throw it, whatever else it does. *)
Theorem parseOBU_forbidden_bit data offset b :
  idx data offset = Some b ->
  (Z.testbit (u8 b) 7 = true -> parseOBU data offset = mthrow InvalidOBU) /\
  (Z.testbit (u8 b) 7 = false -> parseOBU data offset <> mthrow InvalidOBU).
Proof.
  intros Hb. pose proof (idx_Some_bounds _ _ _ Hb) as Hin.
  unfold parseOBU.
  destruct (Z.geb_spec offset (len data)); [lia|].
  rewrite Hb. cbn [num]. rewrite forbidden_bit_byte.
  split; intros ->; cbn [Z.eqb negb]; [reflexivity|].
  destruct (negb (JS.and (u8 b) 2 =? 0)).
  - pose proof (readLeb128_loop_not_InvalidOBU 9 data
      (offset + (if negb (JS.and (u8 b) 4 =? 0) then 1 + 1 else 1)) 0 0) as Hr.
    unfold readLeb128.
    destruct (readLeb128_loop 9 _ _ 0 0) as [[[v n]|e]|]; cbn; try done.
    intros [= ->]. by apply Hr.
  - done.
Qed.

(** The headers that [createOBU] writes without an extension. *)
Lemma createOBU_header_bits type :
  0 <= type < 16 ->
  let header := JS.or (JS.shl type 3) 0x02 in
  u8 (toUint8 header) = header /\
  JS.and header 0x80 = 0 /\
  JS.and (JS.sar header 3) 0x0F = type /\
  JS.and header 0x04 = 0 /\
  JS.and header 0x02 = 2.
Proof.
  intros Ht. rewrite <- (Z2Nat.id type) by lia.
  assert (Hn : (Z.to_nat type < 16)%nat) by lia.
  generalize dependent (Z.to_nat type). clear Ht. intros n Hn.
  do 16 (destruct n as [|n]; [vm_compute; done|]). lia.
Qed.

(** The buffer that [createOBU] builds with the default options: the
    header byte, the LEB128 size, the payload. *)
Lemma createOBU_layout fuel type payload :
  (5 <= fuel)%nat -> len payload < 2 ^ 31 ->
  createOBU fuel type payload defaultOptions
  = mret ([toUint8 (JS.or (JS.shl type 3) 0x02)]
          ++ map toUint8 (leb_groups 5 (len payload)) ++ payload).
Proof.
  intros Hf Hp. pose proof (len_nonneg payload) as Hp0.
  unfold createOBU. rewrite writeLeb128_groups by lia.
  cbn [hasExtension defaultOptions lift].
  set (sizeBytes := map toUint8 (leb_groups 5 (len payload))).
  set (header := JS.or (JS.shl type 3) 2).
  pose proof (len_nonneg sizeBytes) as Hs0.
  unfold newUint8Array.
  destruct (Z.ltb_spec (1 + 0 + len sizeBytes + len payload) 0); [lia|].
  cbn [rbind].
  replace (Z.to_nat (1 + 0 + len sizeBytes + len payload))
    with (1 + (length sizeBytes + length payload))%nat by (unfold len; lia).
  rewrite replicate_add, replicate_add. cbn [replicate app].
  unfold store at 1. cbn [Z.ltb Z.compare].
  match goal with |- context [set ?b sizeBytes 1] =>
    change (set b sizeBytes 1)
      with (set ([toUint8 header] ++ replicate (length sizeBytes) x00
                 ++ replicate (length payload) x00)
              sizeBytes (len [toUint8 header])) end.
  rewrite (set_middle [toUint8 header] (replicate (length sizeBytes) x00)
             (replicate (length payload) x00) sizeBytes)
    by (rewrite len_replicate; reflexivity).
  cbn [rbind].
  change (1 + len sizeBytes) with (len [toUint8 header] + len sizeBytes).
  rewrite <- len_app.
  rewrite (app_assoc [toUint8 header] sizeBytes).
  rewrite <- (app_nil_r (replicate (length payload) x00)).
  rewrite (set_middle ([toUint8 header] ++ sizeBytes)
             (replicate (length payload) x00) [] payload)
    by (rewrite len_replicate; reflexivity).
  rewrite app_nil_r, <- app_assoc. reflexivity.
Qed.

(** Round trip of the framing for payloads shorter than 2^31 bytes. *)
Theorem createOBU_parseOBU_roundtrip fuel type payload :
  (5 <= fuel)%nat -> 0 <= type < 16 -> len payload < 2 ^ 31 ->
  exists buffer,
    createOBU fuel type payload defaultOptions = mret buffer /\
    parseOBU buffer 0 = mret (Some (mkOBU type (len buffer) payload)).
Proof.
  intros Hf Ht Hp. pose proof (len_nonneg payload) as Hp0.
  eexists. split; [by apply createOBU_layout|].
  destruct (createOBU_header_bits type Ht) as (Hu & H80 & Hty & H04 & H02).
  set (header := JS.or (JS.shl type 3) 2) in *.
  set (sizeBytes := map toUint8 (leb_groups 5 (len payload))).
  unfold parseOBU.
  rewrite len_app, len_cons.
  pose proof (len_nonneg (sizeBytes ++ payload)).
  match goal with |- context [0 >=? ?R] =>
    destruct (Z.geb_spec 0 R); [unfold len in *; simpl in *; lia|] end.
  assert (Hidx : idx ([toUint8 header] ++ sizeBytes ++ payload) 0
                 = Some (toUint8 header)) by reflexivity.
  rewrite Hidx. cbn [num]. rewrite Hu, H80, Hty, H04, H02. cbn [Z.eqb negb].
  change (0 + 1) with (len [toUint8 header]).
  unfold sizeBytes. rewrite readLeb128_groups by lia.
  cbn [mbind mret]. fold sizeBytes.
  rewrite <- (len_map toUint8 (leb_groups 5 (len payload))). fold sizeBytes.
  unfold mret. do 4 f_equal.
  - rewrite len_app. change (len (@nil byte)) with 0. lia.
  - set (n := len sizeBytes).
    rewrite (app_assoc [toUint8 header] sizeBytes payload).
    rewrite <- (app_nil_r payload) at 1.
    replace (0 + (1 + n)) with (len ([toUint8 header] ++ sizeBytes))
      by (rewrite len_app; change (len [toUint8 header]) with 1; lia).
    replace (0 + (1 + n + len payload))
      with (len ([toUint8 header] ++ sizeBytes) + len payload)
      by (rewrite len_app; change (len [toUint8 header]) with 1; lia).
    apply slice_middle.
Qed.

(** From 2^31 bytes of payload on, [createOBU] gets no size bytes from
    [writeLeb128] and returns no buffer. *)
Lemma createOBU_diverges fuel type payload options :
  2 ^ 31 <= len payload < 2 ^ 32 ->
  createOBU fuel type payload options = None.
Proof.
  intros Hp. unfold createOBU. by rewrite writeLeb128_diverges.
Qed.

(** C6 (fails on the code).  The round trip is promised for every
    payload.  For a payload of 2^31 bytes, [createOBU] calls
    [writeLeb128] on the payload length and that call returns no bytes:
    with any amount of fuel there is no buffer to parse. *)
Theorem createOBU_no_result_at_2_31_bytes :
  forall fuel,
    createOBU fuel OBUType.FRAME (replicate (Z.to_nat (2 ^ 31)) x00)
      defaultOptions = None.
Proof.
  intros fuel. apply createOBU_diverges.
  rewrite len_replicate, Z2Nat.id; lia.
Qed.

Lemma parseOBU_forbidden_bit_witness :
  parseOBU [x8a; x00] 0 = mthrow InvalidOBU /\
  parseOBU [x0a; x00] 0 <> mthrow InvalidOBU.
Proof.
  split.
  - apply (proj1 (parseOBU_forbidden_bit [x8a; x00] 0 x8a eq_refl)).
    reflexivity.
  - apply (proj2 (parseOBU_forbidden_bit [x0a; x00] 0 x0a eq_refl)).
    reflexivity.
Defined.

Example createOBU_parseOBU_frame :
  createOBU 5 OBUType.FRAME [x00] defaultOptions = mret [x32; x01; x00] /\
  parseOBU [x32; x01; x00] 0 = mret (Some (mkOBU OBUType.FRAME 3 [x00])).
Proof. split; vm_compute; reflexivity. Qed.

End ObuFraming.

(** ** The bit reader and the sequence header *)

Section SequenceHeaderBits.

Lemma bitAt_range data k : 0 <= bitAt data k <= 1.
Proof.
  unfold bitAt. destruct (idx data (k / 8)); [|lia].
  destruct (Z.testbit _ _); simpl; lia.
Qed.

Lemma js_bit_of_byte b j :
  0 <= j < 8 ->
  JS.and (JS.sar (u8 b) j) 1 = Z.b2z (Z.testbit (u8 b) j).
Proof.
  intros Hj. pose proof (u8_range b) as Hb.
  unfold JS.and, JS.sar. rewrite (toInt32_small (u8 b)) by lia.
  rewrite (Z.mod_small j 32) by lia.
  assert (0 <= Z.shiftr (u8 b) j < 256).
  { rewrite Z.shiftr_div_pow2 by lia.
    assert (0 < 2 ^ j) by (apply Z.pow_pos_nonneg; lia).
    split; [apply Z.div_pos; lia|].
    apply Z.div_lt_upper_bound; nia. }
  rewrite !toInt32_small by lia.
  change 1 with (Z.ones 1) at 1. rewrite Z.land_ones by lia.
  change (2 ^ 1) with 2. rewrite <- Z.bit0_mod.
  rewrite Z.shiftr_spec by lia. reflexivity.
Qed.

Lemma before_start data : before (mkReader data 0 0) data 0.
Proof.
  unfold before. cbn. pose proof (len_nonneg data).
  split; [reflexivity|]. lia.
Qed.

(** [readBit] returns the bit the reader stands before and moves on by
    one. *)
Lemma readBit_before r data k :
  before r data k ->
  exists r', readBit r = (bitAt data k, r') /\ before r' data (k + 1).
Proof.
  intros (Hd & Hpos & Hbit & Hk). unfold readBit. rewrite Hd.
  pose proof (len_nonneg data) as Hlen.
  destruct (Z.geb_spec (br_pos r) (len data)) as [Hge|Hlt].
  - destruct Hk as [[_ ?]|[_ Hend]]; [lia|].
    exists r. split.
    + f_equal. unfold bitAt, idx.
      assert (len data <= k / 8) by (apply Z.div_le_lower_bound; lia).
      destruct (Z.ltb_spec (k / 8) 0); [reflexivity|].
      rewrite (proj2 (lookup_ge_None data _)); [reflexivity|].
      unfold len in *. lia.
    + unfold before. split; [done|]. lia.
  - destruct Hk as [[Hk _]|[? _]]; [|lia].
    assert (Hq : k / 8 = br_pos r)
      by (symmetry; apply (Z.div_unique k 8 _ (br_bitPos r)); lia).
    assert (Hr : k mod 8 = br_bitPos r)
      by (symmetry; apply (Z.mod_unique k 8 (br_pos r)); lia).
    assert (Hsome : exists b, idx data (br_pos r) = Some b).
    { unfold idx. destruct (Z.ltb_spec (br_pos r) 0); [lia|].
      apply lookup_lt_is_Some_2. unfold len in *. lia. }
    destruct Hsome as [b Hb].
    assert (Hval : JS.and (JS.sar (num (idx data (br_pos r))) (7 - br_bitPos r)) 1
                   = bitAt data k).
    { unfold bitAt. rewrite Hq, Hr, Hb. cbn [num].
      apply js_bit_of_byte. lia. }
    rewrite Hval.
    destruct (Z.eqb_spec (br_bitPos r + 1) 8) as [E|E].
    + eexists. split; [reflexivity|].
      unfold before. cbn. split; [done|]. lia.
    + eexists. split; [reflexivity|].
      unfold before. cbn. split; [done|]. lia.
Qed.

Lemma js_shift_in acc bit :
  0 <= acc < 2 ^ 30 -> 0 <= bit <= 1 ->
  JS.or (JS.shl acc 1) bit = 2 * acc + bit.
Proof.
  intros Hacc Hbit. rewrite js_shl_small by lia.
  unfold JS.or. rewrite !toInt32_small by lia.
  rewrite Z.lor_comm. rewrite (lor_shifted_add bit acc 1) by lia. lia.
Qed.

(** The loop of [readBits] accumulates the bits it passes, as long as
    the result fits 31 bits. *)
Lemma readBits_loop_before n :
  forall r data k acc m,
    before r data k ->
    0 <= m -> 0 <= acc < 2 ^ m -> m + Z.of_nat n <= 31 ->
    exists r',
      readBits_loop n acc r = (field_from data k n acc, r') /\
      before r' data (k + Z.of_nat n) /\
      0 <= field_from data k n acc < 2 ^ (m + Z.of_nat n).
Proof.
  induction n as [|n IH]; intros r data k acc m Hr Hm Hacc Hfit.
  - exists r. cbn. rewrite !Z.add_0_r. done.
  - cbn [readBits_loop field_from]. unfold rseq.
    destruct (readBit_before r data k Hr) as (r1 & -> & Hr1).
    pose proof (bitAt_range data k) as Hbit.
    assert (2 ^ m <= 2 ^ 30) by (apply Z.pow_le_mono_r; lia).
    rewrite js_shift_in by lia.
    assert (Hacc' : 0 <= 2 * acc + bitAt data k < 2 ^ (m + 1)).
    { rewrite Z.pow_add_r by lia. change (2 ^ 1) with 2. lia. }
    destruct (IH r1 data (k + 1) (2 * acc + bitAt data k) (m + 1))
      as (r' & Hrun & Hr' & Hrange); try done; try lia.
    exists r'. rewrite Hrun.
    replace (k + Z.of_nat (S n)) with (k + 1 + Z.of_nat n) by lia.
    replace (m + Z.of_nat (S n)) with (m + 1 + Z.of_nat n) by lia.
    done.
Qed.

Lemma readBits_before r data k count :
  before r data k -> 0 <= count <= 31 ->
  exists r',
    readBits count r = (field data k count, r') /\
    before r' data (k + count) /\
    0 <= field data k count < 2 ^ count.
Proof.
  intros Hr Hc. unfold readBits, field.
  destruct (readBits_loop_before (Z.to_nat count) r data k 0 0)
    as (r' & Hrun & Hr' & Hrange); try done; try lia.
  rewrite Z2Nat.id in * by lia. rewrite Z.add_0_l in Hrange.
  by exists r'.
Qed.

(** One read of the straight-line code: run [readBits] or [readBit]
    from the reader known to stand before some bit. *)
Ltac read_field :=
  match goal with
  | Hr : before ?r ?data ?k |- context [readBits ?c ?r] =>
    let r' := fresh "r" in
    let Hrun := fresh "Hrun" in
    let Hr' := fresh "Hr" in
    let Hrange := fresh "Hrange" in
    destruct (readBits_before r data k c Hr) as (r' & Hrun & Hr' & Hrange);
    [lia | rewrite Hrun; clear Hrun Hr]
  | Hr : before ?r ?data ?k |- context [readBit ?r] =>
    let r' := fresh "r" in
    let Hrun := fresh "Hrun" in
    let Hr' := fresh "Hr" in
    destruct (readBit_before r data k Hr) as (r' & Hrun & Hr');
    rewrite Hrun; clear Hrun Hr
  end.

(** The reduced branch, from a reader before bit [k]: five bits of
    level, two 4-bit widths-minus-one, then the two fields. *)
Lemma reducedDimensions_before r data k :
  before r data k ->
  let widthBitsMinus1 := field data (k + 5) 4 in
  let heightBitsMinus1 := field data (k + 9) 4 in
  exists r',
    reducedDimensions r
    = ((field data (k + 13) (widthBitsMinus1 + 1) + 1,
        field data (k + 13 + (widthBitsMinus1 + 1)) (heightBitsMinus1 + 1) + 1),
       r').
Proof.
  intros Hr wb hb. unfold reducedDimensions, rseq, rret.
  read_field. read_field. fold wb in Hrange0 |- *.
  replace (k + 5 + 4) with (k + 9) in * by lia.
  read_field. fold hb in Hrange1 |- *.
  replace (k + 9 + 4) with (k + 13) in * by lia.
  change (2 ^ 4) with 16 in *.
  read_field. read_field. by eexists.
Qed.

(** C7.  In the reduced-still-picture branch (bit 4 of the payload set)
    the decoder skips the 5-bit level, reads the 4-bit
    frameWidthBitsMinus1 at bit 10 and the 4-bit frameHeightBitsMinus1 at
    bit 14, then a width field of frameWidthBitsMinus1 + 1 bits and a
    height field of frameHeightBitsMinus1 + 1 bits, and returns each
    field plus one.  In particular both widths-minus-one equal to 10
    with fields 1919 and 1079 give 1920 by 1080. *)
Theorem reduced_header_dimensions data :
  bitAt data 4 = 1 ->
  let widthBitsMinus1 := field data 10 4 in
  let heightBitsMinus1 := field data 14 4 in
  let header := parseSequenceHeader data in
  (maxFrameWidth header = field data 18 (widthBitsMinus1 + 1) + 1 /\
   maxFrameHeight header
   = field data (18 + (widthBitsMinus1 + 1)) (heightBitsMinus1 + 1) + 1) /\
  (widthBitsMinus1 = 10 -> heightBitsMinus1 = 10 ->
   field data 18 11 = 1919 -> field data 29 11 = 1079 ->
   maxFrameWidth header = 1920 /\ maxFrameHeight header = 1080).
Proof.
  intros Hreduced wb hb header.
  assert (Hgen : maxFrameWidth header = field data 18 (wb + 1) + 1 /\
                 maxFrameHeight header
                 = field data (18 + (wb + 1)) (hb + 1) + 1).
  { unfold header, parseSequenceHeader, parseSequenceHeader_rd, rseq.
    pose proof (before_start data) as Hr.
    read_field. read_field. read_field.
    change (0 + 3 + 1 + 1) with 5 in *. change (0 + 3 + 1) with 4 in *.
    rewrite Hreduced. cbn [Z.eqb Pos.eqb negb].
    match goal with Hr : before ?r data 5 |- _ =>
      destruct (reducedDimensions_before r data 5 Hr) as (r' & ->) end.
    split; reflexivity. }
  split; [exact Hgen|].
  intros Hw Hh Hfw Hfh. destruct Hgen as [-> ->].
  rewrite Hw, Hh. change (10 + 1) with 11. change (18 + 11) with 29.
  rewrite Hfw, Hfh. done.
Qed.

Lemma reduced_header_dimensions_witness :
  maxFrameWidth (parseSequenceHeader fullHDHeader) = 1920 /\
  maxFrameHeight (parseSequenceHeader fullHDHeader) = 1080.
Proof.
  apply (proj2 (reduced_header_dimensions fullHDHeader eq_refl));
    vm_compute; reflexivity.
Defined.

(** All fields of a reduced still-picture header, by their bit
    positions. *)
Lemma reduced_header_fields data :
  bitAt data 4 = 1 ->
  let header := parseSequenceHeader data in
  seqProfile header = field data 0 3 /\
  stillPicture header = (bitAt data 3 =? 1) /\
  reducedStillPictureHeader header = true /\
  maxFrameWidth header = field data 18 (field data 10 4 + 1) + 1 /\
  maxFrameHeight header
  = field data (18 + (field data 10 4 + 1)) (field data 14 4 + 1) + 1 /\
  bitDepth header = (if field data 0 3 >=? 2 then 10 else 8).
Proof.
  intros Hreduced header.
  unfold header, parseSequenceHeader, parseSequenceHeader_rd, rseq.
  pose proof (before_start data) as Hr.
  read_field. read_field. read_field.
  change (0 + 3 + 1 + 1) with 5 in *. change (0 + 3 + 1) with 4 in *.
  change (0 + 3) with 3 in *.
  rewrite Hreduced. cbn [Z.eqb Pos.eqb negb].
  match goal with Hr : before ?r data 5 |- _ =>
    destruct (reducedDimensions_before r data 5 Hr) as (r' & ->) end.
  cbn [rskip rret fst seqProfile stillPicture reducedStillPictureHeader
       maxFrameWidth maxFrameHeight bitDepth].
  rewrite andb_false_r. repeat split; reflexivity.
Qed.

End SequenceHeaderBits.

(** ** decodeAV1 *)

Section DecodeAV1.

(** The placeholder loop keeps the length of the buffer and leaves 255
    in the fourth byte of every pixel it has passed. *)
Lemma decodeFrame_loop_alpha n :
  forall i rgba,
    0 <= i -> 4 * (i + Z.of_nat n) <= len rgba ->
    (forall j, 0 <= j < i -> idx rgba (4 * j + 3) = Some xff) ->
    len (decodeFrame_loop n i rgba) = len rgba /\
    forall j, 0 <= j < i + Z.of_nat n ->
      idx (decodeFrame_loop n i rgba) (4 * j + 3) = Some xff.
Proof.
  induction n as [|n IH]; intros i rgba Hi Hlen Hdone.
  - cbn. split; [reflexivity|]. intros j Hj. apply Hdone. lia.
  - cbn [decodeFrame_loop].
    set (rgba' := store (store (store (store rgba (i * 4) 128)
                    (i * 4 + 1) 128) (i * 4 + 2) 128) (i * 4 + 3) 255).
    assert (Hlen' : len rgba' = len rgba)
      by (unfold rgba'; by rewrite !len_store).
    destruct (IH (i + 1) rgba') as [Hl Ha]; [lia|lia| |].
    + intros j Hj. destruct (Z.eq_dec j i) as [->|Hne].
      * replace (4 * i + 3) with (i * 4 + 3) by lia.
        unfold rgba'. rewrite idx_store_eq; [reflexivity|].
        rewrite !len_store. lia.
      * unfold rgba'. rewrite !idx_store_ne by lia. apply Hdone. lia.
    + split; [lia|]. intros j Hj. apply Ha. lia.
Qed.

Lemma decodeFrame_pixels data seqHeader rgba :
  decodeFrame data seqHeader = Ok rgba ->
  let n := maxFrameWidth seqHeader * maxFrameHeight seqHeader in
  len rgba = n * 4 /\
  forall j, 0 <= j < n -> idx rgba (4 * j + 3) = Some xff.
Proof.
  unfold decodeFrame, newUint8Array.
  set (n := maxFrameWidth seqHeader * maxFrameHeight seqHeader).
  destruct (Z.ltb_spec (n * 4) 0) as [|Hn]; [done|].
  cbn [rbind]. intros [= <-].
  destruct (decodeFrame_loop_alpha (Z.to_nat n) 0
              (replicate (Z.to_nat (n * 4)) x00)) as [Hl Ha].
  - lia.
  - rewrite len_replicate. lia.
  - intros j Hj. lia.
  - rewrite len_replicate in Hl. cbn zeta. split; [lia|].
    intros j Hj. apply Ha. lia.
Qed.

(** C10.  Whenever [decodeAV1] returns an image, the OBU list holds a
    sequence header and a frame, the pixel buffer has
    maxFrameWidth * maxFrameHeight * 4 bytes, the fourth byte of every
    pixel is 255, and [hasAlpha] is false. *)
Theorem decodeAV1_placeholder fuel data image :
  decodeAV1 fuel data = mret image ->
  exists obus seqHeaderOBU frameOBU,
    parseOBUs fuel data = mret obus /\
    List.find (fun obu => obu_type obu =? OBUType.SEQUENCE_HEADER) obus
      = Some seqHeaderOBU /\
    List.find (fun obu => obu_type obu =? OBUType.FRAME) obus
      = Some frameOBU /\
    let seqHeader := parseSequenceHeader (obu_data seqHeaderOBU) in
    let n := maxFrameWidth seqHeader * maxFrameHeight seqHeader in
    img_width image = maxFrameWidth seqHeader /\
    img_height image = maxFrameHeight seqHeader /\
    len (img_data image) = n * 4 /\
    (forall j, 0 <= j < n -> idx (img_data image) (4 * j + 3) = Some xff) /\
    img_hasAlpha image = false.
Proof.
  unfold decodeAV1. intros Hrun.
  destruct (parseOBUs fuel data) as [[obus|e]|]; cbn [mbind] in Hrun;
    try discriminate.
  destruct (List.find _ obus) as [seqHeaderOBU|] eqn:Hseq; [|discriminate].
  destruct (List.find (fun obu => obu_type obu =? OBUType.FRAME) obus)
    as [frameOBU|] eqn:Hframe; [|discriminate].
  destruct (decodeFrame _ _) as [pixels|e] eqn:Hpix; cbn in Hrun;
    [|discriminate].
  injection Hrun as <-.
  exists obus, seqHeaderOBU, frameOBU.
  destruct (decodeFrame_pixels _ _ _ Hpix) as [Hl Ha].
  repeat split; done.
Qed.

Lemma decodeAV1_placeholder_witness :
  decodeAV1 3 twoPixelStream = mret twoPixelImage /\
  len (img_data twoPixelImage) = 2 * 1 * 4 /\
  idx (img_data twoPixelImage) 3 = Some xff /\
  idx (img_data twoPixelImage) 7 = Some xff /\
  img_hasAlpha twoPixelImage = false.
Proof.
  assert (Hrun : decodeAV1 3 twoPixelStream = mret twoPixelImage)
    by (vm_compute; reflexivity).
  destruct (decodeAV1_placeholder 3 twoPixelStream twoPixelImage Hrun)
    as (obus & seqHeaderOBU & frameOBU & _ & _ & _ & Hw & Hh & Hlen & Ha & Hno).
  rewrite <- Hw, <- Hh in Hlen, Ha.
  split; [exact Hrun|]. split; [exact Hlen|].
  split; [apply (Ha 0); vm_compute; split; [discriminate|reflexivity]|].
  split; [apply (Ha 1); vm_compute; split; [discriminate|reflexivity]|].
  exact Hno.
Defined.

End DecodeAV1.

(** ** The box parser *)

Section BoxParser.

Lemma getUint32_range data off v :
  getUint32 data off = Ok v -> 0 <= v < 2 ^ 32.
Proof.
  unfold getUint32. destruct (_ || _); [done|]. intros [= <-].
  assert (Hn : forall o, 0 <= num o < 256).
  { intros [b|]; cbn; [apply u8_range | lia]. }
  pose proof (Hn (idx data off)). pose proof (Hn (idx data (off + 1))).
  pose proof (Hn (idx data (off + 2))). pose proof (Hn (idx data (off + 3))).
  lia.
Qed.

(** The size that the loop adds to the cursor is never negative, and it
    is positive unless a 64-bit header holds the extended size 0. *)
Lemma boxExtent_nonneg buffer offset size boxSize headerSize :
  offset < len buffer - 8 ->
  getUint32 buffer offset = Ok size ->
  boxExtent buffer offset size = Ok (boxSize, headerSize) ->
  0 <= boxSize /\ (headerSize = 8 \/ headerSize = 16) /\
  (boxSize = 0 -> size = 1).
Proof.
  intros Hoff Hsize. pose proof (getUint32_range _ _ _ Hsize) as Hr.
  unfold boxExtent.
  destruct (Z.eqb_spec size 1) as [->|Hne1].
  - destruct (getUint32 buffer (offset + 8)) as [hi|] eqn:Hhi; [|done].
    destruct (getUint32 buffer (offset + 12)) as [lo|] eqn:Hlo; [|done].
    cbn [rbind]. intros [= <- <-].
    apply getUint32_range in Hhi, Hlo.
    split; [apply roundDouble_nonneg; lia|]. split; [by right|done].
  - destruct (Z.eqb_spec size 0) as [->|Hne0]; intros [= <- <-]; lia.
Qed.

(** The loop stops without a look at the bytes once fewer than nine
    remain. *)
Lemma parseISOBMFF_loop_stop fuel buffer offset boxes :
  len buffer - 8 <= offset ->
  parseISOBMFF_loop (S fuel) buffer offset boxes = mret boxes.
Proof.
  intros Hoff. cbn [parseISOBMFF_loop].
  destruct (Z.ltb_spec offset (len buffer - 8)); [lia|reflexivity].
Qed.

(** Every box of the returned level starts strictly before
    [buffer.length - 8]. *)
Lemma parseISOBMFF_loop_offsets fuel :
  forall buffer offset acc boxes,
    0 <= offset ->
    Forall (fun b => 0 <= box_offset b < len buffer - 8) acc ->
    parseISOBMFF_loop fuel buffer offset acc = mret boxes ->
    Forall (fun b => 0 <= box_offset b < len buffer - 8) boxes.
Proof.
  induction fuel as [|fuel IH]; intros buffer offset acc boxes Hoff Hacc;
    [done|].
  cbn [parseISOBMFF_loop].
  destruct (Z.ltb_spec offset (len buffer - 8)) as [Hlt|Hge];
    [|by intros [= <-]].
  destruct (getUint32 buffer offset) as [size|] eqn:Hsize; [|done].
  cbn [lift mbind].
  destruct (boxExtent buffer offset size) as [[boxSize headerSize]|] eqn:Hext;
    [|done].
  destruct (boxExtent_nonneg _ _ _ _ _ Hlt Hsize Hext) as (Hpos & _ & _).
  set (children := if isContainerBox _ then _ else _).
  destruct children as [[children|]|]; cbn [mbind]; try done.
  apply IH; [lia|].
  apply Forall_app. split; [done|].
  apply Forall_singleton. cbn. lia.
Qed.

(** C9.  The top-level loop only starts a box whose header begins
    strictly before [buffer.length - 8]: (1) a buffer of at most eight
    bytes gives the empty list; (2) every returned top-level box starts
    before [buffer.length - 8]; (3) when the first box ends eight bytes
    before the end of the buffer, the result is that box alone: whatever
    the last eight bytes hold, a well-formed empty box included, is left
    out without an error. *)
Theorem parseISOBMFF_trailing_header_skipped :
  (forall fuel buffer,
      len buffer <= 8 -> parseISOBMFF (S fuel) buffer = mret []) /\
  (forall fuel buffer boxes,
      parseISOBMFF fuel buffer = mret boxes ->
      Forall (fun b => 0 <= box_offset b < len buffer - 8) boxes) /\
  (forall fuel buffer size,
      getUint32 buffer 0 = Ok size ->
      8 <= size -> size = len buffer - 8 ->
      isContainerBox (fromCharCode4 buffer 4) = false ->
      parseISOBMFF (S (S fuel)) buffer
      = mret [Box (fromCharCode4 buffer 4) size 0 (slice buffer 8 size) None]).
Proof.
  split; [|split].
  - intros fuel buffer Hlen. apply parseISOBMFF_loop_stop. lia.
  - intros fuel buffer boxes Hrun.
    by apply (parseISOBMFF_loop_offsets fuel buffer 0 []).
  - intros fuel buffer size Hsize H8 Hend Hty.
    unfold parseISOBMFF. cbn [parseISOBMFF_loop].
    destruct (Z.ltb_spec 0 (len buffer - 8)); [|lia].
    rewrite Hsize. cbn [lift mbind]. unfold boxExtent.
    destruct (Z.eqb_spec size 1); [lia|].
    destruct (Z.eqb_spec size 0); [lia|].
    cbn [mbind]. change (0 + 4) with 4. rewrite Hty. cbn [mbind mret].
    destruct (Z.ltb_spec (0 + size) (len buffer - 8)); [lia|].
    reflexivity.
Qed.

(** A slice whose end lies at or beyond the end of the buffer is the
    rest of the buffer. *)
Lemma slice_to_end {A} (data : list A) start fin :
  0 <= start -> len data <= fin ->
  slice data start fin = drop (Z.to_nat start) data.
Proof.
  intros Hs Hf. unfold slice, rel. pose proof (len_nonneg data) as Hl.
  destruct (Z.ltb_spec start 0); [lia|].
  destruct (Z.ltb_spec fin 0); [lia|].
  rewrite (Z.min_r fin) by lia.
  destruct (Z.le_gt_cases start (len data)) as [Hle|Hgt].
  - rewrite Z.min_l by lia. apply take_ge.
    rewrite length_drop. unfold len in *. lia.
  - rewrite Z.min_r by lia. rewrite !drop_ge by (unfold len in *; lia).
    apply take_nil.
Qed.

(** What the loop does with a box that declares more than is there:
    the box is recorded with its declared size and the rest of the
    buffer as payload, and the level ends. *)
Lemma parseISOBMFF_loop_overrun fuel buffer offset boxes size boxSize headerSize :
  0 <= offset < len buffer - 8 ->
  getUint32 buffer offset = Ok size ->
  boxExtent buffer offset size = Ok (boxSize, headerSize) ->
  len buffer < offset + boxSize ->
  let type := fromCharCode4 buffer (offset + 4) in
  let data := drop (Z.to_nat (offset + headerSize)) buffer in
  parseISOBMFF_loop (S (S fuel)) buffer offset boxes
  = do! children :=
      (if isContainerBox type then
         do! cs := parseISOBMFF_loop (S fuel) data 0 [] in mret (Some cs)
       else mret None) in
    mret (boxes ++ [Box type boxSize offset data children]).
Proof.
  intros Hoff Hsize Hext Hover type data.
  destruct (boxExtent_nonneg _ _ _ _ _ (proj2 Hoff) Hsize Hext)
    as (Hpos & Hhdr & _).
  cbn [parseISOBMFF_loop].
  destruct (Z.ltb_spec offset (len buffer - 8)); [|lia].
  rewrite Hsize. cbn [lift mbind]. rewrite Hext. cbn [mbind].
  rewrite slice_to_end by lia. fold type data.
  destruct (Z.ltb_spec (offset + boxSize) (len buffer - 8)); [lia|].
  reflexivity.
Qed.

(** C3, amended.  When the parse loop reaches a box whose declared size
    (32-bit, or 64-bit extended) runs past the end of the buffer, the
    parser raises no error for it: the box is returned with the size
    that [boxExtent] computes from the header (a 64-bit extended size
    as the double [highSize * 0x100000000 + lowSize], inexact from 2^53
    on) and with the payload cut at the end of the buffer, as the last
    box of its level.  For a type that is not a container the level
    succeeds. *)
Theorem parseISOBMFF_overrun_truncates fuel buffer offset boxes :
  0 <= offset < len buffer - 8 ->
  declaresPastEnd buffer offset ->
  exists size boxSize headerSize,
    getUint32 buffer offset = Ok size /\
    boxExtent buffer offset size = Ok (boxSize, headerSize) /\
    let type := fromCharCode4 buffer (offset + 4) in
    let data := drop (Z.to_nat (offset + headerSize)) buffer in
    parseISOBMFF_loop (S (S fuel)) buffer offset boxes
    = (do! children :=
         (if isContainerBox type then
            do! cs := parseISOBMFF_loop (S fuel) data 0 [] in mret (Some cs)
          else mret None) in
       mret (boxes ++ [Box type boxSize offset data children])) /\
    (isContainerBox type = false ->
     parseISOBMFF_loop (S (S fuel)) buffer offset boxes
     = mret (boxes ++ [Box type boxSize offset data None])).
Proof.
  intros Hoff (size & boxSize & headerSize & Hsize & Hext & Hover).
  exists size, boxSize, headerSize. split; [done|]. split; [done|].
  intros type data.
  pose proof (parseISOBMFF_loop_overrun fuel buffer offset boxes
                size boxSize headerSize Hoff Hsize Hext Hover) as Hrun.
  cbn zeta in Hrun. fold type data in Hrun.
  split; [exact Hrun|].
  intros Hty. rewrite Hrun, Hty. reflexivity.
Qed.

(** C3 as stated fails: the 12-byte file declares a box of 100 bytes,
    and the parser returns that box with the four bytes that are there
    instead of failing. *)
Lemma parseISOBMFF_overrun_accepted :
  declaresPastEnd overrunFile 0 /\
  parseISOBMFF 2 overrunFile
  = mret [Box "free" 100 0 [x01; x02; x03; x04] None] /\
  forall fuel, ~ failed (parseISOBMFF fuel overrunFile).
Proof.
  split; [|split].
  - exists 100, 100, 8. vm_compute. repeat split; reflexivity.
  - vm_compute. reflexivity.
  - intros [|[|fuel]] [e He]; [done|done|].
    assert (Hrun : parseISOBMFF (S (S fuel)) overrunFile
                   = mret [Box "free" 100 0 [x01; x02; x03; x04] None]).
    { unfold parseISOBMFF.
      rewrite (parseISOBMFF_loop_overrun fuel overrunFile 0 [] 100 100 8);
        [reflexivity | vm_compute; split; [discriminate|reflexivity]
         | reflexivity | reflexivity | vm_compute; reflexivity]. }
    rewrite Hrun in He. discriminate.
Qed.

(** An extended size that no double holds is recorded as the double the
    sum rounds to: 2^64 - 1 comes back as 2^64. *)
Lemma parseISOBMFF_rounds_extended_size :
  declaresPastEnd hugeSizeFile 0 /\
  parseISOBMFF 2 hugeSizeFile
  = mret [Box "free" 18446744073709551616 0 [x01; x02] None].
Proof.
  split; [|vm_compute; reflexivity].
  exists 1, 18446744073709551616, 16. vm_compute. repeat split; reflexivity.
Qed.

(** One round on the file with the zero extended size records an empty
    box and leaves the cursor where it was. *)
Lemma zeroExtendedSize_round fuel boxes :
  parseISOBMFF_loop (S fuel) zeroExtendedSizeFile 0 boxes
  = parseISOBMFF_loop fuel zeroExtendedSizeFile 0
      (boxes ++ [Box "free" 0 0 [] None]).
Proof. reflexivity. Qed.

(** C4 (fails on the code).  The spec requires [parseISOBMFF] to end on
    every input.  On the 16-byte file whose only box has the 64-bit
    form with extended size 0 the cursor never moves: with any amount of
    fuel the loop is still running. *)
Theorem parseISOBMFF_no_result_on_zero_extended_size :
  forall fuel, parseISOBMFF fuel zeroExtendedSizeFile = None.
Proof.
  intros fuel. unfold parseISOBMFF. generalize (@nil ISOBMFFBox).
  induction fuel as [|fuel IH]; intros boxes; [reflexivity|].
  rewrite zeroExtendedSize_round. apply IH.
Qed.

(** *** Termination away from the zero extended size *)

Lemma idx_take_drop {A} (data : list A) (n a : nat) (i : Z) :
  0 <= i < len (take n (drop a data)) ->
  idx (take n (drop a data)) i = idx data (Z.of_nat a + i).
Proof.
  intros Hi. unfold idx, len in *. rewrite length_take in Hi.
  destruct (Z.ltb_spec i 0); [lia|].
  destruct (Z.ltb_spec (Z.of_nat a + i) 0); [lia|].
  rewrite lookup_take_lt by lia. rewrite lookup_drop.
  f_equal. lia.
Qed.

Lemma getUint32_take_drop (data : list byte) (n a : nat) off v :
  getUint32 (take n (drop a data)) off = Ok v ->
  getUint32 data (Z.of_nat a + off) = Ok v.
Proof.
  unfold getUint32.
  destruct (Z.ltb_spec off 0); [done|].
  destruct (Z.ltb_spec (len (take n (drop a data))) (off + 4)); [done|].
  cbn [orb]. rewrite !idx_take_drop by lia.
  assert (len (take n (drop a data)) <= len data - Z.of_nat a).
  { unfold len in *. rewrite length_take, length_drop in *. lia. }
  destruct (Z.ltb_spec (Z.of_nat a + off) 0); [lia|].
  destruct (Z.ltb_spec (len data) (Z.of_nat a + off + 4)); [lia|].
  cbn [orb]. by rewrite !Z.add_assoc.
Qed.

Lemma noZeroExtendedSize_slice buffer start fin :
  noZeroExtendedSize buffer -> noZeroExtendedSize (slice buffer start fin).
Proof.
  intros Hno off (H1 & H2 & H3). unfold slice in *.
  apply getUint32_take_drop in H1, H2, H3.
  apply (Hno (Z.of_nat (Z.to_nat (rel (len buffer) start)) + off)).
  by rewrite <- !Z.add_assoc.
Qed.

Lemma len_slice_le {A} (data : list A) start fin :
  0 <= start -> len (slice data start fin) <= Z.max (len data - start) 0.
Proof.
  intros Hs. unfold slice, rel, len.
  rewrite length_take, length_drop.
  destruct (Z.ltb_spec start 0); lia.
Qed.

(** With [len buffer - offset] units of fuel to spare the loop ends,
    with a box list or an exception. *)
Lemma parseISOBMFF_loop_terminates fuel :
  forall buffer offset boxes,
    noZeroExtendedSize buffer -> 0 <= offset ->
    Z.max (len buffer - offset) 0 < Z.of_nat fuel ->
    is_Some (parseISOBMFF_loop fuel buffer offset boxes).
Proof.
  induction fuel as [|fuel IH]; intros buffer offset boxes Hno Hoff Hfuel;
    [lia|].
  cbn [parseISOBMFF_loop].
  destruct (Z.ltb_spec offset (len buffer - 8)) as [Hlt|Hge];
    [|by eexists].
  destruct (getUint32 buffer offset) as [size|] eqn:Hsize; [|by eexists].
  cbn [lift mbind].
  destruct (boxExtent buffer offset size) as [[boxSize headerSize]|] eqn:Hext;
    [|by eexists].
  cbn [mbind].
  destruct (boxExtent_nonneg _ _ _ _ _ Hlt Hsize Hext) as (Hpos & Hhdr & Hz).
  assert (Hprogress : 0 < boxSize).
    { destruct (Z.eq_dec boxSize 0) as [->|]; [|lia].
      exfalso. specialize (Hz eq_refl). subst size.
      unfold boxExtent in Hext. cbn [Z.eqb Pos.eqb] in Hext.
      destruct (getUint32 buffer (offset + 8)) as [hi|] eqn:Hhi; [|done].
      destruct (getUint32 buffer (offset + 12)) as [lo|] eqn:Hlo; [|done].
      cbn [rbind] in Hext. injection Hext as Hsum _.
      pose proof (getUint32_range _ _ _ Hhi).
      pose proof (getUint32_range _ _ _ Hlo).
      apply roundDouble_zero in Hsum; [|lia].
      assert (hi = 0) by lia. assert (lo = 0) by lia. subst hi lo.
      by apply (Hno offset). }
  set (data := slice buffer (offset + headerSize) (offset + boxSize)).
  assert (Hdata : is_Some (parseISOBMFF_loop fuel data 0 [])).
  { apply IH; [by apply noZeroExtendedSize_slice | lia |].
    pose proof (len_slice_le buffer (offset + headerSize)
                  (offset + boxSize) ltac:(lia)) as Hle.
    fold data in Hle. lia. }
  destruct (isContainerBox _).
  - destruct Hdata as [[cs|e] ->]; cbn [mbind mret]; [|by eexists].
    apply IH; [done|lia|lia].
  - cbn [mbind mret]. apply IH; [done|lia|lia].
Qed.

(** [parseISOBMFF] ends on every buffer that holds no 64-bit header
    with extended size 0. *)
Theorem parseISOBMFF_terminates buffer :
  noZeroExtendedSize buffer ->
  exists outcome, parseISOBMFF (S (length buffer)) buffer = Some outcome.
Proof.
  intros Hno. apply parseISOBMFF_loop_terminates; [done|lia|].
  unfold len. lia.
Qed.

Lemma parseISOBMFF_trailing_header_skipped_witness :
  parseISOBMFF 1 [x00; x00; x00; x08; x73; x6b; x69; x70] = mret [] /\
  Forall (fun b => 0 <= box_offset b < len trailingBoxFile - 8)
    [Box "free" 12 0 [x01; x02; x03; x04] None] /\
  parseISOBMFF 2 trailingBoxFile
  = mret [Box "free" 12 0 [x01; x02; x03; x04] None].
Proof.
  destruct parseISOBMFF_trailing_header_skipped as (Hshort & Hoffsets & Hlast).
  split; [|split].
  - apply (Hshort 0%nat). vm_compute. discriminate.
  - apply (Hoffsets 2%nat trailingBoxFile). vm_compute. reflexivity.
  - apply (Hlast 0%nat trailingBoxFile 12); vm_compute;
      try reflexivity; discriminate.
Defined.

Lemma parseISOBMFF_overrun_truncates_witness :
  exists size boxSize headerSize,
    getUint32 overrunFile 0 = Ok size /\
    boxExtent overrunFile 0 size = Ok (boxSize, headerSize) /\
    let type := fromCharCode4 overrunFile (0 + 4) in
    let data := drop (Z.to_nat (0 + headerSize)) overrunFile in
    parseISOBMFF_loop 2 overrunFile 0 []
    = (do! children :=
         (if isContainerBox type then
            do! cs := parseISOBMFF_loop 1 data 0 [] in mret (Some cs)
          else mret None) in
       mret ([] ++ [Box type boxSize 0 data children])) /\
    (isContainerBox type = false ->
     parseISOBMFF_loop 2 overrunFile 0 []
     = mret ([] ++ [Box type boxSize 0 data None])).
Proof.
  apply (parseISOBMFF_overrun_truncates 0 overrunFile 0 []).
  - vm_compute. split; [discriminate|reflexivity].
  - exists 100, 100, 8. vm_compute. repeat split; reflexivity.
Defined.

Lemma noZeroExtendedSizeb_correct buffer :
  noZeroExtendedSizeb buffer = true -> noZeroExtendedSize buffer.
Proof.
  intros Hall off (H1 & H2 & H3).
  assert (Hin : 0 <= off < len buffer).
  { unfold getUint32 in H1.
    destruct (Z.ltb_spec off 0); [done|].
    destruct (Z.ltb_spec (len buffer) (off + 4)); [done|]. lia. }
  unfold noZeroExtendedSizeb in Hall. rewrite forallb_forall in Hall.
  specialize (Hall (Z.to_nat off)).
  rewrite Z2Nat.id in Hall by lia.
  unfold zeroExtendedAt in Hall. rewrite H1, H2, H3 in Hall.
  discriminate Hall. apply in_seq. unfold len in Hin. lia.
Qed.

(** The sample file of the alpha item holds no such header, so its parse
    ends within 85 rounds. *)
Example parseISOBMFF_terminates_alphaItemFile :
  exists outcome, parseISOBMFF 85 alphaItemFile = Some outcome.
Proof.
  apply (parseISOBMFF_terminates alphaItemFile).
  apply noZeroExtendedSizeb_correct. vm_compute. reflexivity.
Qed.

End BoxParser.

(** ** Item resolution *)

Section ItemResolver.

Lemma totalLength_concat (parts : list (list byte)) (acc : Z) :
  fold_left (fun sum part => sum + len part) parts acc
  = acc + len (concat parts).
Proof.
  revert acc. induction parts as [|part parts IH]; intros acc; cbn.
  - unfold len. cbn. lia.
  - rewrite IH, len_app. lia.
Qed.

(** Copying the parts one after the other into a fresh buffer of the
    total length gives their concatenation. *)
Lemma copyParts_concat (parts : list (list byte)) :
  forall pre,
    copyParts parts (pre ++ replicate (length (concat parts)) x00) (len pre)
    = Ok (pre ++ concat parts).
Proof.
  induction parts as [|part parts IH]; intros pre; cbn [copyParts concat].
  - reflexivity.
  - rewrite length_app, replicate_add.
    rewrite set_middle by (rewrite len_replicate; reflexivity).
    cbn [rbind]. rewrite app_assoc, <- len_app.
    rewrite IH. by rewrite <- app_assoc.
Qed.

(** C2, amended.  Construction methods other than 0 are not told apart
    from 0: for an item whose [iloc] entry has a construction method
    different from 0, [getImageData] returns the extents sliced from the
    file buffer at [baseOffset + extentOffset + mdat payload offset],
    concatenated in listed order. *)
Theorem getImageData_ignores_constructionMethod
    buffer boxes itemId metaChildren ilocBox locations location :
  childrenOf (findBox boxes "meta") = Some metaChildren ->
  findBox metaChildren "iloc" = Some ilocBox ->
  parseIloc (box_data ilocBox) = Ok locations ->
  List.find (fun loc => loc_itemId loc =? itemId) locations = Some location ->
  constructionMethod location <> 0 ->
  getImageData buffer boxes itemId
  = Ok (Some (concat (map (extentBytes buffer location (mdatPayloadOffset boxes))
                          (extents location)))).
Proof.
  intros Hmeta Hiloc Hloc Hfind _. unfold getImageData.
  rewrite Hmeta, Hiloc, Hloc. cbn [rbind]. rewrite Hfind.
  fold (mdatPayloadOffset boxes).
  set (parts := map _ (extents location)).
  rewrite totalLength_concat, Z.add_0_l.
  unfold newUint8Array.
  pose proof (len_nonneg (concat parts)).
  destruct (Z.ltb_spec (len (concat parts)) 0); [lia|].
  cbn [rbind]. rewrite to_nat_len.
  pose proof (copyParts_concat parts []) as Hcopy.
  cbn [app] in Hcopy. change (len (@nil byte)) with 0 in Hcopy.
  rewrite Hcopy. reflexivity.
Qed.

(** C2 as stated fails: in the sample file the item has construction
    method 1, and [getImageData] returns the four [mdat] bytes instead
    of failing. *)
Lemma getImageData_resolves_method_1 :
  parseISOBMFF 3 idatItemFile = mret idatItemBoxes /\
  (exists ilocBox,
      findBox idatItemBoxes "iloc" = Some ilocBox /\
      parseIloc (box_data ilocBox)
      = Ok [mkItemLocation 1 1 0 0 [mkExtent 0 4]]) /\
  getImageData idatItemFile idatItemBoxes 1 = Ok (Some [xde; xad; xbe; xef]).
Proof.
  split; [vm_compute; reflexivity|].
  split; [|vm_compute; reflexivity].
  eexists. split; [vm_compute; reflexivity|]. vm_compute. reflexivity.
Qed.

(** The two flags of [getAvifInfo], read off the code: [isSequence]
    tests the top-level list for [moov]; [hasAlpha] tests the entries of
    the [iinf] box under [meta] for the type [auxl] or a name that
    includes [Alpha], spelled exactly so. *)
Lemma getAvifInfo_flags boxes info :
  getAvifInfo boxes = Ok info ->
  info_isSequence info
  = existsb (fun box => String.eqb (box_type box) "moov") boxes /\
  exists metaChildren,
    childrenOf (findBox boxes "meta") = Some metaChildren /\
    match findBox metaChildren "iinf" with
    | Some iinfBox =>
      exists items,
        parseIinf (box_data iinfBox) = Ok items /\
        info_hasAlpha info = existsb isAlphaInfo items
    | None => info_hasAlpha info = false
    end.
Proof.
  unfold getAvifInfo.
  destruct (childrenOf (findBox boxes "meta")) as [metaChildren|]; [|done].
  destruct (childrenOf (findBox metaChildren "iprp")) as [iprpChildren|];
    [|done].
  destruct (childrenOf (findBox iprpChildren "ipco")) as [ipcoChildren|];
    [|done].
  destruct (match findBox ipcoChildren "ispe" with
            | Some ispeBox => parseIspe (box_data ispeBox)
            | None => Ok (mkIspe 0 0)
            end) as [extent|]; [|done].
  cbn [rbind].
  destruct (match findBox ipcoChildren "av1C" with
            | Some av1cBox => _
            | None => _
            end) as [depth|]; [|done].
  cbn [rbind].
  destruct (findBox metaChildren "iinf") as [iinfBox|] eqn:Hiinf.
  - destruct (parseIinf (box_data iinfBox)) as [items|] eqn:Hitems; [|done].
    cbn [rbind]. intros [= <-]. cbn.
    split; [reflexivity|]. exists metaChildren. split; [reflexivity|].
    rewrite Hiinf. by exists items.
  - cbn [rbind]. intros [= <-]. cbn.
    split; [reflexivity|]. exists metaChildren. by rewrite Hiinf.
Qed.

(** C5 (fails on the code).  The claim counts a name that contains
    [alpha] in any letter case.  The sample file has an item named
    [alpha]: [getAvifInfo] accepts the tree and reports [hasAlpha] false,
    because it looks for [Alpha] spelled with a capital, while
    [getAlphaItemId], which lowers the case first, finds the item. *)
Theorem getAvifInfo_misses_lowercase_alpha :
  parseISOBMFF 8 alphaItemFile = mret alphaItemBoxes /\
  (exists iinfBox,
      findBox alphaItemBoxes "iinf" = Some iinfBox /\
      parseIinf (box_data iinfBox) = Ok [mkItemInfo 2 0 "av01" "alpha"]) /\
  getAvifInfo alphaItemBoxes
  = Ok (mkAvifInfo 2 1 false (Some 8) "srgb" false) /\
  getAlphaItemId alphaItemBoxes = Ok (Some 2).
Proof.
  split; [vm_compute; reflexivity|].
  split; [|split; vm_compute; reflexivity].
  eexists. split; [vm_compute; reflexivity|]. vm_compute. reflexivity.
Qed.

Lemma getImageData_ignores_constructionMethod_witness :
  getImageData idatItemFile idatItemBoxes 1
  = Ok (Some (concat (map (extentBytes idatItemFile
                             (mkItemLocation 1 1 0 0 [mkExtent 0 4])
                             (mdatPayloadOffset idatItemBoxes))
                          [mkExtent 0 4]))).
Proof.
  eapply (getImageData_ignores_constructionMethod idatItemFile idatItemBoxes 1
            _ _ _ (mkItemLocation 1 1 0 0 [mkExtent 0 4])).
  - vm_compute. reflexivity.
  - vm_compute. reflexivity.
  - vm_compute. reflexivity.
  - vm_compute. reflexivity.
  - vm_compute. discriminate.
Defined.

(** *** The two alpha tests *)

Lemma prefix_toLowerCase p :
  forall s, String.prefix p s = true ->
            String.prefix (toLowerCase p) (toLowerCase s) = true.
Proof.
  induction p as [|a p IH]; intros s Hp.
  - by destruct s.
  - destruct s as [|b s]; [done|]. cbn [String.prefix toLowerCase] in *.
    destruct (ascii_dec a b) as [->|]; [|done].
    destruct (ascii_dec (lowerChar b) (lowerChar b)); [|done].
    by apply IH.
Qed.

Lemma includes_toLowerCase needle s :
  includes s needle = true ->
  includes (toLowerCase s) (toLowerCase needle) = true.
Proof.
  induction s as [|c s IH]; cbn [includes toLowerCase]; intros Hs.
  - apply orb_true_iff in Hs as [Hs|Hs]; [|done].
    apply prefix_toLowerCase in Hs. cbn [toLowerCase] in Hs.
    by rewrite Hs.
  - apply orb_true_iff in Hs as [Hs|Hs].
    + apply prefix_toLowerCase in Hs. cbn [toLowerCase] in Hs.
      by rewrite Hs.
    + rewrite (IH Hs). apply orb_true_r.
Qed.

(** Whatever [getAvifInfo] counts as alpha, [getAlphaItemId] does too;
    the converse fails on names such as [alpha]. *)
Lemma isAlphaInfo_isAlphaItem item :
  isAlphaInfo item = true -> isAlphaItem item = true.
Proof.
  unfold isAlphaInfo, isAlphaItem. intros H.
  apply orb_true_iff in H as [H|H]; [by rewrite H|].
  apply includes_toLowerCase in H. change (toLowerCase "Alpha") with "alpha"%string in H.
  rewrite H. apply orb_true_r.
Qed.

Example alpha_tests_disagree :
  isAlphaInfo (mkItemInfo 2 0 "av01" "alpha") = false /\
  isAlphaItem (mkItemInfo 2 0 "av01" "alpha") = true.
Proof. split; reflexivity. Qed.

End ItemResolver.


(** * Further properties *)

(** ** LEB128: errors, bounds and shape *)

Section Leb128Edges.

Lemma continuation_bit_set b : 128 <= u8 b -> JS.and (u8 b) 0x80 = 128.
Proof. destruct b; vm_compute; intros H; try reflexivity; by destruct H. Qed.

(** While continuation bytes last, the loop goes on: it ends in one of
    the two errors, according to what comes first, the end of the data
    or the ninth byte. *)
Lemma readLeb128_loop_continues fuel :
  forall data offset value bytes k,
    0 <= bytes -> 0 <= k ->
    (forall i, bytes <= i < bytes + k -> continues data (offset + i)) ->
    (Z.to_nat k < fuel)%nat ->
    (bytes + k = 8 /\ offset + 8 < len data ->
     readLeb128_loop fuel data offset value bytes = mthrow Leb128TooLarge) /\
    (bytes + k <= 8 /\ offset + bytes + k = len data ->
     readLeb128_loop fuel data offset value bytes = mthrow Leb128UnexpectedEnd).
Proof.
  induction fuel as [|fuel IH]; intros data offset value bytes k Hb Hk Hc Hf;
    [lia|].
  cbn [readLeb128_loop].
  destruct (Z.eq_dec k 0) as [->|Hk0].
  - split.
    + intros [H8 Hlen].
      destruct (Z.geb_spec (offset + bytes) (len data)); [lia|].
      destruct (Z.gtb_spec (bytes + 1) 8); [reflexivity|lia].
    + intros [_ Hlen].
      destruct (Z.geb_spec (offset + bytes) (len data)); [reflexivity|lia].
  - destruct (Hc bytes ltac:(lia)) as (b & Hb' & Hhigh).
    pose proof (idx_Some_bounds _ _ _ Hb') as Hin.
    destruct (Z.geb_spec (offset + bytes) (len data)); [lia|].
    rewrite Hb'. cbn [num]. rewrite continuation_bit_set by done.
    cbn [Z.eqb].
    specialize (IH data offset
                  (JS.or value (JS.shl (JS.and (u8 b) 127) (bytes * 7)))
                  (bytes + 1) (k - 1) ltac:(lia) ltac:(lia)).
    destruct IH as [IH1 IH2]; [intros i Hi; apply Hc; lia | lia |].
    split; intros [H8 Hlen];
      (destruct (Z.gtb_spec (bytes + 1) 8); [lia|]);
      [apply IH1 | apply IH2]; lia.
Qed.

(** X1.  Eight continuation bytes followed by one more byte are too
    many: [readLeb128] throws 'LEB128 value too large', whatever the ninth
    byte is. *)
Theorem readLeb128_nine_bytes data offset :
  (forall i, 0 <= i < 8 -> continues data (offset + i)) ->
  offset + 8 < len data ->
  readLeb128 data offset = mthrow Leb128TooLarge.
Proof.
  intros Hc Hlen. unfold readLeb128.
  apply (readLeb128_loop_continues 9 data offset 0 0 8); try lia.
  intros i Hi. apply Hc. lia.
Qed.

Lemma readLeb128_nine_bytes_witness :
  readLeb128 [x80; x80; x80; x80; x80; x80; x80; x80; x00] 0
  = mthrow Leb128TooLarge.
Proof.
  apply readLeb128_nine_bytes; [|vm_compute; reflexivity].
  intros i Hi.
  assert (i = 0 \/ i = 1 \/ i = 2 \/ i = 3 \/ i = 4 \/ i = 5 \/ i = 6 \/ i = 7)
    as Hcase by lia.
  exists x80.
  destruct Hcase as [->|[->|[->|[->|[->|[->|[->| ->]]]]]]];
    (split; [reflexivity | vm_compute; discriminate]).
Defined.

(** X2.  A size field that is cut off (at most eight bytes up to the end
    of the data, all with the continuation bit; none at all included)
    throws 'Unexpected end of data'. *)
Theorem readLeb128_truncated data offset k :
  0 <= k <= 8 -> offset + k = len data ->
  (forall i, 0 <= i < k -> continues data (offset + i)) ->
  readLeb128 data offset = mthrow Leb128UnexpectedEnd.
Proof.
  intros Hk Hlen Hc. unfold readLeb128.
  apply (readLeb128_loop_continues 9 data offset 0 0 k); try lia.
  intros i Hi. apply Hc. lia.
Qed.

Lemma readLeb128_truncated_witness :
  readLeb128 [x0a; x80] 1 = mthrow Leb128UnexpectedEnd.
Proof.
  apply (readLeb128_truncated [x0a; x80] 1 1); [lia | reflexivity |].
  intros i Hi. assert (i = 0) as -> by lia.
  exists x80. split; [reflexivity | vm_compute; discriminate].
Defined.

(** A value returned by the loop took at least one more byte, at most
    eight in all, and every byte it took lies inside the data. *)
Lemma readLeb128_loop_consumed fuel :
  forall data offset value bytes v n,
    0 <= bytes ->
    readLeb128_loop fuel data offset value bytes = mret (v, n) ->
    bytes < n <= 8 /\ offset + n <= len data.
Proof.
  induction fuel as [|fuel IH]; intros data offset value bytes v n Hb; [done|].
  cbn [readLeb128_loop].
  destruct (Z.geb_spec (offset + bytes) (len data)); [done|].
  destruct (Z.gtb_spec (bytes + 1) 8); [done|].
  destruct (_ =? _).
  - intros [= <- <-]. lia.
  - intros Hrun. apply IH in Hrun; lia.
Qed.

(** X3.  When [readLeb128] returns, it consumed between one and eight
    bytes, all of them inside the data. *)
Theorem readLeb128_consumed data offset v n :
  readLeb128 data offset = mret (v, n) ->
  1 <= n <= 8 /\ offset + n <= len data.
Proof.
  intros Hrun. apply readLeb128_loop_consumed in Hrun; lia.
Qed.

Lemma readLeb128_consumed_witness :
  1 <= 2 <= 8 /\ 0 + 2 <= len [xac; x02; x00].
Proof.
  apply (readLeb128_consumed [xac; x02; x00] 0 300 2).
  vm_compute. reflexivity.
Defined.

(** The number of groups is the least [n] with [v < 2^(7n)]. *)
Lemma leb_groups_length_iff m :
  forall v n,
    0 <= v < 2 ^ (7 * Z.of_nat m) -> (1 <= n <= m)%nat ->
    (length (leb_groups m v) <= n)%nat <-> v < 2 ^ (7 * Z.of_nat n).
Proof.
  induction m as [|m IH]; intros v n Hv Hn; [lia|].
  cbn [leb_groups].
  pose proof (Z.div_mod v 128 ltac:(lia)) as Hdm.
  pose proof (Z.mod_pos_bound v 128 ltac:(lia)) as Hm.
  assert (Hq : 0 <= v / 128) by (apply Z.div_pos; lia).
  replace (Z.of_nat (S m)) with (Z.of_nat m + 1) in Hv by lia.
  rewrite pow_7_succ in Hv by lia.
  assert (Hqm : v / 128 < 2 ^ (7 * Z.of_nat m))
    by (apply Z.div_lt_upper_bound; lia).
  replace (Z.of_nat n) with (Z.of_nat (n - 1) + 1) by lia.
  rewrite pow_7_succ by lia.
  assert (HP : 0 < 2 ^ (7 * Z.of_nat (n - 1))) by (apply Z.pow_pos_nonneg; lia).
  destruct (Z.eqb_spec (v / 128) 0) as [E|E].
  - cbn [length]. split; [intros _; nia | lia].
  - cbn [length].
    destruct m as [|m]; [cbn in Hqm; lia|].
    pose proof (leb_groups_nonempty (S m) (v / 128) ltac:(lia)).
    destruct (Nat.eq_dec n 1%nat) as [->|Hn1].
    + cbn [Nat.sub Z.of_nat Z.mul Z.pow]. split; [lia|].
      change (2 ^ 0) with 1. lia.
    + specialize (IH (v / 128) (n - 1)%nat ltac:(lia) ltac:(lia)).
      split.
      * intros Hlen. assert (v / 128 < 2 ^ (7 * Z.of_nat (n - 1)))
          by (apply IH; lia). lia.
      * intros Hlt. assert (Hlt' : v / 128 < 2 ^ (7 * Z.of_nat (n - 1)))
          by (apply Z.div_lt_upper_bound; lia).
        apply IH in Hlt'. lia.
Qed.

(** Every group but the last carries the continuation bit. *)
Lemma leb_groups_shape m :
  forall v i g,
    0 <= v < 2 ^ (7 * Z.of_nat m) -> leb_groups m v !! i = Some g ->
    0 <= g < 256 /\ (128 <= g <-> (i < length (leb_groups m v) - 1)%nat).
Proof.
  induction m as [|m IH]; intros v i g Hv; [done|].
  cbn [leb_groups].
  pose proof (Z.mod_pos_bound v 128 ltac:(lia)) as Hm.
  replace (Z.of_nat (S m)) with (Z.of_nat m + 1) in Hv by lia.
  rewrite pow_7_succ in Hv by lia.
  assert (Hqm : 0 <= v / 128 < 2 ^ (7 * Z.of_nat m))
    by (split; [apply Z.div_pos; lia | apply Z.div_lt_upper_bound; lia]).
  destruct (Z.eqb_spec (v / 128) 0) as [E|E].
  - destruct i as [|i]; [|done]. intros [= <-]. cbn. lia.
  - destruct m as [|m]; [cbn in Hqm; lia|].
    pose proof (leb_groups_nonempty (S m) (v / 128) ltac:(lia)).
    destruct i as [|i].
    + intros [= <-]. cbn [length]. lia.
    + cbn [lookup list_lookup length]. intros Hg.
      apply IH in Hg; [|done].
      destruct Hg as [Hr Hiff]. split; [done|]. rewrite Hiff. lia.
Qed.

(** X4.  Below 2^31 the encoding is minimal and well formed: the number
    of bytes is the least [n] with [v < 2^(7n)], every byte but the last
    has the continuation bit, and the last has not. *)
Theorem writeLeb128_minimal fuel v :
  (5 <= fuel)%nat -> 0 <= v < 2 ^ 31 ->
  exists bytes,
    writeLeb128 fuel v = Some bytes /\
    (forall n, 1 <= n <= 5 -> len bytes <= n <-> v < 2 ^ (7 * n)) /\
    (forall i b, idx bytes i = Some b -> (128 <= u8 b <-> i < len bytes - 1)).
Proof.
  intros Hf Hv. exists (map toUint8 (leb_groups 5 v)).
  split; [by apply writeLeb128_groups|]. rewrite len_map. split.
  - intros n Hn.
    pose proof (leb_groups_length_iff 5 v (Z.to_nat n) ltac:(simpl; lia) ltac:(lia)) as H.
    rewrite Z2Nat.id in H by lia. rewrite <- H. unfold len. lia.
  - intros i b Hb. pose proof (idx_Some_bounds _ _ _ Hb) as Hin.
    unfold idx in Hb. destruct (Z.ltb_spec i 0); [lia|].
    rewrite list_lookup_fmap in Hb.
    destruct (leb_groups 5 v !! Z.to_nat i) as [g|] eqn:Hg; [|done].
    cbn in Hb. injection Hb as <-.
    apply leb_groups_shape in Hg; [|simpl; lia]. destruct Hg as [Hr Hiff].
    rewrite u8_toUint8, Z.mod_small by lia. rewrite Hiff. unfold len. lia.
Qed.

Lemma writeLeb128_minimal_witness :
  exists bytes,
    writeLeb128 5 300 = Some bytes /\
    (forall n, 1 <= n <= 5 -> len bytes <= n <-> 300 < 2 ^ (7 * n)) /\
    (forall i b, idx bytes i = Some b -> (128 <= u8 b <-> i < len bytes - 1)).
Proof.
  apply (writeLeb128_minimal 5 300); [lia | vm_compute; split; [discriminate|reflexivity]].
Defined.

End Leb128Edges.

(** ** OBU streams *)

Section ObuStreams.

Lemma createOBU_header_bits_ext type :
  0 <= type < 16 ->
  let header := JS.or (JS.or (JS.shl type 3) 0x02) 0x04 in
  u8 (toUint8 header) = header /\
  JS.and header 0x80 = 0 /\
  JS.and (JS.sar header 3) 0x0F = type /\
  JS.and header 0x04 = 4 /\
  JS.and header 0x02 = 2.
Proof.
  intros Ht. rewrite <- (Z2Nat.id type) by lia.
  assert (Hn : (Z.to_nat type < 16)%nat) by lia.
  generalize dependent (Z.to_nat type). clear Ht. intros n Hn.
  do 16 (destruct n as [|n]; [vm_compute; done|]). lia.
Qed.

Lemma len_obuHeader type options :
  len (obuHeader type options) = 1 + (if hasExtension options then 1 else 0).
Proof. unfold obuHeader. by destruct (hasExtension options). Qed.

(** [createOBU] lays the OBU out as [framed], with or without the
    extension byte. *)
Lemma createOBU_framed fuel type payload options :
  (5 <= fuel)%nat -> len payload < 2 ^ 31 ->
  createOBU fuel type payload options = mret (framed type payload options).
Proof.
  intros Hf Hp. pose proof (len_nonneg payload) as Hp0.
  destruct options as [[|] tid sid].
  - unfold createOBU, framed, obuHeader. rewrite writeLeb128_groups by lia.
    cbn [hasExtension temporalId spatialId].
    set (sizeBytes := map toUint8 (leb_groups 5 (len payload))).
    pose proof (len_nonneg sizeBytes) as Hs0.
    unfold newUint8Array, lift.
    destruct (Z.ltb_spec (1 + 1 + len sizeBytes + len payload) 0); [lia|].
    cbn [rbind].
    replace (Z.to_nat (1 + 1 + len sizeBytes + len payload))
      with (2 + (length sizeBytes + length payload))%nat by (unfold len; lia).
    rewrite replicate_add, replicate_add. cbn [replicate app].
    unfold store at 1 2. cbn [Z.ltb Z.compare].
    set (h := toUint8 (JS.or (JS.or (JS.shl type 3) 2) 4)).
    set (e := toUint8 _).
    match goal with |- context [set ?b sizeBytes (1 + 1)] =>
      change (set b sizeBytes (1 + 1))
        with (set ([h; e] ++ replicate (length sizeBytes) x00
                   ++ replicate (length payload) x00)
                sizeBytes (len [h; e])) end.
    rewrite set_middle by (rewrite len_replicate; reflexivity).
    cbn [rbind].
    change (1 + 1 + len sizeBytes) with (len [h; e] + len sizeBytes).
    rewrite <- len_app. rewrite (app_assoc [h; e] sizeBytes).
    rewrite <- (app_nil_r (replicate (length payload) x00)).
    rewrite (set_middle ([h; e] ++ sizeBytes)
               (replicate (length payload) x00) [] payload)
      by (rewrite len_replicate; reflexivity).
    rewrite app_nil_r, <- app_assoc. reflexivity.
  - change (createOBU fuel type payload (mkOptions false tid sid))
      with (createOBU fuel type payload defaultOptions).
    by apply createOBU_layout.
Qed.

(** Parsing at the start of a laid-out OBU, whatever surrounds it. *)
Lemma parseOBU_layout pre post h ext payload type (b : bool) :
  JS.and (u8 h) 0x80 = 0 ->
  JS.and (JS.sar (u8 h) 3) 0x0F = type ->
  JS.and (u8 h) 0x04 = (if b then 4 else 0) ->
  JS.and (u8 h) 0x02 = 2 ->
  len ext = (if b then 1 else 0) ->
  len payload < 2 ^ 31 ->
  let sizeBytes := map toUint8 (leb_groups 5 (len payload)) in
  parseOBU (pre ++ (h :: ext ++ sizeBytes ++ payload) ++ post) (len pre)
  = mret (Some (mkOBU type (1 + len ext + len sizeBytes + len payload) payload)).
Proof.
  intros H80 Hty H04 H02 Hext Hp sizeBytes.
  pose proof (len_nonneg payload) as Hp0. pose proof (len_nonneg pre).
  pose proof (len_nonneg post). pose proof (len_nonneg sizeBytes).
  pose proof (len_nonneg ext).
  unfold parseOBU.
  set (data := pre ++ (h :: ext ++ sizeBytes ++ payload) ++ post).
  assert (Hlen : len data
                 = len pre + (1 + len ext + len sizeBytes + len payload) + len post).
  { unfold data. rewrite !len_app, len_cons, !len_app. lia. }
  destruct (Z.geb_spec (len pre) (len data)); [lia|].
  assert (Hidx : idx data (len pre) = Some h)
    by (unfold data; cbn [app]; by apply idx_after).
  rewrite Hidx. cbn [num]. rewrite H80, Hty, H04, H02. cbn [Z.eqb negb].
  assert (Hhs : (if negb ((if b then 4 else 0) =? 0) then 1 + 1 else 1)
                = 1 + len ext) by (rewrite Hext; by destruct b).
  rewrite Hhs.
  assert (Hshape1 : data = (pre ++ h :: ext) ++ sizeBytes ++ (payload ++ post)).
  { unfold data.
    repeat (rewrite <- app_assoc || rewrite <- app_comm_cons). reflexivity. }
  assert (Hoff1 : len pre + (1 + len ext) = len (pre ++ h :: ext))
    by (rewrite len_app, len_cons; lia).
  rewrite Hoff1. rewrite Hshape1 at 1. unfold sizeBytes at 1.
  rewrite readLeb128_groups by lia. cbn [mbind mret].
  rewrite <- (len_map toUint8 (leb_groups 5 (len payload))). fold sizeBytes.
  unfold mret. do 4 f_equal.
  assert (Hshape2 : data = (pre ++ h :: ext ++ sizeBytes) ++ payload ++ post).
  { unfold data.
    repeat (rewrite <- app_assoc || rewrite <- app_comm_cons). reflexivity. }
  rewrite Hshape2.
  replace (len pre + (1 + len ext + len sizeBytes))
    with (len (pre ++ h :: ext ++ sizeBytes))
    by (rewrite len_app, len_cons, len_app; lia).
  replace (len pre + (1 + len ext + len sizeBytes + len payload))
    with (len (pre ++ h :: ext ++ sizeBytes) + len payload)
    by (rewrite len_app, len_cons, len_app; lia).
  apply slice_middle.
Qed.

Lemma len_framed type payload options :
  len (framed type payload options)
  = 1 + (if hasExtension options then 1 else 0)
    + len (leb_groups 5 (len payload)) + len payload.
Proof.
  unfold framed. rewrite !len_app, len_obuHeader, len_map. lia.
Qed.

Lemma parseOBU_framed pre post type payload options :
  0 <= type < 16 -> len payload < 2 ^ 31 ->
  parseOBU (pre ++ framed type payload options ++ post) (len pre)
  = mret (Some (mkOBU type (len (framed type payload options)) payload)).
Proof.
  intros Ht Hp. rewrite len_framed. unfold framed, obuHeader.
  destruct (hasExtension options).
  - destruct (createOBU_header_bits_ext type Ht) as (Hu & H80 & Hty & H04 & H02).
    cbn zeta in *. set (header := JS.or (JS.or (JS.shl type 3) 2) 4) in *.
    set (e := toUint8 (JS.or _ _)).
    rewrite <- Hu in H80, Hty, H04, H02.
    pose proof (parseOBU_layout pre post (toUint8 header) [e] payload type true
                  H80 Hty H04 H02 eq_refl Hp) as Hparse.
    cbn zeta in Hparse. rewrite len_map in Hparse.
    change (len [e]) with 1 in Hparse.
    cbn [app] in Hparse |- *. exact Hparse.
  - destruct (createOBU_header_bits type Ht) as (Hu & H80 & Hty & H04 & H02).
    cbn zeta in *. set (header := JS.or (JS.shl type 3) 2) in *.
    rewrite <- Hu in H80, Hty, H04, H02.
    pose proof (parseOBU_layout pre post (toUint8 header) [] payload type false
                  H80 Hty H04 H02 eq_refl Hp) as Hparse.
    cbn zeta in Hparse. rewrite len_map in Hparse.
    change (len (@nil byte)) with 0 in Hparse.
    cbn [app] in Hparse |- *. exact Hparse.
Qed.

(** X5.  Round trip of the framing with any options, inside any
    surrounding bytes: for a 4-bit type and a payload shorter than 2^31
    bytes, [createOBU] returns a buffer, and [parseOBU] at the start of
    that buffer returns the type, the payload and the length of the buffer
    as size; an extension byte is skipped. *)
Theorem createOBU_parseOBU_options fuel type payload options pre post :
  (5 <= fuel)%nat -> 0 <= type < 16 -> len payload < 2 ^ 31 ->
  exists buffer,
    createOBU fuel type payload options = mret buffer /\
    parseOBU (pre ++ buffer ++ post) (len pre)
    = mret (Some (mkOBU type (len buffer) payload)).
Proof.
  intros Hf Ht Hp. exists (framed type payload options).
  split; [by apply createOBU_framed | by apply parseOBU_framed].
Qed.

Lemma createOBU_parseOBU_options_witness :
  exists buffer,
    createOBU 5 OBUType.FRAME [x2a] (mkOptions true 5 2) = mret buffer /\
    parseOBU ([xff] ++ buffer ++ [xff]) (len [xff])
    = mret (Some (mkOBU OBUType.FRAME (len buffer) [x2a])).
Proof.
  apply (createOBU_parseOBU_options 5 OBUType.FRAME [x2a] (mkOptions true 5 2)
           [xff] [xff]); [lia | vm_compute; split; [discriminate|reflexivity]
                          | vm_compute; reflexivity].
Defined.

(** The loop of [parseOBUs] over a stream of laid-out OBUs. *)
Lemma parseOBUs_loop_stream items :
  forall fuel pre acc,
    (length items < fuel)%nat ->
    Forall (fun item => 0 <= item.1 < 16 /\ len item.2 < 2 ^ 31) items ->
    parseOBUs_loop fuel (pre ++ framedStream items) (len pre) acc
    = mret (acc ++ map parsedItem items).
Proof.
  induction items as [|[type payload] items IH]; intros fuel pre acc Hf Hall.
  - destruct fuel as [|fuel]; [cbn in Hf; lia|].
    cbn [parseOBUs_loop framedStream map concat]. rewrite !app_nil_r.
    destruct (Z.ltb_spec (len pre) (len pre)); [lia|]. reflexivity.
  - destruct fuel as [|fuel]; [cbn in Hf; lia|].
    apply Forall_cons in Hall as [[Ht Hp] Hall]. cbn [fst snd] in Ht, Hp.
    cbn [parseOBUs_loop]. unfold framedStream. cbn [map concat fst snd].
    fold (framedStream items).
    set (one := framed type payload defaultOptions).
    assert (Hone : 1 <= len one).
    { unfold one. rewrite len_framed. pose proof (len_nonneg payload).
      pose proof (len_nonneg (leb_groups 5 (len payload))).
      cbn [hasExtension defaultOptions]. lia. }
    pose proof (len_nonneg (framedStream items)).
    rewrite !len_app.
    destruct (Z.ltb_spec (len pre) (len pre + (len one + len (framedStream items))));
      [|lia].
    unfold one at 1. rewrite parseOBU_framed by done.
    cbn [mbind mret obu_size]. fold one. rewrite <- len_app, app_assoc.
    rewrite IH by (cbn in Hf; first [done | lia]).
    rewrite <- app_assoc. reflexivity.
Qed.

(** X6.  Round trip of a whole stream: the concatenation of the buffers
    that [createOBU] returns for a list of (type, payload) pairs parses,
    with [parseOBUs], into exactly these OBUs in order. *)
Theorem parseOBUs_framedStream fuel items :
  (5 <= fuel)%nat -> (length items < fuel)%nat ->
  Forall (fun item => 0 <= item.1 < 16 /\ len item.2 < 2 ^ 31) items ->
  Forall (fun item => createOBU fuel item.1 item.2 defaultOptions
                      = mret (framed item.1 item.2 defaultOptions)) items /\
  parseOBUs fuel (framedStream items) = mret (map parsedItem items).
Proof.
  intros Hf Hlen Hall. split.
  - eapply Forall_impl; [exact Hall|]. intros [type payload] [Ht Hp].
    by apply createOBU_framed.
  - unfold parseOBUs.
    exact (parseOBUs_loop_stream items fuel [] [] Hlen Hall).
Qed.

Lemma parseOBUs_framedStream_witness :
  Forall (fun item => createOBU 5 item.1 item.2 defaultOptions
                      = mret (framed item.1 item.2 defaultOptions))
         [(1, [x18; x00; x20]); (6, [x00])] /\
  parseOBUs 5 (framedStream [(1, [x18; x00; x20]); (6, [x00])])
  = mret (map parsedItem [(1, [x18; x00; x20]); (6, [x00])]).
Proof.
  apply (parseOBUs_framedStream 5 [(1, [x18; x00; x20]); (6, [x00])]).
  - lia.
  - cbn. lia.
  - repeat constructor; vm_compute; congruence.
Defined.

(** *** Locality of the size field, and sizes that do not advance *)

Lemma idx_middle {A} (pre mid post : list A) (i : Z) :
  0 <= i < len mid ->
  idx (pre ++ mid ++ post) (len pre + i) = idx mid i.
Proof.
  intros Hi. unfold idx, len in *.
  destruct (Z.ltb_spec (Z.of_nat (length pre) + i) 0); [lia|].
  destruct (Z.ltb_spec i 0); [lia|].
  replace (Z.to_nat (Z.of_nat (length pre) + i))
    with (length pre + Z.to_nat i)%nat by lia.
  rewrite lookup_app_r by lia.
  replace (length pre + Z.to_nat i - length pre)%nat with (Z.to_nat i) by lia.
  apply lookup_app_l. lia.
Qed.

Lemma readLeb128_loop_local fuel :
  forall pre mid post value bytes v n,
    0 <= bytes ->
    readLeb128_loop fuel mid 0 value bytes = mret (v, n) ->
    readLeb128_loop fuel (pre ++ mid ++ post) (len pre) value bytes = mret (v, n).
Proof.
  induction fuel as [|fuel IH]; intros pre mid post value bytes v n Hb; [done|].
  cbn [readLeb128_loop]. rewrite !len_app.
  pose proof (len_nonneg pre). pose proof (len_nonneg post).
  destruct (Z.geb_spec (0 + bytes) (len mid)); [done|].
  destruct (Z.geb_spec (len pre + bytes) (len pre + (len mid + len post)));
    [lia|].
  rewrite idx_middle by lia. rewrite Z.add_0_l.
  destruct (_ >? _); [done|].
  destruct (_ =? _); [done|].
  apply IH. lia.
Qed.

(** X7.  A successful read of a size field depends only on the bytes it
    covers: the same bytes inside a longer buffer give the same value and
    the same byte count. *)
Theorem readLeb128_local pre mid post v n :
  readLeb128 mid 0 = mret (v, n) ->
  readLeb128 (pre ++ mid ++ post) (len pre) = mret (v, n).
Proof. apply readLeb128_loop_local. lia. Qed.

Lemma readLeb128_local_witness :
  readLeb128 ([x0a] ++ [xfa; xff; xff; xff; x0f] ++ [x00; x00]) (len [x0a])
  = mret (-6, 5).
Proof.
  apply (readLeb128_local [x0a] [xfa; xff; xff; xff; x0f] [x00; x00]).
  vm_compute. reflexivity.
Defined.

Lemma slice_backwards {A} (data : list A) start fin :
  0 <= fin <= start -> slice data start fin = [].
Proof.
  intros H. unfold slice, rel. pose proof (len_nonneg data).
  destruct (Z.ltb_spec start 0); [lia|].
  destruct (Z.ltb_spec fin 0); [lia|].
  replace (Z.max (Z.min fin (len data) - Z.min start (len data)) 0) with 0 by lia.
  apply take_0.
Qed.

Lemma parseOBU_negativeSize rest :
  parseOBU (negativeSizeOBU ++ rest) 0 = mret (Some (mkOBU 1 0 [])).
Proof.
  unfold parseOBU. rewrite len_app. pose proof (len_nonneg rest).
  change (len negativeSizeOBU) with 6.
  destruct (Z.geb_spec 0 (6 + len rest)); [lia|].
  change (idx (negativeSizeOBU ++ rest) 0) with (Some x0a).
  change (JS.and (num (Some x0a)) 128) with 0.
  change (JS.and (JS.sar (num (Some x0a)) 3) 15) with 1.
  change (JS.and (num (Some x0a)) 4) with 0.
  change (JS.and (num (Some x0a)) 2) with 2.
  cbn [Z.eqb negb].
  change (0 + 1) with (len [x0a]).
  change (negativeSizeOBU ++ rest)
    with ([x0a] ++ [xfa; xff; xff; xff; x0f] ++ rest).
  rewrite (readLeb128_local [x0a] [xfa; xff; xff; xff; x0f] rest (-6) 5)
    by (vm_compute; reflexivity).
  cbn [mbind mret]. change (1 + 5 + -6) with 0. change (0 + (1 + 5)) with 6.
  change (0 + 0) with 0. rewrite slice_backwards by lia. reflexivity.
Qed.

(** X8.  [parseOBUs] does not end on every input: when a buffer starts
    with the six bytes 0A FA FF FF FF 0F, the size field decodes to -6,
    the OBU gets size 0, the cursor stays at 0 and the loop goes on
    pushing the same OBU; [decodeAV1] hangs with it. *)
Theorem parseOBUs_negative_size_never_ends fuel rest :
  parseOBUs fuel (negativeSizeOBU ++ rest) = None /\
  decodeAV1 fuel (negativeSizeOBU ++ rest) = None.
Proof.
  assert (Hloop : forall acc,
             parseOBUs_loop fuel (negativeSizeOBU ++ rest) 0 acc = None).
  { induction fuel as [|fuel IH]; intros acc; [reflexivity|].
    cbn [parseOBUs_loop]. rewrite len_app. pose proof (len_nonneg rest).
    change (len negativeSizeOBU) with 6.
    destruct (Z.ltb_spec 0 (6 + len rest)); [|lia].
    rewrite parseOBU_negativeSize. cbn [mbind mret obu_size].
    change (0 + 0) with 0. apply IH. }
  split.
  - apply Hloop.
  - unfold decodeAV1, parseOBUs. by rewrite Hloop.
Qed.

Lemma size_bit_byte b :
  JS.and (u8 b) 0x02 = (if Z.testbit (u8 b) 1 then 2 else 0) /\
  JS.and (u8 b) 0x04 = (if Z.testbit (u8 b) 2 then 4 else 0).
Proof. destruct b; split; reflexivity. Qed.

(** X9.  An OBU without size field takes everything up to the end of the
    data: when the first byte has the forbidden bit and the has-size bit
    clear, [parseOBUs] returns exactly one OBU, of the size of the whole
    buffer, whose payload is the buffer without its one or two header
    bytes. *)
Theorem parseOBUs_without_size_field fuel h rest :
  Z.testbit (u8 h) 7 = false -> Z.testbit (u8 h) 1 = false ->
  let headerSize := if Z.testbit (u8 h) 2 then 2 else 1 in
  parseOBUs (S (S fuel)) (h :: rest)
  = mret [mkOBU (JS.and (JS.sar (u8 h) 3) 0x0F) (len (h :: rest))
            (drop (Z.to_nat headerSize) (h :: rest))].
Proof.
  intros H7 H1 headerSize. unfold parseOBUs.
  set (data := h :: rest).
  assert (Hlen : 1 <= len data)
    by (unfold data; rewrite len_cons; pose proof (len_nonneg rest); lia).
  cbn [parseOBUs_loop].
  destruct (Z.ltb_spec 0 (len data)); [|lia].
  unfold parseOBU.
  destruct (Z.geb_spec 0 (len data)); [lia|].
  change (idx data 0) with (Some h). cbn [num].
  rewrite forbidden_bit_byte, H7.
  destruct (size_bit_byte h) as [-> ->]. rewrite H1. cbn [Z.eqb negb].
  assert (Hhs : (if negb ((if Z.testbit (u8 h) 2 then 4 else 0) =? 0)
                 then 1 + 1 else 1) = headerSize)
    by (unfold headerSize; by destruct (Z.testbit (u8 h) 2)).
  rewrite Hhs. cbn [mbind mret obu_size].
  assert (Hh : 1 <= headerSize <= 2)
    by (unfold headerSize; destruct (Z.testbit (u8 h) 2); lia).
  replace (headerSize + (len data - 0 - headerSize)) with (len data) by lia.
  rewrite !Z.add_0_l. rewrite slice_to_end by lia.
  destruct (Z.ltb_spec (len data) (len data)); [lia|]. reflexivity.
Qed.

Lemma parseOBUs_without_size_field_witness :
  parseOBUs 2 [x30; x01; x02; x03]
  = mret [mkOBU 6 4 [x01; x02; x03]].
Proof.
  apply (parseOBUs_without_size_field 0 x30 [x01; x02; x03]); reflexivity.
Defined.

End ObuStreams.

(** ** The bit reader, the variable-length code and the header fields *)

Section BitReaderFacts.

(** X10.  [readBits(count)] for [count] up to 31, from a reader before
    bit [k]: it returns the unsigned number written MSB-first in the bits
    [k .. k + count - 1], with 0 for every bit past the end of the data,
    and leaves the reader before bit [k + count]. *)
Theorem readBits_value r data k count :
  before r data k -> 0 <= count <= 31 ->
  exists r',
    readBits count r = (field data k count, r') /\
    before r' data (k + count) /\
    0 <= field data k count < 2 ^ count.
Proof. apply readBits_before. Qed.

Lemma readBits_value_witness :
  exists r',
    readBits 12 (mkReader [xab; xcd] 0 0) = (field [xab; xcd] 0 12, r') /\
    before r' [xab; xcd] (0 + 12) /\
    0 <= field [xab; xcd] 0 12 < 2 ^ 12.
Proof.
  apply (readBits_value (mkReader [xab; xcd] 0 0) [xab; xcd] 0 12).
  - apply before_start.
  - lia.
Defined.

(** Leading zeros: [z] zero bits and then a one bit. *)
Lemma readUvlc_loop_zeros z :
  forall m lz r data k,
    before r data k ->
    (forall i, 0 <= i < Z.of_nat z -> bitAt data (k + i) = 0) ->
    bitAt data (k + Z.of_nat z) = 1 ->
    (z < m)%nat -> 0 <= lz -> lz + Z.of_nat z < 32 ->
    exists r',
      readUvlc_loop m lz r = (inl (lz + Z.of_nat z), r') /\
      before r' data (k + Z.of_nat z + 1).
Proof.
  induction z as [|z IH]; intros m lz r data k Hr Hzeros Hone Hm Hlz Hlt;
    (destruct m as [|m]; [lia|]); cbn [readUvlc_loop]; unfold rseq;
    destruct (readBit_before r data k Hr) as (r1 & -> & Hr1).
  - rewrite Z.add_0_r in Hone. rewrite Hone. cbn [Z.eqb].
    exists r1. rewrite !Z.add_0_r. done.
  - assert (bitAt data k = 0) as ->
      by (rewrite <- (Z.add_0_r k); apply Hzeros; lia).
    cbn [Z.eqb].
    destruct (Z.geb_spec (lz + 1) 32); [lia|].
    destruct (IH m (lz + 1) r1 data (k + 1) Hr1) as (r' & Hrun & Hr');
      try lia.
    + intros i Hi. replace (k + 1 + i) with (k + (i + 1)) by lia.
      apply Hzeros. lia.
    + replace (k + 1 + Z.of_nat z) with (k + Z.of_nat (S z)) by lia. exact Hone.
    + exists r'. rewrite Hrun.
      replace (lz + 1 + Z.of_nat z) with (lz + Z.of_nat (S z)) by lia.
      replace (k + 1 + Z.of_nat z + 1) with (k + Z.of_nat (S z) + 1) in Hr' by lia.
      done.
Qed.

(** Nothing but zeros: the loop gives up at the 32nd. *)
Lemma readUvlc_loop_saturates z :
  forall m lz r data k,
    before r data k ->
    (forall i, 0 <= i < Z.of_nat z -> bitAt data (k + i) = 0) ->
    (z <= m)%nat -> (1 <= z)%nat -> 0 <= lz -> lz + Z.of_nat z = 32 ->
    exists r',
      readUvlc_loop m lz r = (inr 0xFFFFFFFF, r') /\
      before r' data (k + Z.of_nat z).
Proof.
  induction z as [|z IH]; intros m lz r data k Hr Hzeros Hm Hz Hlz Hsum; [lia|].
  destruct m as [|m]; [lia|]. cbn [readUvlc_loop]. unfold rseq.
  destruct (readBit_before r data k Hr) as (r1 & -> & Hr1).
  assert (bitAt data k = 0) as ->
    by (rewrite <- (Z.add_0_r k); apply Hzeros; lia).
  cbn [Z.eqb].
  destruct (Z.geb_spec (lz + 1) 32) as [Hge|Hlt].
  - exists r1. assert (z = 0%nat) as -> by lia. done.
  - destruct (IH m (lz + 1) r1 data (k + 1) Hr1) as (r' & Hrun & Hr');
      try lia.
    + intros i Hi. replace (k + 1 + i) with (k + (i + 1)) by lia.
      apply Hzeros. lia.
    + exists r'. rewrite Hrun.
      replace (k + 1 + Z.of_nat z) with (k + Z.of_nat (S z)) in Hr' by lia.
      done.
Qed.

(** X11.  [readUvlc] on [n] zero bits (at most 30), a one bit and [n]
    more bits returns the value of those [n] bits plus [2^n - 1] and
    leaves the reader [2n + 1] bits further. *)
Theorem readUvlc_value r data k n :
  before r data k -> 0 <= n <= 30 ->
  (forall i, 0 <= i < n -> bitAt data (k + i) = 0) ->
  bitAt data (k + n) = 1 ->
  exists r',
    readUvlc r = (field data (k + n + 1) n + 2 ^ n - 1, r') /\
    before r' data (k + 2 * n + 1).
Proof.
  intros Hr Hn Hzeros Hone. unfold readUvlc, rseq.
  destruct (readUvlc_loop_zeros (Z.to_nat n) 32 0 r data k Hr) as (r1 & -> & Hr1);
    rewrite ?Z2Nat.id by lia; try done; try lia.
  rewrite Z2Nat.id in Hr1 by lia. rewrite Z.add_0_l.
  destruct (Z.geb_spec n 32); [lia|].
  destruct (readBits_before r1 data (k + n + 1) n Hr1) as (r' & -> & Hr' & _);
    [lia|].
  exists r'. unfold rret. rewrite js_shl_small.
  - rewrite Z.mul_1_l. split; [reflexivity|].
    replace (k + 2 * n + 1) with (k + n + 1 + n) by lia. exact Hr'.
  - lia.
  - lia.
  - rewrite Z.mul_1_l. apply Z.pow_lt_mono_r; lia.
Qed.

Lemma readUvlc_value_witness :
  exists r',
    readUvlc (mkReader [x2c] 0 0) = (field [x2c] (0 + 2 + 1) 2 + 2 ^ 2 - 1, r') /\
    before r' [x2c] (0 + 2 * 2 + 1).
Proof.
  apply (readUvlc_value (mkReader [x2c] 0 0) [x2c] 0 2).
  - apply before_start.
  - lia.
  - intros i Hi. assert (i = 0 \/ i = 1) as [-> | ->] by lia; reflexivity.
  - reflexivity.
Defined.

(** X12.  [readUvlc] on 32 zero bits, and so on a reader that has run
    out of data, returns the sentinel 0xFFFFFFFF after 32 reads. *)
Theorem readUvlc_saturates r data k :
  before r data k ->
  (forall i, 0 <= i < 32 -> bitAt data (k + i) = 0) ->
  exists r',
    readUvlc r = (4294967295, r') /\ before r' data (k + 32).
Proof.
  intros Hr Hzeros. unfold readUvlc, rseq.
  destruct (readUvlc_loop_saturates 32 32 0 r data k Hr) as (r' & -> & Hr');
    try done; try lia.
  exists r'. done.
Qed.

Lemma readUvlc_saturates_witness :
  exists r',
    readUvlc (mkReader [] 0 0) = (4294967295, r') /\ before r' [] (0 + 32).
Proof.
  apply (readUvlc_saturates (mkReader [] 0 0) [] 0).
  - apply before_start.
  - intros i Hi. unfold bitAt, idx.
    destruct ((0 + i) / 8 <? 0); [reflexivity|]. by rewrite lookup_nil.
Defined.

(** *** What every sequence header comes out as *)

Lemma yields_ret {A} data (a : A) (Q : A -> Prop) : Q a -> yields data (rret a) Q.
Proof. intros Ha r Hr. done. Qed.

Lemma yields_seq {A B} data (c : Rd A) (k : A -> Rd B) (P : A -> Prop)
    (Q : B -> Prop) :
  yields data c P -> (forall a, P a -> yields data (k a) Q) ->
  yields data (rseq c k) Q.
Proof.
  intros Hc Hk r Hr. unfold rseq.
  destruct (Hc r Hr) as [Ha Hr']. destruct (c r) as [a r']. by apply Hk.
Qed.

Lemma yields_skip {A B} data (c : Rd A) (k : A -> Rd B) (Q : B -> Prop) :
  yields data c (fun _ => True) -> (forall a, yields data (k a) Q) ->
  yields data (rseq c k) Q.
Proof. intros Hc Hk. eapply yields_seq; [exact Hc|]. intros a _. apply Hk. Qed.

Lemma yields_readBit data : yields data readBit (fun b => 0 <= b <= 1).
Proof.
  intros r (k & Hk & Hr).
  destruct (readBit_before r data k Hr) as (r' & -> & Hr'). cbn.
  split; [apply bitAt_range|]. exists (k + 1). split; [lia|done].
Qed.

Lemma yields_readBits data count :
  0 <= count <= 31 -> yields data (readBits count) (fun v => 0 <= v < 2 ^ count).
Proof.
  intros Hc r (k & Hk & Hr).
  destruct (readBits_before r data k count Hr Hc) as (r' & -> & Hr' & Hrange).
  cbn. split; [done|]. exists (k + count). split; [lia|done].
Qed.

(** A read of any width leaves the reader in the data. *)
Lemma readBits_loop_positioned data n :
  forall value r, positioned data r -> positioned data (readBits_loop n value r).2.
Proof.
  induction n as [|n IH]; intros value r Hr; [done|].
  cbn [readBits_loop]. unfold rseq.
  destruct (yields_readBit data r Hr) as [_ Hr'].
  destruct (readBit r) as [b r']. by apply IH.
Qed.

Lemma yields_readBits_any data count :
  yields data (readBits count) (fun _ => True).
Proof. intros r Hr. split; [done|]. by apply readBits_loop_positioned. Qed.

Lemma yields_any {A} data (c : Rd A) (Q : A -> Prop) :
  yields data c Q -> yields data c (fun _ => True).
Proof. intros Hc r Hr. split; [done|]. by apply Hc. Qed.

Lemma readUvlc_loop_positioned data m :
  forall lz r, positioned data r -> positioned data (readUvlc_loop m lz r).2.
Proof.
  induction m as [|m IH]; intros lz r Hr; [done|].
  cbn [readUvlc_loop]. unfold rseq.
  destruct (yields_readBit data r Hr) as [_ Hr'].
  destruct (readBit r) as [b r'].
  destruct (b =? 0); [|done]. destruct (_ >=? _); [done|]. by apply IH.
Qed.

Lemma yields_readUvlc data : yields data readUvlc (fun _ => True).
Proof.
  intros r Hr. split; [done|]. unfold readUvlc, rseq.
  pose proof (readUvlc_loop_positioned data 32 0 r Hr) as Hr'.
  destruct (readUvlc_loop 32 0 r) as [[lz|v] r']; [|done].
  destruct (_ >=? _); [done|].
  pose proof (readBits_loop_positioned data (Z.to_nat lz) 0 r' Hr') as Hr''.
  unfold readBits. by destruct (readBits_loop _ 0 r').
Qed.

(** The reads whose values are thrown away. *)
Ltac skips :=
  repeat first
    [ apply yields_ret; exact I
    | apply (yields_any _ _ _ (yields_readBit _))
    | apply yields_readBits_any
    | apply yields_readUvlc
    | apply yields_skip; [|intros ?]
    | match goal with
      | |- yields _ (if ?c then _ else _) _ => destruct c
      end ].

Lemma yields_operatingPoints data n dm idd :
  yields data (operatingPoints n dm idd) (fun _ => True).
Proof.
  induction n as [|n IH]; cbn [operatingPoints]; unfold rskip; skips.
  exact IH.
Qed.

(** Both branches end in the same four reads. *)
Lemma yields_dimension_fields data :
  yields data
    (rd! frameWidthBitsMinus1 := readBits 4 in
     rd! frameHeightBitsMinus1 := readBits 4 in
     rd! w := readBits (frameWidthBitsMinus1 + 1) in
     rd! h := readBits (frameHeightBitsMinus1 + 1) in
     rret (w + 1, h + 1))
    (fun d => 1 <= d.1 <= 65536 /\ 1 <= d.2 <= 65536).
Proof.
  eapply yields_seq; [apply yields_readBits; lia|]. intros fw Hfw.
  eapply yields_seq; [apply yields_readBits; lia|]. intros fh Hfh.
  cbn beta in *. change (2 ^ 4) with 16 in *.
  eapply yields_seq; [apply yields_readBits; lia|]. intros w Hw.
  eapply yields_seq; [apply yields_readBits; lia|]. intros h Hh.
  cbn beta in *. apply yields_ret. cbn.
  assert (2 ^ (fw + 1) <= 2 ^ 16) by (apply Z.pow_le_mono_r; lia).
  assert (2 ^ (fh + 1) <= 2 ^ 16) by (apply Z.pow_le_mono_r; lia).
  change (2 ^ 16) with 65536 in *. lia.
Qed.

Lemma yields_reducedDimensions data :
  yields data reducedDimensions
    (fun d => 1 <= d.1 <= 65536 /\ 1 <= d.2 <= 65536).
Proof.
  unfold reducedDimensions.
  apply yields_skip; [apply yields_readBits_any|]. intros _.
  apply yields_dimension_fields.
Qed.

Lemma yields_fullDimensions data :
  yields data fullDimensions
    (fun d => 1 <= d.1 <= 65536 /\ 1 <= d.2 <= 65536).
Proof.
  unfold fullDimensions, rskip.
  eapply yields_seq; [apply yields_readBit|]. intros timing _.
  apply yields_skip; [skips|]. intros _.
  eapply yields_seq; [apply yields_readBit|]. intros dm _.
  apply yields_skip; [skips|]. intros _.
  eapply yields_seq; [apply yields_readBit|]. intros idd _.
  eapply yields_seq; [apply yields_readBits_any|]. intros cnt _.
  apply yields_skip; [apply yields_operatingPoints|]. intros _.
  apply yields_dimension_fields.
Qed.

Lemma yields_parseSequenceHeader data :
  yields data parseSequenceHeader_rd
    (fun header =>
       1 <= maxFrameWidth header <= 65536 /\
       1 <= maxFrameHeight header <= 65536 /\
       0 <= seqProfile header < 8 /\
       bitDepth header = (if seqProfile header >=? 2 then 10 else 8) /\
       monochrome header = false /\ subX header = 1 /\ subY header = 1).
Proof.
  unfold parseSequenceHeader_rd.
  eapply yields_seq; [apply yields_readBits; lia|]. intros profile Hprofile.
  eapply yields_seq; [apply yields_readBit|]. intros still _.
  eapply yields_seq; [apply yields_readBit|]. intros reduced _.
  eapply yields_seq.
  { instantiate (1 := fun d => 1 <= d.1 <= 65536 /\ 1 <= d.2 <= 65536).
    destruct (reduced =? 1);
      [apply yields_reducedDimensions | apply yields_fullDimensions]. }
  intros [w h] [Hw Hh]. cbn [fst snd] in Hw, Hh.
  apply yields_skip.
  { destruct (negb _); [|apply yields_ret; exact I].
    unfold remainingColorInfo, rskip. skips. }
  intros _. apply yields_ret. cbn. cbn beta in Hprofile.
  rewrite andb_false_r. change (2 ^ 3) with 8 in Hprofile. done.
Qed.

(** X13.  Whatever the payload, the sequence header that
    [parseSequenceHeader] returns has a width and a height between 1 and
    65536 and a profile below 8; its bit depth is 10 for a profile of 2 or
    more and 8 otherwise, never 12, and it is never monochrome. *)
Theorem parseSequenceHeader_ranges data :
  let header := parseSequenceHeader data in
  1 <= maxFrameWidth header <= 65536 /\
  1 <= maxFrameHeight header <= 65536 /\
  0 <= seqProfile header < 8 /\
  bitDepth header = (if seqProfile header >=? 2 then 10 else 8) /\
  monochrome header = false /\ subX header = 1 /\ subY header = 1.
Proof.
  apply (yields_parseSequenceHeader data (mkReader data 0 0)).
  exists 0. split; [lia | apply before_start].
Qed.

End BitReaderFacts.

(** ** Box trees *)

Section BoxTrees.

Lemma head_app {A} (l k : list A) :
  head (l ++ k) = match head l with Some x => Some x | None => head k end.
Proof. by destruct l. Qed.

Lemma findBox_in_head type :
  forall box, findBox_in type box = head (findAllBoxes_in type box).
Proof.
  fix IH 1. intros [t s o d children].
  cbn [findBox_in findAllBoxes_in].
  destruct (String.eqb t type); [reflexivity|]. cbn [app].
  destruct children as [cs|]; [|reflexivity].
  revert cs. fix IHl 1. intros [|b rest]; [reflexivity|].
  rewrite head_app, <- (IH b).
  destruct (findBox_in type b); [reflexivity|]. apply IHl.
Qed.

Lemma findAllBoxes_in_types type :
  forall box, Forall (fun b => box_type b = type) (findAllBoxes_in type box).
Proof.
  fix IH 1. intros [t s o d children].
  cbn [findAllBoxes_in]. apply Forall_app. split.
  - destruct (String.eqb_spec t type); [|constructor].
    apply Forall_singleton. done.
  - destruct children as [cs|]; [|constructor].
    revert cs. fix IHl 1. intros [|b rest]; [constructor|].
    apply Forall_app. split; [apply IH | apply IHl].
Qed.

(** X14.  [findBox] is the first result of [findAllBoxes] (and absent
    exactly when there is none), and every box that [findAllBoxes] returns
    has the type asked for. *)
Theorem findBox_first_of_findAllBoxes boxes type :
  findBox boxes type = head (findAllBoxes boxes type) /\
  Forall (fun b => box_type b = type) (findAllBoxes boxes type).
Proof.
  split.
  - induction boxes as [|b rest IH]; [reflexivity|].
    cbn [findBox findAllBoxes]. rewrite head_app, <- findBox_in_head.
    destruct (findBox_in type b); [reflexivity | exact IH].
  - induction boxes as [|b rest IH]; [constructor|].
    cbn [findAllBoxes]. apply Forall_app. split; [|exact IH].
    apply findAllBoxes_in_types.
Qed.

Lemma allBoxes_app boxes boxes' :
  allBoxes (boxes ++ boxes') = allBoxes boxes ++ allBoxes boxes'.
Proof. unfold allBoxes. by rewrite map_app, concat_app. Qed.

Lemma boxesUnder_children t s o d cs :
  boxesUnder (Box t s o d (Some cs)) = Box t s o d (Some cs) :: allBoxes cs.
Proof.
  cbn [boxesUnder]. f_equal. unfold allBoxes.
  induction cs as [|b rest IH]; [reflexivity|]. cbn [map concat]. by rewrite IH.
Qed.

Lemma length_fromCharCode4 data off : String.length (fromCharCode4 data off) = 4%nat.
Proof. reflexivity. Qed.

Lemma parseISOBMFF_loop_wellBuilt fuel :
  forall buffer offset acc boxes,
    0 <= offset ->
    Forall wellBuilt (allBoxes acc) ->
    parseISOBMFF_loop fuel buffer offset acc = mret boxes ->
    Forall wellBuilt (allBoxes boxes).
Proof.
  induction fuel as [|fuel IH]; intros buffer offset acc boxes Hoff Hacc; [done|].
  cbn [parseISOBMFF_loop].
  destruct (Z.ltb_spec offset (len buffer - 8)) as [Hlt|Hge];
    [|by intros [= <-]].
  destruct (getUint32 buffer offset) as [size|] eqn:Hsize; [|done].
  cbn [lift mbind].
  destruct (boxExtent buffer offset size) as [[boxSize headerSize]|] eqn:Hext;
    [|done].
  cbn [mbind].
  destruct (boxExtent_nonneg _ _ _ _ _ Hlt Hsize Hext) as (Hpos & Hhdr & _).
  set (type := fromCharCode4 buffer (offset + 4)).
  set (data := slice buffer (offset + headerSize) (offset + boxSize)).
  assert (Hdata : len data <= Z.max (boxSize - 8) 0).
  { unfold data, slice, rel, len. rewrite length_take, length_drop.
    destruct (Z.ltb_spec (offset + headerSize) 0); [lia|].
    destruct (Z.ltb_spec (offset + boxSize) 0); lia. }
  destruct (isContainerBox type) eqn:Hcont.
  - destruct (parseISOBMFF_loop fuel data 0 []) as [[cs|e]|] eqn:Hcs;
      cbn [mbind mret]; try done.
    apply IH; [lia|].
    rewrite allBoxes_app. apply Forall_app. split; [done|].
    unfold allBoxes at 1. cbn [map concat]. rewrite app_nil_r.
    rewrite boxesUnder_children. constructor.
    + unfold wellBuilt.
      cbn [box_type box_children box_offset box_size box_data].
      rewrite Hcont. split; [apply length_fromCharCode4|].
      split; [split; [done | by eexists]|]. lia.
    + apply (IH data 0 [] cs); [lia | constructor | exact Hcs].
  - cbn [mbind mret]. apply IH; [lia|].
    rewrite allBoxes_app. apply Forall_app. split; [done|].
    unfold allBoxes. cbn [map concat boxesUnder]. rewrite app_nil_r.
    apply Forall_singleton.
    unfold wellBuilt.
    cbn [box_type box_children box_offset box_size box_data].
    rewrite Hcont. split; [apply length_fromCharCode4|].
    split; [split; [by intros [? ?] | done]|]. lia.
Qed.

(** X15.  In every tree that [parseISOBMFF] returns, at every depth: the
    type has four characters, children are present exactly for the
    container types, offset and size are not negative, and the payload is
    never longer than the declared size less the eight header bytes. *)
Theorem parseISOBMFF_wellBuilt fuel buffer boxes :
  parseISOBMFF fuel buffer = mret boxes ->
  Forall wellBuilt (allBoxes boxes).
Proof.
  apply parseISOBMFF_loop_wellBuilt; [lia | constructor].
Qed.

Lemma parseISOBMFF_wellBuilt_witness :
  Forall wellBuilt (allBoxes alphaItemBoxes).
Proof.
  apply (parseISOBMFF_wellBuilt 8 alphaItemFile alphaItemBoxes).
  vm_compute. reflexivity.
Defined.

End BoxTrees.

(** ** File type, codec configuration and item lookup *)

Section Lookup.

Lemma validateFtyp_loop_iff n :
  forall buffer size i,
    0 <= i -> size - 16 <= 4 * (i + Z.of_nat n) ->
    validateFtyp_loop n buffer size i = true <->
    exists j, i <= j /\ j * 4 < size - 16 /\
              isValidBrand (fromCharCode4 buffer (16 + j * 4)) = true.
Proof.
  induction n as [|n IH]; intros buffer size i Hi Hn; cbn [validateFtyp_loop].
  - split; [done|]. intros (j & Hj & Hlt & _). lia.
  - destruct (Z.ltb_spec (i * 4) (size - 16)) as [Hlt|Hge].
    + destruct (isValidBrand (fromCharCode4 buffer (16 + i * 4))) eqn:Hv.
      * split; [|done]. intros _. exists i. split; [lia|]. done.
      * rewrite IH by lia. split; intros (j & Hj & Hjlt & Hjv).
        -- exists j. split; [lia|done].
        -- exists j. split; [|done].
           destruct (Z.eq_dec j i) as [->|]; [congruence|lia].
    + split; [done|]. intros (j & Hj & Hjlt & _). lia.
Qed.

(** X16.  [validateFtyp] throws a RangeError on a buffer of fewer than
    four bytes; on any other buffer it returns a boolean, which is true
    exactly when the type is [ftyp] and the major brand, or one of the
    compatible brands counted by the size field, is avif, avis, mif1 or
    miaf. *)
Theorem validateFtyp_accepts buffer :
  (len buffer < 4 -> validateFtyp buffer = Throw RangeError) /\
  (4 <= len buffer ->
   exists size answer,
     getUint32 buffer 0 = Ok size /\
     validateFtyp buffer = Ok answer /\
     (answer = true <-> acceptsFtyp buffer size)).
Proof.
  split.
  - intros Hlen. unfold validateFtyp, getUint32.
    destruct (Z.ltb_spec (len buffer) (0 + 4)); [reflexivity|lia].
  - intros Hlen.
    destruct (getUint32 buffer 0) as [size|] eqn:Hsize.
    2:{ unfold getUint32 in Hsize.
        destruct (Z.ltb_spec (len buffer) (0 + 4)); [lia|done]. }
    pose proof (getUint32_range _ _ _ Hsize) as Hr.
    exists size. unfold validateFtyp, acceptsFtyp. rewrite Hsize. cbn [rbind].
    destruct (String.eqb_spec (fromCharCode4 buffer 4) "ftyp") as [Ht|Ht];
      cbn [negb].
    + destruct (isValidBrand (fromCharCode4 buffer 8)) eqn:Hmajor.
      * exists true. split; [done|]. split; [done|].
        split; [|done]. intros _. split; [done|]. by left.
      * eexists. split; [done|]. split; [reflexivity|].
        rewrite validateFtyp_loop_iff by lia. split.
        -- intros (j & Hj & Hrest). split; [done|]. right. exists j. done.
        -- intros [_ [Hc|(j & Hj & Hrest)]]; [congruence|]. exists j. done.
    + exists false. split; [done|]. split; [done|].
      split; [done|]. intros [Hc _]. done.
Qed.

Lemma validateFtyp_accepts_witness :
  validateFtyp [x00; x00; x00] = Throw RangeError /\
  exists size answer,
    getUint32 overrunFile 0 = Ok size /\
    validateFtyp overrunFile = Ok answer /\
    (answer = true <-> acceptsFtyp overrunFile size).
Proof.
  split.
  - apply (proj1 (validateFtyp_accepts [x00; x00; x00])). vm_compute. reflexivity.
  - apply (proj2 (validateFtyp_accepts overrunFile)). vm_compute. discriminate.
Defined.

Lemma av1C_marker_byte b :
  (JS.sar (u8 b) 7 =? 1) && (JS.and (u8 b) 0x7F =? 1) = true <-> b = x81.
Proof. destruct b; vm_compute; split; congruence. Qed.

Lemma av1C_flag_bits (o : option byte) :
  (JS.and (JS.sar (num o) 6) 1 = 0 \/ JS.and (JS.sar (num o) 6) 1 = 1) /\
  (JS.and (JS.sar (num o) 5) 1 = 0 \/ JS.and (JS.sar (num o) 5) 1 = 1).
Proof.
  destruct o as [b|]; [destruct b|]; vm_compute; split; auto.
Qed.

(** X17.  [parseAv1C] accepts a payload exactly when its first byte is
    0x81 (marker 1, version 1), and throws 'Invalid AV1 codec
    configuration' otherwise, the empty payload included; in an accepted
    configuration [highBitdepth] and [twelveBit] are 0 or 1. *)
Theorem parseAv1C_accepts data :
  (idx data 0 = Some x81 ->
   exists config,
     parseAv1C data = Ok config /\
     (highBitdepth config = 0 \/ highBitdepth config = 1) /\
     (twelveBit config = 0 \/ twelveBit config = 1)) /\
  (idx data 0 <> Some x81 -> parseAv1C data = Throw InvalidAv1C).
Proof.
  unfold parseAv1C. split.
  - intros ->. change (negb (JS.sar (num (Some x81)) 7 =? 1)) with false.
    change (negb (JS.and (num (Some x81)) 127 =? 1)) with false.
    cbn [orb]. eexists. split; [reflexivity|]. cbn.
    apply av1C_flag_bits.
  - intros Hne. rewrite <- negb_andb.
    destruct (idx data 0) as [b|].
    + cbn [num].
      destruct ((JS.sar (u8 b) 7 =? 1) && (JS.and (u8 b) 127 =? 1)) eqn:E;
        [|reflexivity].
      apply av1C_marker_byte in E. congruence.
    + reflexivity.
Qed.

Lemma parseAv1C_accepts_witness :
  (exists config,
      parseAv1C [x81; x00; x40; x00] = Ok config /\
      (highBitdepth config = 0 \/ highBitdepth config = 1) /\
      (twelveBit config = 0 \/ twelveBit config = 1)) /\
  parseAv1C [] = Throw InvalidAv1C.
Proof.
  split.
  - apply (proj1 (parseAv1C_accepts [x81; x00; x40; x00])). reflexivity.
  - apply (proj2 (parseAv1C_accepts [])). discriminate.
Defined.

Lemma find_of_existsb {A} (f g : A -> bool) (l : list A) :
  (forall x, f x = true -> g x = true) ->
  existsb f l = true -> exists y, List.find g l = Some y.
Proof.
  intros Hfg. induction l as [|x l IH]; [done|]. cbn.
  destruct (g x) eqn:Hg; [by eexists|].
  destruct (f x) eqn:Hf; [apply Hfg in Hf; congruence|]. apply IH.
Qed.

(** X18.  When [getAvifInfo] reports [hasAlpha], [getAlphaItemId] finds
    an alpha item for the same tree: it returns an item id, never null. *)
Theorem hasAlpha_has_alpha_item boxes info :
  getAvifInfo boxes = Ok info -> info_hasAlpha info = true ->
  exists itemId, getAlphaItemId boxes = Ok (Some itemId).
Proof.
  intros Hinfo Halpha.
  destruct (getAvifInfo_flags boxes info Hinfo) as (_ & metaChildren & Hmeta & Hiinf).
  unfold getAlphaItemId. rewrite Hmeta.
  destruct (findBox metaChildren "iinf") as [iinfBox|]; [|congruence].
  destruct Hiinf as (items & -> & Hexists). cbn [rbind].
  rewrite Halpha in Hexists. symmetry in Hexists.
  destruct (find_of_existsb isAlphaInfo isAlphaItem items
              isAlphaInfo_isAlphaItem Hexists) as [item ->].
  by eexists.
Qed.

Lemma hasAlpha_has_alpha_item_witness :
  parseISOBMFF 10 stillFile = mret stillBoxes /\
  exists itemId, getAlphaItemId stillBoxes = Ok (Some itemId).
Proof.
  split; [vm_compute; reflexivity|].
  apply (hasAlpha_has_alpha_item stillBoxes
           (mkAvifInfo 2 1 true (Some 8) "srgb" false)).
  - vm_compute. reflexivity.
  - reflexivity.
Defined.

End Lookup.

(** ** Pixel buffers *)

Section PixelOps.

Lemma idx_inside {A} (data : list A) i :
  0 <= i < len data -> exists x, idx data i = Some x.
Proof.
  intros Hi. unfold idx. destruct (Z.ltb_spec i 0); [lia|].
  destruct (data !! Z.to_nat i) as [x|] eqn:E; [by eexists|].
  apply lookup_ge_None in E. unfold len in Hi. lia.
Qed.

Lemma stored_byte data i :
  0 <= i < len data -> Some (toUint8 (num (idx data i))) = idx data i.
Proof.
  intros Hi. destruct (idx_inside data i Hi) as [b ->]. cbn [num].
  by rewrite toUint8_u8.
Qed.

Lemma idx_store buffer i j v :
  0 <= j < len buffer ->
  idx (store buffer i v) j = if i =? j then Some (toUint8 v) else idx buffer j.
Proof.
  intros Hj. destruct (Z.eqb_spec i j) as [->|Hne].
  - by apply idx_store_eq.
  - by apply idx_store_ne.
Qed.

Lemma rgbaToRgb_loop_bytes rgba n :
  forall i rgb,
    0 <= i ->
    len (rgbaToRgb_loop n i rgba rgb) = len rgb /\
    forall k, 0 <= k < len rgb ->
      idx (rgbaToRgb_loop n i rgba rgb) k
      = if (3 * i <=? k) && (k <? 3 * (i + Z.of_nat n))
        then Some (toUint8 (num (idx rgba (4 * (k / 3) + k mod 3))))
        else idx rgb k.
Proof.
  induction n as [|n IH]; intros i rgb Hi; cbn [rgbaToRgb_loop].
  - split; [reflexivity|]. intros k Hk.
    destruct (Z.leb_spec (3 * i) k); destruct (Z.ltb_spec k (3 * (i + Z.of_nat 0)));
      cbn [andb]; try reflexivity. lia.
  - set (rgb' := store (store (store rgb (i * 3) _) (i * 3 + 1) _) (i * 3 + 2) _).
    assert (Hlen' : len rgb' = len rgb) by (unfold rgb'; by rewrite !len_store).
    destruct (IH (i + 1) rgb') as [Hl Hb]; [lia|].
    split; [lia|]. intros k Hk. rewrite Hb by lia.
    destruct (Z.leb_spec (3 * (i + 1)) k) as [Hhi|Hlo].
    + destruct (Z.leb_spec (3 * i) k); [|lia].
      replace (3 * (i + 1 + Z.of_nat n)) with (3 * (i + Z.of_nat (S n))) by lia.
      cbn [andb]. destruct (Z.ltb_spec k (3 * (i + Z.of_nat (S n))));
        [reflexivity|].
      unfold rgb'. by rewrite !idx_store_ne by lia.
    + cbn [andb]. unfold rgb'.
      rewrite !idx_store by (rewrite ?len_store; lia).
      destruct (Z.eqb_spec (i * 3 + 2) k) as [E|N2].
      { destruct (Z.leb_spec (3 * i) k); [|lia].
        destruct (Z.ltb_spec k (3 * (i + Z.of_nat (S n)))); [|lia].
        cbn [andb]. do 4 f_equal. Z.div_mod_to_equations. lia. }
      destruct (Z.eqb_spec (i * 3 + 1) k) as [E|N1].
      { destruct (Z.leb_spec (3 * i) k); [|lia].
        destruct (Z.ltb_spec k (3 * (i + Z.of_nat (S n)))); [|lia].
        cbn [andb]. do 4 f_equal. Z.div_mod_to_equations. lia. }
      destruct (Z.eqb_spec (i * 3) k) as [E|N0].
      { destruct (Z.leb_spec (3 * i) k); [|lia].
        destruct (Z.ltb_spec k (3 * (i + Z.of_nat (S n)))); [|lia].
        cbn [andb]. do 4 f_equal. Z.div_mod_to_equations. lia. }
      destruct (Z.leb_spec (3 * i) k); [lia|]. reflexivity.
Qed.

(** X19.  [rgbaToRgb] returns [floor (3 * length / 4)] bytes, and byte
    [k] of the result is channel [k mod 3] of pixel [k / 3] of the
    input: the alpha channel is dropped, nothing else changes, also
    when the input length is not a multiple of four. *)
Theorem rgbaToRgb_bytes rgba :
  len (rgbaToRgb rgba) = len rgba * 3 / 4 /\
  forall k, 0 <= k < len rgba * 3 / 4 ->
    idx (rgbaToRgb rgba) k = idx rgba (4 * (k / 3) + k mod 3).
Proof.
  unfold rgbaToRgb. pose proof (len_nonneg rgba) as Hn.
  set (rgb := replicate _ x00).
  assert (Hrgb : len rgb = len rgba * 3 / 4).
  { unfold rgb. rewrite len_replicate. apply Z2Nat.id.
    Z.div_mod_to_equations. lia. }
  destruct (rgbaToRgb_loop_bytes rgba (Z.to_nat ((len rgba + 3) / 4)) 0 rgb)
    as [Hl Hb]; [lia|].
  split; [lia|]. intros k Hk. rewrite Hb by lia.
  rewrite Z2Nat.id by (Z.div_mod_to_equations; lia).
  destruct (Z.leb_spec (3 * 0) k); [|lia].
  destruct (Z.ltb_spec k (3 * (0 + (len rgba + 3) / 4))) as [_|Hge].
  - cbn [andb]. apply stored_byte. Z.div_mod_to_equations. lia.
  - exfalso. Z.div_mod_to_equations. lia.
Qed.

Lemma rgbaToRgb_bytes_witness :
  idx (rgbaToRgb [x01; x02; x03; xff; x04; x05; x06]) 3
  = idx [x01; x02; x03; xff; x04; x05; x06] (4 * (3 / 3) + 3 mod 3).
Proof.
  apply (proj2 (rgbaToRgb_bytes [x01; x02; x03; xff; x04; x05; x06]) 3).
  vm_compute. split; [discriminate|reflexivity].
Defined.

Lemma applyAlpha_loop_bytes alpha n :
  forall i data,
    0 <= i ->
    len (applyAlpha_loop n i data alpha) = len data /\
    forall k, 0 <= k < len data ->
      idx (applyAlpha_loop n i data alpha) k
      = if (k mod 4 =? 3) && (i <=? k / 4) && (k / 4 <? i + Z.of_nat n)
        then Some (toUint8 (num (idx alpha (k - 3))))
        else idx data k.
Proof.
  induction n as [|n IH]; intros i data Hi; cbn [applyAlpha_loop].
  - split; [reflexivity|]. intros k Hk.
    destruct (k mod 4 =? 3); cbn [andb]; [|reflexivity].
    destruct (Z.leb_spec i (k / 4)); destruct (Z.ltb_spec (k / 4) (i + Z.of_nat 0));
      cbn [andb]; try reflexivity. lia.
  - set (data' := store data (i * 4 + 3) _).
    assert (Hlen' : len data' = len data) by (unfold data'; by rewrite len_store).
    destruct (IH (i + 1) data') as [Hl Hb]; [lia|].
    split; [lia|]. intros k Hk. rewrite Hb by lia.
    unfold data'.
    destruct (Z.eqb_spec (k mod 4) 3) as [Hm|Hm]; cbn [andb];
      [|rewrite idx_store by lia].
    + destruct (Z.leb_spec (i + 1) (k / 4)) as [Hhi|Hlo].
      * destruct (Z.leb_spec i (k / 4)); [|lia].
        replace (i + 1 + Z.of_nat n) with (i + Z.of_nat (S n)) by lia.
        cbn [andb]. destruct (Z.ltb_spec (k / 4) (i + Z.of_nat (S n)));
          [reflexivity|].
        rewrite idx_store_ne; [reflexivity|]. Z.div_mod_to_equations. lia.
      * cbn [andb]. rewrite idx_store by lia.
        destruct (Z.eqb_spec (i * 4 + 3) k) as [E|N].
        -- destruct (Z.leb_spec i (k / 4)); [|Z.div_mod_to_equations; lia].
           destruct (Z.ltb_spec (k / 4) (i + Z.of_nat (S n)));
             [|Z.div_mod_to_equations; lia].
           cbn [andb]. do 4 f_equal. lia.
        -- destruct (Z.leb_spec i (k / 4)); [Z.div_mod_to_equations; lia|].
           reflexivity.
    + destruct (Z.eqb_spec (i * 4 + 3) k) as [E|N]; [|reflexivity].
      exfalso. Z.div_mod_to_equations. lia.
Qed.

(** X20.  [applyAlphaChannel] throws 'Alpha image dimensions do not
    match' unless width and height agree; when they agree it returns an
    image of the same size and bit depth flagged [hasAlpha], in which the
    fourth byte of each of the first [width * height] pixels is the
    first byte of the same pixel of the alpha image (0 where the alpha
    buffer is too short) and every other byte is unchanged. *)
Theorem applyAlphaChannel_bytes imageData alphaImage :
  (img_width alphaImage <> img_width imageData \/
   img_height alphaImage <> img_height imageData ->
   applyAlphaChannel imageData alphaImage = Raised AlphaDimensionsMismatch) /\
  (img_width alphaImage = img_width imageData ->
   img_height alphaImage = img_height imageData ->
   exists data,
     applyAlphaChannel imageData alphaImage
     = Returned (mkImageData data (img_width imageData) (img_height imageData)
                   true (img_bitDepth imageData)) /\
     len data = len (img_data imageData) /\
     forall k, 0 <= k < len data ->
       idx data k
       = if (k mod 4 =? 3) && (k / 4 <? img_width imageData * img_height imageData)
         then Some (toUint8 (num (idx (img_data alphaImage) (k - 3))))
         else idx (img_data imageData) k).
Proof.
  unfold applyAlphaChannel. split.
  - intros [Hw|Hh].
    + destruct (Z.eqb_spec (img_width alphaImage) (img_width imageData)); done.
    + destruct (Z.eqb_spec (img_height alphaImage) (img_height imageData));
        [done|]. by rewrite orb_true_r.
  - intros -> ->. rewrite !Z.eqb_refl. cbn [negb orb].
    eexists. split; [reflexivity|].
    destruct (applyAlpha_loop_bytes (img_data alphaImage)
                (Z.to_nat (img_width imageData * img_height imageData)) 0
                (img_data imageData)) as [Hl Hb]; [lia|].
    split; [exact Hl|]. intros k Hk. rewrite Hb by lia.
    destruct (k mod 4 =? 3); cbn [andb]; [|reflexivity].
    assert (0 <= k / 4) by (Z.div_mod_to_equations; lia).
    destruct (Z.leb_spec 0 (k / 4)); [|lia]. cbn [andb].
    destruct (Z.ltb_spec (k / 4) (img_width imageData * img_height imageData));
      destruct (Z.ltb_spec (k / 4)
        (0 + Z.of_nat (Z.to_nat (img_width imageData * img_height imageData))));
      try reflexivity; lia.
Qed.

Lemma applyAlphaChannel_bytes_witness :
  applyAlphaChannel twoPixelImage (mkImageData [] 3 1 false 8)
  = Raised AlphaDimensionsMismatch /\
  exists data,
    applyAlphaChannel twoPixelImage twoPixelImage
    = Returned (mkImageData data (img_width twoPixelImage)
                  (img_height twoPixelImage) true (img_bitDepth twoPixelImage)) /\
    len data = len (img_data twoPixelImage) /\
    forall k, 0 <= k < len data ->
      idx data k
      = if (k mod 4 =? 3)
           && (k / 4 <? img_width twoPixelImage * img_height twoPixelImage)
        then Some (toUint8 (num (idx (img_data twoPixelImage) (k - 3))))
        else idx (img_data twoPixelImage) k.
Proof.
  split.
  - apply (proj1 (applyAlphaChannel_bytes twoPixelImage
                    (mkImageData [] 3 1 false 8))).
    left. vm_compute. discriminate.
  - apply (proj2 (applyAlphaChannel_bytes twoPixelImage twoPixelImage));
      reflexivity.
Defined.

Lemma decodeFrame_loop_bytes n :
  forall i rgba,
    0 <= i ->
    len (decodeFrame_loop n i rgba) = len rgba /\
    forall k, 0 <= k < len rgba ->
      idx (decodeFrame_loop n i rgba) k
      = if (i <=? k / 4) && (k / 4 <? i + Z.of_nat n)
        then Some (placeholderByte k)
        else idx rgba k.
Proof.
  induction n as [|n IH]; intros i rgba Hi; cbn [decodeFrame_loop].
  - split; [reflexivity|]. intros k Hk.
    destruct (Z.leb_spec i (k / 4)); destruct (Z.ltb_spec (k / 4) (i + Z.of_nat 0));
      cbn [andb]; try reflexivity. lia.
  - set (rgba' := store (store (store (store rgba (i * 4) 128)
                    (i * 4 + 1) 128) (i * 4 + 2) 128) (i * 4 + 3) 255).
    assert (Hlen' : len rgba' = len rgba)
      by (unfold rgba'; by rewrite !len_store).
    destruct (IH (i + 1) rgba') as [Hl Hb]; [lia|].
    split; [lia|]. intros k Hk. rewrite Hb by lia.
    destruct (Z.leb_spec (i + 1) (k / 4)) as [Hhi|Hlo].
    + destruct (Z.leb_spec i (k / 4)); [|lia].
      replace (i + 1 + Z.of_nat n) with (i + Z.of_nat (S n)) by lia.
      cbn [andb]. destruct (Z.ltb_spec (k / 4) (i + Z.of_nat (S n)));
        [reflexivity|].
      unfold rgba'.
      rewrite !idx_store_ne by (Z.div_mod_to_equations; lia). reflexivity.
    + cbn [andb]. unfold rgba'.
      rewrite !idx_store by (rewrite ?len_store; lia).
      unfold placeholderByte.
      destruct (Z.eqb_spec (i * 4 + 3) k) as [E|N3].
      { destruct (Z.leb_spec i (k / 4)); [|Z.div_mod_to_equations; lia].
        destruct (Z.ltb_spec (k / 4) (i + Z.of_nat (S n)));
          [|Z.div_mod_to_equations; lia].
        destruct (Z.eqb_spec (k mod 4) 3); [reflexivity|].
        Z.div_mod_to_equations. lia. }
      destruct (Z.eqb_spec (i * 4 + 2) k) as [E|N2].
      { destruct (Z.leb_spec i (k / 4)); [|Z.div_mod_to_equations; lia].
        destruct (Z.ltb_spec (k / 4) (i + Z.of_nat (S n)));
          [|Z.div_mod_to_equations; lia].
        destruct (Z.eqb_spec (k mod 4) 3); [|reflexivity].
        Z.div_mod_to_equations. lia. }
      destruct (Z.eqb_spec (i * 4 + 1) k) as [E|N1].
      { destruct (Z.leb_spec i (k / 4)); [|Z.div_mod_to_equations; lia].
        destruct (Z.ltb_spec (k / 4) (i + Z.of_nat (S n)));
          [|Z.div_mod_to_equations; lia].
        destruct (Z.eqb_spec (k mod 4) 3); [|reflexivity].
        Z.div_mod_to_equations. lia. }
      destruct (Z.eqb_spec (i * 4) k) as [E|N0].
      { destruct (Z.leb_spec i (k / 4)); [|Z.div_mod_to_equations; lia].
        destruct (Z.ltb_spec (k / 4) (i + Z.of_nat (S n)));
          [|Z.div_mod_to_equations; lia].
        destruct (Z.eqb_spec (k mod 4) 3); [|reflexivity].
        Z.div_mod_to_equations. lia. }
      destruct (Z.leb_spec i (k / 4)); [Z.div_mod_to_equations; lia|].
      reflexivity.
Qed.

End PixelOps.

(** ** The decoding pipeline *)

Section Pipeline.

Lemma decodeAV1_gray fuel data image :
  decodeAV1 fuel data = mret image ->
  img_hasAlpha image = false /\ uniformGray image.
Proof.
  unfold decodeAV1. intros Hrun.
  destruct (parseOBUs fuel data) as [[obus|e]|]; cbn [mbind] in Hrun;
    try discriminate.
  destruct (List.find _ obus) as [seqHeaderOBU|]; [|discriminate].
  destruct (List.find (fun obu => obu_type obu =? OBUType.FRAME) obus)
    as [frameOBU|]; [|discriminate].
  set (seqHeader := parseSequenceHeader _) in *.
  unfold decodeFrame, newUint8Array in Hrun.
  set (n := maxFrameWidth seqHeader * maxFrameHeight seqHeader) in *.
  destruct (Z.ltb_spec (n * 4) 0) as [|Hn]; [discriminate|].
  cbn in Hrun. injection Hrun as <-.
  split; [reflexivity|]. unfold uniformGray.
  cbn [img_data img_width img_height img_hasAlpha negb]. fold n.
  destruct (decodeFrame_loop_bytes (Z.to_nat n) 0
              (replicate (Z.to_nat (n * 4)) x00)) as [Hl Hb]; [lia|].
  rewrite len_replicate in Hl, Hb. split; [lia|].
  intros k Hk. rewrite Hb by lia.
  destruct (Z.leb_spec 0 (k / 4)); [|Z.div_mod_to_equations; lia].
  destruct (Z.ltb_spec (k / 4) (0 + Z.of_nat (Z.to_nat n)));
    [|Z.div_mod_to_equations; lia].
  cbn [andb]. unfold placeholderByte. by rewrite andb_true_r.
Qed.

Lemma applyAlphaChannel_gray imageData alphaImage out :
  uniformGray imageData -> uniformGray alphaImage ->
  img_hasAlpha alphaImage = false ->
  applyAlphaChannel imageData alphaImage = Returned out ->
  img_hasAlpha out = true /\ uniformGray out.
Proof.
  intros [Hlen Hbytes] [Hlena Hbytesa] Hno. unfold applyAlphaChannel.
  destruct (Z.eqb_spec (img_width alphaImage) (img_width imageData))
    as [Hw|]; [|discriminate].
  destruct (Z.eqb_spec (img_height alphaImage) (img_height imageData))
    as [Hh|]; [|discriminate].
  cbn [negb orb]. intros [= <-]. split; [reflexivity|].
  unfold uniformGray. cbn [img_data img_width img_height img_hasAlpha negb].
  set (n := img_width imageData * img_height imageData) in *.
  rewrite Hw, Hh in Hlena, Hbytesa. fold n in Hlena, Hbytesa.
  destruct (applyAlpha_loop_bytes (img_data alphaImage) (Z.to_nat n) 0
              (img_data imageData)) as [Hl Hb]; [lia|].
  split; [lia|]. intros k Hk. rewrite Hb by lia.
  rewrite andb_false_r.
  destruct (Z.eqb_spec (k mod 4) 3) as [Hm|Hm]; cbn [andb].
  - destruct (Z.leb_spec 0 (k / 4)); [|Z.div_mod_to_equations; lia].
    destruct (Z.ltb_spec (k / 4) (0 + Z.of_nat (Z.to_nat n)));
      [|Z.div_mod_to_equations; lia].
    cbn [andb]. rewrite Hbytesa by (Z.div_mod_to_equations; lia).
    destruct (Z.eqb_spec ((k - 3) mod 4) 3);
      [Z.div_mod_to_equations; lia|].
    reflexivity.
  - rewrite Hbytes by lia.
    destruct (Z.eqb_spec (k mod 4) 3); [done|]. reflexivity.
Qed.

Lemma rgbaToRgb_gray image :
  uniformGray image ->
  len (rgbaToRgb (img_data image)) = img_width image * img_height image * 3 /\
  forall k, 0 <= k < img_width image * img_height image * 3 ->
    idx (rgbaToRgb (img_data image)) k = Some x80.
Proof.
  intros [Hlen Hbytes]. unfold rgbaToRgb.
  set (n := img_width image * img_height image) in *.
  set (rgb := replicate _ x00).
  assert (Hrgb : len rgb = n * 3).
  { unfold rgb. rewrite len_replicate, Hlen.
    pose proof (len_nonneg (img_data image)).
    rewrite Z2Nat.id by (Z.div_mod_to_equations; lia).
    Z.div_mod_to_equations. lia. }
  pose proof (len_nonneg rgb) as Hn.
  destruct (rgbaToRgb_loop_bytes (img_data image)
              (Z.to_nat ((len (img_data image) + 3) / 4)) 0 rgb)
    as [Hl Hb]; [lia|].
  split; [lia|]. intros k Hk. rewrite Hb by lia.
  rewrite Z2Nat.id by (Z.div_mod_to_equations; lia).
  destruct (Z.leb_spec (3 * 0) k); [|lia].
  destruct (Z.ltb_spec k (3 * (0 + (len (img_data image) + 3) / 4)));
    [|exfalso; Z.div_mod_to_equations; lia].
  cbn [andb]. rewrite Hbytes by (Z.div_mod_to_equations; lia).
  destruct (Z.eqb_spec ((4 * (k / 3) + k mod 3) mod 4) 3);
    [exfalso; Z.div_mod_to_equations; lia|].
  reflexivity.
Qed.

(** X21.  Whatever the file holds, an image that [decode] returns is the
    gray placeholder at the size of the AV1 sequence header.  In RGBA
    output the buffer has [4 * width * height] bytes, the three colour
    bytes of every pixel are 0x80, and the fourth is 255, or 0x80 when
    an alpha plane was applied ([hasAlpha]); in RGB output the buffer
    has [3 * width * height] bytes, all 0x80. *)
Theorem decode_placeholder fuel buffer options image :
  decode fuel buffer options = dret image ->
  let pixels := img_width image * img_height image in
  match format options with
  | Some FormatRgb =>
    len (img_data image) = pixels * 3 /\
    forall k, 0 <= k < pixels * 3 -> idx (img_data image) k = Some x80
  | _ =>
    len (img_data image) = pixels * 4 /\
    forall k, 0 <= k < pixels * 4 ->
      idx (img_data image) k
      = Some (if (k mod 4 =? 3) && negb (img_hasAlpha image) then xff else x80)
  end.
Proof.
  unfold decode. intros Hrun.
  destruct (validateFtyp buffer) as [[|]|]; cbn in Hrun; try discriminate.
  destruct (parseISOBMFF fuel buffer) as [[boxes|]|]; cbn in Hrun;
    try discriminate.
  destruct (getAvifInfo boxes) as [info|]; cbn in Hrun; try discriminate.
  destruct (getPrimaryItemId boxes) as [[primaryItemId|]|]; cbn in Hrun;
    try discriminate.
  destruct (getImageData buffer boxes primaryItemId) as [[av1Data|]|];
    cbn in Hrun; try discriminate.
  destruct (decodeAV1 fuel av1Data) as [[imageData|]|] eqn:Hmain;
    cbn in Hrun; try discriminate.
  destruct (decodeAV1_gray _ _ _ Hmain) as [Hno Hgray].
  assert (Hstep : forall withAlpha : AvifImageData,
    uniformGray withAlpha ->
    match format options with
    | Some FormatRgb =>
      dret (mkImageData (rgbaToRgb (img_data withAlpha)) (img_width withAlpha)
              (img_height withAlpha) (img_hasAlpha withAlpha)
              (img_bitDepth withAlpha))
    | _ => dret withAlpha
    end = dret image ->
    let pixels := img_width image * img_height image in
    match format options with
    | Some FormatRgb =>
      len (img_data image) = pixels * 3 /\
      forall k, 0 <= k < pixels * 3 -> idx (img_data image) k = Some x80
    | _ =>
      len (img_data image) = pixels * 4 /\
      forall k, 0 <= k < pixels * 4 ->
        idx (img_data image) k
        = Some (if (k mod 4 =? 3) && negb (img_hasAlpha image)
                then xff else x80)
    end).
  { intros withAlpha Hg Hout.
    destruct (format options) as [[|]|]; injection Hout as <-;
      [exact Hg| |exact Hg].
    exact (rgbaToRgb_gray withAlpha Hg). }
  destruct (info_hasAlpha info && negb (ignoreAlpha options));
    [|exact (Hstep imageData Hgray Hrun)].
  destruct (getAlphaItemId boxes) as [[alphaItemId|]|]; cbn in Hrun;
    try discriminate; [|exact (Hstep imageData Hgray Hrun)].
  destruct (getImageData buffer boxes alphaItemId) as [[alphaData|]|];
    cbn in Hrun; try discriminate; [|exact (Hstep imageData Hgray Hrun)].
  destruct (decodeAV1 fuel alphaData) as [[alphaImage|]|] eqn:Halpha;
    cbn in Hrun; try discriminate.
  destruct (decodeAV1_gray _ _ _ Halpha) as [Hnoa Hgraya].
  destruct (applyAlphaChannel imageData alphaImage) as [out|] eqn:Happly;
    cbn in Hrun; try discriminate.
  destruct (applyAlphaChannel_gray _ _ _ Hgray Hgraya Hnoa Happly) as [_ Hg].
  exact (Hstep out Hg Hrun).
Qed.

Lemma decode_placeholder_witness :
  decode 10 stillFile rgbaOptions
  = dret (mkImageData [x80; x80; x80; x80; x80; x80; x80; x80] 2 1 true 8) /\
  decode 10 stillFile rgbOptions
  = dret (mkImageData [x80; x80; x80; x80; x80; x80] 2 1 true 8) /\
  (forall k, 0 <= k < 2 * 1 * 4 ->
     idx [x80; x80; x80; x80; x80; x80; x80; x80] k = Some x80) /\
  (forall k, 0 <= k < 2 * 1 * 3 ->
     idx [x80; x80; x80; x80; x80; x80] k = Some x80).
Proof.
  assert (Hrgba : decode 10 stillFile rgbaOptions
    = dret (mkImageData [x80; x80; x80; x80; x80; x80; x80; x80] 2 1 true 8))
    by (vm_compute; reflexivity).
  assert (Hrgb : decode 10 stillFile rgbOptions
    = dret (mkImageData [x80; x80; x80; x80; x80; x80] 2 1 true 8))
    by (vm_compute; reflexivity).
  split; [exact Hrgba|]. split; [exact Hrgb|]. split.
  - intros k Hk.
    pose proof (proj2 (decode_placeholder 10 stillFile rgbaOptions _ Hrgba)
                  k Hk) as Hbyte.
    cbn [img_data img_hasAlpha negb] in Hbyte.
    rewrite andb_false_r in Hbyte. exact Hbyte.
  - exact (proj2 (decode_placeholder 10 stillFile rgbOptions _ Hrgb)).
Defined.

End Pipeline.

(** ** The AV1 encoder against the AV1 decoder *)

Section Codec.

Variable ceilLog2 : Z -> Z.

Lemma map_toUint8_u8 (l : list byte) : map toUint8 (map u8 l) = l.
Proof.
  induction l as [|b l IH]; [reflexivity|].
  cbn [map]. by rewrite toUint8_u8, IH.
Qed.

Lemma createSequenceHeader_bytes fuel width height :
  (5 <= fuel)%nat -> 1 <= width <= 2 ^ 31 -> 1 <= height <= 2 ^ 31 ->
  createSequenceHeader ceilLog2 fuel width height
  = Some (sequenceHeaderBytes
            (JS.or (JS.shl (ceilLog2 (width + 1) - 1) 4)
                   (ceilLog2 (height + 1) - 1)) width height).
Proof.
  intros Hfuel Hw Hh. unfold createSequenceHeader, sequenceHeaderBytes.
  rewrite !writeLeb128_groups by lia.
  rewrite !map_app, !map_toUint8_u8. reflexivity.
Qed.

Lemma len_sequenceHeaderBytes dims width height :
  3 <= len (sequenceHeaderBytes dims width height) <= 13.
Proof.
  unfold sequenceHeaderBytes. rewrite !len_cons, len_app, !len_map.
  pose proof (leb_groups_length 5 (width - 1)).
  pose proof (leb_groups_length 5 (height - 1)).
  unfold len. lia.
Qed.

Lemma field_from_bound data n :
  forall k acc, 0 <= acc ->
    0 <= field_from data k n acc < (acc + 1) * 2 ^ Z.of_nat n.
Proof.
  induction n as [|n IH]; intros k acc Hacc; cbn [field_from].
  - change (2 ^ Z.of_nat 0) with 1. lia.
  - pose proof (bitAt_range data k) as Hb.
    destruct (IH (k + 1) (2 * acc + bitAt data k)) as [Hlo Hhi]; [lia|].
    split; [exact Hlo|].
    rewrite Nat2Z.inj_succ, Z.pow_succ_r by lia.
    pose proof (Z.pow_pos_nonneg 2 (Z.of_nat n)). nia.
Qed.

Lemma field_bound data k n : 0 <= n -> 0 <= field data k n < 2 ^ n.
Proof.
  intros Hn. unfold field.
  pose proof (field_from_bound data (Z.to_nat n) k 0) as H.
  rewrite Z2Nat.id in H by lia. lia.
Qed.

(** What the decoder makes of a header that starts with the bytes 0x18
    and 0x00: a reduced still picture of profile 0, one bit of width and
    at most four bits of height. *)
Lemma parseSequenceHeader_encoded b2 rest :
  let header := parseSequenceHeader (x18 :: x00 :: b2 :: rest) in
  seqProfile header = 0 /\
  stillPicture header = true /\
  reducedStillPictureHeader header = true /\
  1 <= maxFrameWidth header <= 2 /\
  1 <= maxFrameHeight header <= 16 /\
  bitDepth header = 8.
Proof.
  set (data := x18 :: x00 :: b2 :: rest).
  assert (Hreduced : bitAt data 4 = 1) by reflexivity.
  destruct (reduced_header_fields data Hreduced)
    as (Hp & Hs & Hr & Hw & Hh & Hd).
  assert (Hprofile : field data 0 3 = 0) by reflexivity.
  assert (Hwb : field data 10 4 = 0) by reflexivity.
  assert (Hhb : field data 14 4 = 2 * bitAt data 16 + bitAt data 17)
    by reflexivity.
  rewrite Hprofile in Hp, Hd. rewrite Hwb in Hw, Hh.
  cbn zeta. split; [exact Hp|]. split; [exact Hs|]. split; [exact Hr|].
  pose proof (field_bound data 18 (0 + 1)) as Hwf.
  pose proof (bitAt_range data 16). pose proof (bitAt_range data 17).
  pose proof (field_bound data (18 + (0 + 1)) (field data 14 4 + 1)) as Hhf.
  assert (2 ^ (field data 14 4 + 1) <= 2 ^ 4)
    by (apply Z.pow_le_mono_r; lia).
  change (2 ^ (0 + 1)) with 2 in Hwf. change (2 ^ 4) with 16 in *.
  split; [lia|]. split; [lia|]. exact Hd.
Qed.

Lemma set_two_parts (a b : list byte) :
  (let! res := newUint8Array (len a + len b) in
   let! res := set res a 0 in
   set res b (len a))
  = Ok (a ++ b).
Proof.
  unfold newUint8Array.
  pose proof (len_nonneg a). pose proof (len_nonneg b).
  destruct (Z.ltb_spec (len a + len b) 0); [lia|]. cbn [rbind].
  rewrite Z2Nat.inj_add, !to_nat_len, replicate_add by lia.
  pose proof (set_middle [] (replicate (length a) x00)
                (replicate (length b) x00) a) as Ha.
  cbn [app] in Ha. change (len (@nil byte)) with 0 in Ha.
  rewrite Ha by (rewrite len_replicate; reflexivity). cbn [rbind].
  pose proof (set_middle a (replicate (length b) x00) [] b) as Hb.
  rewrite !app_nil_r in Hb. apply Hb. rewrite len_replicate. reflexivity.
Qed.

Lemma len_createSimpleFrame data width height :
  1 <= len (createSimpleFrame data width height) <= 101.
Proof.
  unfold createSimpleFrame. rewrite len_map, len_app, len_replicate.
  change (len [0]) with 1. lia.
Qed.

Lemma encodeAV1_stream fuel data width height :
  (5 <= fuel)%nat -> 1 <= width <= 2 ^ 31 -> 1 <= height <= 2 ^ 31 ->
  exists dims,
    encodeAV1 ceilLog2 fuel data width height
    = mret (framedStream
              [(OBUType.SEQUENCE_HEADER, sequenceHeaderBytes dims width height);
               (OBUType.FRAME, createSimpleFrame data width height)]).
Proof.
  intros Hfuel Hw Hh. eexists. unfold encodeAV1.
  rewrite createSequenceHeader_bytes by done.
  pose proof (len_sequenceHeaderBytes
    (JS.or (JS.shl (ceilLog2 (width + 1) - 1) 4) (ceilLog2 (height + 1) - 1))
    width height).
  pose proof (len_createSimpleFrame data width height).
  rewrite !createOBU_framed by lia. cbn [mbind mret].
  unfold lift. rewrite set_two_parts.
  unfold framedStream. cbn [map concat fst snd]. by rewrite app_nil_r.
Qed.

(** X22.  On every picture of at least one pixel per side (and at most
    2^31), [encodeAV1] returns a stream and [decodeAV1] accepts it, but
    the picture that comes back is never larger than 2 by 16: the
    encoder writes the dimensions as LEB128 bytes after a packed byte of
    bit counts, while the decoder reads bit fields, finding a one-bit
    width and a height of at most four bits. *)
Theorem encodeAV1_decodeAV1_dimensions
    (encodeFuel decodeFuel : nat) data width height :
  (5 <= encodeFuel)%nat -> (3 <= decodeFuel)%nat ->
  1 <= width <= 2 ^ 31 -> 1 <= height <= 2 ^ 31 ->
  exists stream image,
    encodeAV1 ceilLog2 encodeFuel data width height = mret stream /\
    decodeAV1 decodeFuel stream = mret image /\
    1 <= img_width image <= 2 /\
    1 <= img_height image <= 16 /\
    img_bitDepth image = 8.
Proof.
  intros Hfuel Hfuel' Hw Hh.
  destruct (encodeAV1_stream encodeFuel data width height Hfuel Hw Hh)
    as [dims Hstream].
  set (header := sequenceHeaderBytes dims width height) in *.
  set (frame := createSimpleFrame data width height) in *.
  set (items := [(OBUType.SEQUENCE_HEADER, header); (OBUType.FRAME, frame)]) in *.
  assert (Hparse : parseOBUs decodeFuel (framedStream items)
                   = mret (map parsedItem items)).
  { unfold parseOBUs.
    apply (parseOBUs_loop_stream items decodeFuel [] []).
    - cbn. lia.
    - pose proof (len_sequenceHeaderBytes dims width height).
      pose proof (len_createSimpleFrame data width height).
      unfold items, header, frame, OBUType.SEQUENCE_HEADER, OBUType.FRAME.
      apply Forall_cons. split; [cbn [fst snd]; lia|].
      apply Forall_cons. split; [cbn [fst snd]; lia|].
      apply Forall_nil_2. }
  destruct (parseSequenceHeader_encoded (toUint8 dims)
              (map toUint8 (leb_groups 5 (width - 1))
               ++ map toUint8 (leb_groups 5 (height - 1))))
    as (_ & _ & _ & Hpw & Hph & Hdepth).
  fold (sequenceHeaderBytes dims width height) in Hpw, Hph, Hdepth.
  fold header in Hpw, Hph, Hdepth.
  eexists _, _. split; [exact Hstream|].
  unfold decodeAV1. rewrite Hparse. cbn [mbind mret].
  cbn [items map parsedItem fst snd List.find obu_type obu_data].
  change (OBUType.SEQUENCE_HEADER =? OBUType.SEQUENCE_HEADER) with true.
  change (OBUType.SEQUENCE_HEADER =? OBUType.FRAME) with false.
  change (OBUType.FRAME =? OBUType.FRAME) with true.
  cbv beta iota.
  change (obu_data (parsedItem (OBUType.SEQUENCE_HEADER, header))) with header.
  unfold decodeFrame, newUint8Array.
  set (parsed := parseSequenceHeader header) in *.
  destruct (Z.ltb_spec (maxFrameWidth parsed * maxFrameHeight parsed * 4) 0);
    [nia|].
  cbn [rbind lift mbind mret]. split; [reflexivity|].
  cbn [img_width img_height img_bitDepth]. done.
Qed.

Lemma writeLeb128_nonpositive fuel v :
  - 2 ^ 31 < v <= 0 -> writeLeb128 fuel (v - 1) = None.
Proof.
  intros Hv. unfold writeLeb128.
  rewrite writeLeb128_loop_negative; [reflexivity|].
  rewrite toInt32_small; lia.
Qed.

(** X23.  On a picture whose width or height is zero (or negative,
    down to -2^31) [createSequenceHeader] returns no header and
    [encodeAV1] no stream: [width - 1] or [height - 1] goes to
    [writeLeb128], whose loop never reaches [value === 0] on a value
    with a negative 32-bit image, so that it returns no bytes. *)
Theorem encodeAV1_empty_picture_no_stream fuel data width height :
  - 2 ^ 31 < width <= 0 \/ - 2 ^ 31 < height <= 0 ->
  (forall header,
      createSequenceHeader ceilLog2 fuel width height <> Some header) /\
  (forall stream,
      encodeAV1 ceilLog2 fuel data width height <> mret stream).
Proof.
  intros Hdim.
  assert (Hheader : createSequenceHeader ceilLog2 fuel width height = None).
  { unfold createSequenceHeader. destruct Hdim as [Hw|Hh].
    - by rewrite writeLeb128_nonpositive.
    - destruct (writeLeb128 fuel (width - 1)); [|reflexivity].
      by rewrite writeLeb128_nonpositive. }
  split.
  - intros header. by rewrite Hheader.
  - intros stream. unfold encodeAV1. by rewrite Hheader.
Qed.

End Codec.

Lemma encodeAV1_decodeAV1_dimensions_witness :
  exists stream image,
    encodeAV1 log2Up 5 [] 1920 1080 = mret stream /\
    decodeAV1 3 stream = mret image /\
    1 <= img_width image <= 2 /\
    1 <= img_height image <= 16 /\
    img_bitDepth image = 8.
Proof.
  apply (encodeAV1_decodeAV1_dimensions log2Up 5 3 [] 1920 1080); lia.
Defined.

Lemma encodeAV1_empty_picture_no_stream_witness :
  (forall header, createSequenceHeader log2Up 1000 0 5 <> Some header) /\
  (forall stream, encodeAV1 log2Up 1000 [] 0 5 <> mret stream).
Proof.
  apply (encodeAV1_empty_picture_no_stream log2Up 1000 [] 0 5).
  left. lia.
Defined.

(** ** The box writers *)

(** Abstract the bytes that depend on [w], so that the rest of a buffer
    of fixed size can be computed. *)
Ltac bytes_of w :=
  repeat match goal with
  | |- context [toUint8 ?e] =>
    lazymatch e with context [w] =>
      let b := fresh "b" in generalize (toUint8 e); intro b end
  end.

Section Writers.

Variable ceilLog2 : Z -> Z.

Lemma createIlocBox_throws itemId dataSize :
  createIlocBox itemId dataSize = Throw RangeError.
Proof.
  unfold createIlocBox, setUint32, setUint16, store. cbv zeta.
  bytes_of itemId. bytes_of dataSize. vm_compute. reflexivity.
Qed.

Lemma createMetaBox_throws width height dataSize :
  createMetaBox width height dataSize = Throw RangeError.
Proof.
  unfold createMetaBox.
  destruct createHdlrBox as [hdlr|e] eqn:Hhdlr;
    [|vm_compute in Hhdlr; discriminate].
  destruct (createPitmBox 1) as [pitm|e] eqn:Hpitm;
    [|vm_compute in Hpitm; discriminate].
  cbn [rbind]. by rewrite createIlocBox_throws.
Qed.

Lemma createAvifContainer_throws av1Data width height :
  createAvifContainer av1Data width height = Throw RangeError.
Proof.
  unfold createAvifContainer.
  destruct createFtyp as [ftyp|e] eqn:Hftyp;
    [|vm_compute in Hftyp; discriminate].
  cbn [rbind]. by rewrite createMetaBox_throws.
Qed.

(** X24.  [createIlocBox] never returns a box: its buffer has 28 bytes
    and the last write, [setUint32(26, dataSize)], needs bytes 26 to 29,
    so it throws a RangeError for every item id and data size.  The same
    holds for [createIpmaBox] (17 bytes, [setUint16(16, 1)]) and
    therefore for [createIprpBox], [createMetaBox] and
    [createAvifContainer], whatever their arguments. *)
Theorem box_writers_throw itemId dataSize width height av1Data :
  createIlocBox itemId dataSize = Throw RangeError /\
  createIpmaBox = Throw RangeError /\
  createIprpBox width height = Throw RangeError /\
  createMetaBox width height dataSize = Throw RangeError /\
  createAvifContainer av1Data width height = Throw RangeError.
Proof.
  split; [apply createIlocBox_throws|].
  split; [vm_compute; reflexivity|].
  split; [|split; [apply createMetaBox_throws|apply createAvifContainer_throws]].
  unfold createIprpBox, createIspeBox, setUint32, store. cbv zeta.
  bytes_of width. bytes_of height. vm_compute. reflexivity.
Qed.

(** X25.  [encode] never returns a file.  Whatever the picture, it
    either does not return or throws; on a picture of at least one
    pixel per side (and at most 2^31) the AV1 stream is built and the
    container writer then throws the RangeError of [createIlocBox]. *)
Theorem encode_never_returns_file fuel imageData :
  (forall file, encode ceilLog2 fuel imageData <> mret file) /\
  ((5 <= fuel)%nat ->
   1 <= img_width imageData <= 2 ^ 31 ->
   1 <= img_height imageData <= 2 ^ 31 ->
   encode ceilLog2 fuel imageData = mthrow RangeError).
Proof.
  unfold encode. split.
  - intros file.
    destruct (encodeAV1 ceilLog2 fuel _ _ _) as [[av1Data|e]|];
      cbn [mbind]; [|discriminate..].
    unfold lift. rewrite createAvifContainer_throws. discriminate.
  - intros Hfuel Hw Hh.
    destruct (encodeAV1_stream ceilLog2 fuel (img_data imageData) _ _
                Hfuel Hw Hh) as [dims ->].
    cbn [mbind mret]. unfold lift. by rewrite createAvifContainer_throws.
Qed.

End Writers.

Lemma encode_never_returns_file_witness :
  encode log2Up 5 twoPixelImage = mthrow RangeError.
Proof.
  apply (proj2 (encode_never_returns_file log2Up 5 twoPixelImage));
    cbn [twoPixelImage img_width img_height]; lia.
Defined.

(** ** Writers against parsers *)

Section RoundTrips.

Lemma charOf_code c : charOf (Some (toUint8 (Z.of_N (N_of_ascii c)))) = c.
Proof.
  destruct c as [[] [] [] [] [] [] [] []]; vm_compute; reflexivity.
Qed.

Lemma be_bytes_sum v :
  0 <= v < 2 ^ 32 ->
  (v / 0x1000000) mod 256 * 0x1000000 + (v / 0x10000) mod 256 * 0x10000
  + (v / 0x100) mod 256 * 0x100 + v mod 256 = v.
Proof. intros Hv. Z.div_mod_to_equations. lia. Qed.

Lemma getUint32_be32 pre v post off :
  len pre = off ->
  getUint32 (pre ++ be32 v ++ post) off = Ok (v mod 2 ^ 32).
Proof.
  intros <-. unfold getUint32. rewrite !len_app.
  pose proof (len_nonneg pre). pose proof (len_nonneg post).
  change (len (be32 v)) with 4.
  destruct (Z.ltb_spec (len pre) 0); [lia|].
  destruct (Z.ltb_spec (len pre + (4 + len post)) (len pre + 4)); [lia|].
  cbn [orb].
  rewrite <- (Z.add_0_r (len pre)) at 1.
  rewrite !idx_middle by (change (len (be32 v)) with 4; lia).
  change (idx (be32 v) 0) with (Some (toUint8 (v mod 2 ^ 32 / 0x1000000))).
  change (idx (be32 v) 1) with (Some (toUint8 (v mod 2 ^ 32 / 0x10000))).
  change (idx (be32 v) 2) with (Some (toUint8 (v mod 2 ^ 32 / 0x100))).
  change (idx (be32 v) 3) with (Some (toUint8 (v mod 2 ^ 32))).
  cbn [num]. rewrite !u8_toUint8. f_equal.
  apply be_bytes_sum. apply Z.mod_pos_bound. lia.
Qed.

Lemma getUint16_be16 pre v post off :
  len pre = off ->
  getUint16 (pre ++ be16 v ++ post) off = Ok (v mod 2 ^ 16).
Proof.
  intros <-. unfold getUint16. rewrite !len_app.
  pose proof (len_nonneg pre). pose proof (len_nonneg post).
  change (len (be16 v)) with 2.
  destruct (Z.ltb_spec (len pre) 0); [lia|].
  destruct (Z.ltb_spec (len pre + (2 + len post)) (len pre + 2)); [lia|].
  cbn [orb].
  rewrite <- (Z.add_0_r (len pre)) at 1.
  rewrite !idx_middle by (change (len (be16 v)) with 2; lia).
  change (idx (be16 v) 0) with (Some (toUint8 (v mod 2 ^ 16 / 0x100))).
  change (idx (be16 v) 1) with (Some (toUint8 (v mod 2 ^ 16))).
  cbn [num]. rewrite !u8_toUint8. f_equal.
  pose proof (Z.mod_pos_bound v (2 ^ 16) ltac:(lia)).
  Z.div_mod_to_equations. lia.
Qed.

Lemma createIspeBox_bytes width height :
  createIspeBox width height
  = Ok (boxBytes "ispe" ([x00; x00; x00; x00] ++ be32 width ++ be32 height)).
Proof.
  unfold boxBytes.
  change (len ([x00; x00; x00; x00] ++ be32 width ++ be32 height)) with 12.
  unfold createIspeBox, be32, setUint32, store. cbv zeta.
  bytes_of width. bytes_of height. vm_compute. reflexivity.
Qed.

(** X26.  Round trip of the image-extent box: for dimensions below 2^32,
    [createIspeBox] returns 20 bytes that [parseISOBMFF] reads as one
    [ispe] box, and [parseIspe] on its payload gives the width and the
    height back. *)
Theorem createIspeBox_parseIspe fuel width height :
  (2 <= fuel)%nat -> 0 <= width < 2 ^ 32 -> 0 <= height < 2 ^ 32 ->
  exists box payload,
    createIspeBox width height = Ok box /\
    parseISOBMFF fuel box = mret [Box "ispe" 20 0 payload None] /\
    parseIspe payload = Ok (mkIspe width height).
Proof.
  intros Hfuel Hw Hh.
  exists (boxBytes "ispe" ([x00; x00; x00; x00] ++ be32 width ++ be32 height)),
    ([x00; x00; x00; x00] ++ be32 width ++ be32 height).
  split; [apply createIspeBox_bytes|]. split.
  - destruct fuel as [|[|fuel]]; [lia..|].
    unfold boxBytes.
    change (len ([x00; x00; x00; x00] ++ be32 width ++ be32 height)) with 12.
    unfold be32. bytes_of width. bytes_of height.
    vm_compute. reflexivity.
  - unfold parseIspe.
    rewrite (getUint32_be32 [x00; x00; x00; x00] width (be32 height) 4)
      by reflexivity.
    cbn [rbind].
    change ([x00; x00; x00; x00] ++ be32 width ++ be32 height)
      with (([x00; x00; x00; x00] ++ be32 width) ++ be32 height ++ []).
    rewrite (getUint32_be32 ([x00; x00; x00; x00] ++ be32 width) height [] 8)
      by reflexivity.
    cbn [rbind]. by rewrite !Z.mod_small by lia.
Qed.

Lemma createIspeBox_parseIspe_witness :
  exists box payload,
    createIspeBox 1920 1080 = Ok box /\
    parseISOBMFF 2 box = mret [Box "ispe" 20 0 payload None] /\
    parseIspe payload = Ok (mkIspe 1920 1080).
Proof.
  apply (createIspeBox_parseIspe 2 1920 1080); lia.
Defined.

Lemma parseISOBMFF_loop_unfold fuel buffer offset boxes :
  parseISOBMFF_loop (S fuel) buffer offset boxes
  = if offset <? len buffer - 8 then
      do! size := lift (getUint32 buffer offset) in
      let type := fromCharCode4 buffer (offset + 4) in
      do! ext := lift (boxExtent buffer offset size) in
      let (boxSize, headerSize) := ext : Z * Z in
      let data := slice buffer (offset + headerSize) (offset + boxSize) in
      do! children :=
        (if isContainerBox type then
           do! cs := parseISOBMFF_loop fuel data 0 [] in mret (Some cs)
         else mret None) in
      parseISOBMFF_loop fuel buffer (offset + boxSize)
        (boxes ++ [Box type boxSize offset data children])
    else mret boxes.
Proof. reflexivity. Qed.

Lemma fromCharCode4_code4 pre a b c d post off :
  len pre = off ->
  fromCharCode4 (pre ++ code4 (fourChars a b c d) ++ post) off
  = fourChars a b c d.
Proof.
  intros <-. unfold fromCharCode4.
  rewrite <- (Z.add_0_r (len pre)) at 1.
  rewrite !idx_middle by (change (len (code4 _)) with 4; lia).
  change (idx (code4 (fourChars a b c d)) 0)
    with (Some (toUint8 (Z.of_N (N_of_ascii a)))).
  change (idx (code4 (fourChars a b c d)) 1)
    with (Some (toUint8 (Z.of_N (N_of_ascii b)))).
  change (idx (code4 (fourChars a b c d)) 2)
    with (Some (toUint8 (Z.of_N (N_of_ascii c)))).
  change (idx (code4 (fourChars a b c d)) 3)
    with (Some (toUint8 (Z.of_N (N_of_ascii d)))).
  by rewrite !charOf_code.
Qed.

(** One round of the parse loop on a box written with a 32-bit size
    that has a byte in or after its payload. *)
Lemma parseISOBMFF_loop_box fuel pre a b c d payload post boxes :
  let type := fourChars a b c d in
  let buffer := pre ++ boxBytes type payload ++ post in
  len payload < 2 ^ 32 - 8 ->
  0 < len payload + len post ->
  parseISOBMFF_loop (S fuel) buffer (len pre) boxes
  = do! children :=
      (if isContainerBox type then
         do! cs := parseISOBMFF_loop fuel payload 0 [] in mret (Some cs)
       else mret None) in
    parseISOBMFF_loop fuel buffer (len pre + (8 + len payload))
      (boxes ++ [Box type (8 + len payload) (len pre) payload children]).
Proof.
  intros type buffer Hsize Hmore.
  pose proof (len_nonneg pre). pose proof (len_nonneg payload).
  pose proof (len_nonneg post).
  rewrite parseISOBMFF_loop_unfold.
  assert (Hlen : len buffer = len pre + (8 + len payload) + len post).
  { unfold buffer, boxBytes. rewrite !len_app.
    change (len (be32 _)) with 4. change (len (code4 _)) with 4. lia. }
  destruct (Z.ltb_spec (len pre) (len buffer - 8)); [|lia].
  assert (Hget : getUint32 buffer (len pre) = Ok (8 + len payload)).
  { unfold buffer, boxBytes. rewrite <- !app_assoc.
    rewrite getUint32_be32 by reflexivity. by rewrite Z.mod_small by lia. }
  rewrite Hget. cbn [lift mbind].
  assert (Htype : fromCharCode4 buffer (len pre + 4) = type).
  { unfold buffer, boxBytes.
    replace (pre ++ (be32 (8 + len payload) ++ code4 type ++ payload) ++ post)
      with ((pre ++ be32 (8 + len payload)) ++ code4 type ++ payload ++ post)
      by (by rewrite <- !app_assoc).
    apply fromCharCode4_code4. rewrite len_app. reflexivity. }
  rewrite Htype. unfold boxExtent.
  destruct (Z.eqb_spec (8 + len payload) 1); [lia|].
  destruct (Z.eqb_spec (8 + len payload) 0); [lia|].
  cbn [mbind].
  assert (Hdata : slice buffer (len pre + 8) (len pre + (8 + len payload))
                  = payload).
  { unfold buffer, boxBytes.
    replace (pre ++ (be32 (8 + len payload) ++ code4 type ++ payload) ++ post)
      with ((pre ++ be32 (8 + len payload) ++ code4 type) ++ payload ++ post)
      by (by rewrite <- !app_assoc).
    replace (len pre + 8)
      with (len (pre ++ be32 (8 + len payload) ++ code4 type))
      by (rewrite !len_app; reflexivity).
    replace (len pre + (8 + len payload))
      with (len (pre ++ be32 (8 + len payload) ++ code4 type) + len payload)
      by (rewrite !len_app; change (len (be32 _)) with 4;
          change (len (code4 _)) with 4; lia).
    apply slice_middle. }
  rewrite Hdata. reflexivity.
Qed.

Lemma createMdatBox_bytes data :
  createMdatBox data = Ok (boxBytes "mdat" data).
Proof.
  unfold createMdatBox, newUint8Array, boxBytes.
  pose proof (len_nonneg data).
  destruct (Z.ltb_spec (8 + len data) 0); [lia|]. cbn [rbind].
  rewrite Z2Nat.inj_add, to_nat_len by lia. change (Z.to_nat 8) with 8%nat.
  rewrite replicate_add.
  set (size := 8 + len data). set (rest := replicate (length data) x00).
  unfold setUint32. rewrite len_app. change (len (replicate 8 x00)) with 8.
  pose proof (len_nonneg rest).
  destruct (Z.ltb_spec (8 + len rest) (0 + 4)); [lia|].
  change ((0 <? 0) || false) with false. cbn [rbind].
  match goal with |- set ?buf data 8 = _ =>
    assert (Hhdr : buf = (be32 size ++ code4 "mdat") ++ rest ++ [])
      by (rewrite app_nil_r; reflexivity);
    rewrite Hhdr end.
  change 8 with (len (be32 size ++ code4 "mdat")).
  rewrite set_middle by (unfold rest; rewrite len_replicate; reflexivity).
  by rewrite app_nil_r, <- app_assoc.
Qed.

(** X27.  Round trip of the media-data box: for a payload of fewer than
    2^32 - 8 bytes, [createMdatBox] returns a box that [parseISOBMFF]
    reads back as one [mdat] box holding exactly the payload; only the
    box of an empty payload, eight bytes in all, is not seen by the
    parser. *)
Theorem createMdatBox_parseISOBMFF fuel data :
  (2 <= fuel)%nat -> len data < 2 ^ 32 - 8 ->
  exists box,
    createMdatBox data = Ok box /\
    parseISOBMFF fuel box
    = mret (if len data =? 0 then []
            else [Box "mdat" (8 + len data) 0 data None]).
Proof.
  intros Hfuel Hsize. exists (boxBytes "mdat" data).
  split; [apply createMdatBox_bytes|].
  pose proof (len_nonneg data).
  destruct fuel as [|[|fuel]]; [lia..|]. unfold parseISOBMFF.
  assert (Hlen : len (boxBytes "mdat" data) = 8 + len data).
  { unfold boxBytes. rewrite !len_app.
    change (len (be32 _)) with 4. change (len (code4 _)) with 4. lia. }
  destruct (Z.eqb_spec (len data) 0) as [Hempty|Hfull].
  - apply parseISOBMFF_loop_stop. lia.
  - pose proof (parseISOBMFF_loop_box (S fuel) [] "m" "d" "a" "t" data [] [])
      as Hstep.
    cbn zeta in Hstep. rewrite app_nil_r in Hstep. cbn [app] in Hstep.
    change (len (@nil byte)) with 0 in Hstep.
    change (fourChars "m" "d" "a" "t") with "mdat"%string in Hstep.
    rewrite Hstep by lia. cbn [mbind mret app].
    change (isContainerBox "mdat") with false.
    cbn [mbind mret]. apply parseISOBMFF_loop_stop. lia.
Qed.

Lemma createMdatBox_parseISOBMFF_witness :
  exists box,
    createMdatBox twoPixelStream = Ok box /\
    parseISOBMFF 2 box
    = mret (if len twoPixelStream =? 0 then []
            else [Box "mdat" (8 + len twoPixelStream) 0 twoPixelStream None]).
Proof.
  apply (createMdatBox_parseISOBMFF 2 twoPixelStream); [lia|].
  vm_compute. reflexivity.
Defined.

Lemma createInfeBox_bytes itemId itemType :
  createInfeBox itemId itemType
  = Ok (boxBytes "infe"
          ([x02; x00; x00; x00] ++ be16 itemId ++ be16 0
           ++ code4 itemType ++ [x00])).
Proof.
  unfold boxBytes.
  change (len ([x02; x00; x00; x00] ++ be16 itemId ++ be16 0
               ++ code4 itemType ++ [x00])) with 13.
  unfold createInfeBox, be16, code4, storeCode4, setUint32, setUint16, store.
  cbv zeta. cbn [map]. bytes_of itemId. bytes_of itemType.
  vm_compute. reflexivity.
Qed.

(** X28.  Round trip of an item-info entry: for an item id below 2^16
    and a type of four characters, [createInfeBox] returns 21 bytes that
    [parseISOBMFF] reads as one [infe] box, and [parseInfe] on its
    payload gives back the id, protection index 0, the type and the
    empty name. *)
Theorem createInfeBox_parseInfe fuel itemId a b c d :
  (2 <= fuel)%nat -> 0 <= itemId < 2 ^ 16 ->
  exists box payload,
    createInfeBox itemId (fourChars a b c d) = Ok box /\
    parseISOBMFF fuel box = mret [Box "infe" 21 0 payload None] /\
    parseInfe payload
    = Ok (mkItemInfo itemId 0 (fourChars a b c d) EmptyString).
Proof.
  intros Hfuel Hid. set (type := fourChars a b c d).
  set (payload := [x02; x00; x00; x00] ++ be16 itemId ++ be16 0
                  ++ code4 type ++ [x00]).
  exists (boxBytes "infe" payload), payload.
  split; [apply createInfeBox_bytes|]. split.
  - destruct fuel as [|[|fuel]]; [lia..|].
    unfold boxBytes. change (len payload) with 13.
    unfold payload, be16, code4. cbn [map].
    bytes_of itemId. bytes_of type. vm_compute. reflexivity.
  - unfold parseInfe.
    change (idx payload 0) with (Some x02).
    change (versionBelow (Some x02) 2) with false.
    change (versionIs (Some x02) 2) with true. cbv iota.
    unfold payload.
    rewrite (getUint16_be16 [x02; x00; x00; x00] itemId
               (be16 0 ++ code4 type ++ [x00]) 4) by reflexivity.
    cbn [rbind].
    change ([x02; x00; x00; x00] ++ be16 itemId ++ be16 0
            ++ code4 type ++ [x00])
      with (([x02; x00; x00; x00] ++ be16 itemId)
            ++ be16 0 ++ (code4 type ++ [x00])).
    rewrite (getUint16_be16 ([x02; x00; x00; x00] ++ be16 itemId) 0
               (code4 type ++ [x00]) (4 + 2)) by reflexivity.
    cbn [rbind].
    change (([x02; x00; x00; x00] ++ be16 itemId)
            ++ be16 0 ++ (code4 type ++ [x00]))
      with (([x02; x00; x00; x00] ++ be16 itemId ++ be16 0)
            ++ code4 type ++ [x00]).
    unfold type.
    rewrite (fromCharCode4_code4 ([x02; x00; x00; x00] ++ be16 itemId ++ be16 0)
               a b c d [x00] (4 + 4)) by reflexivity.
    rewrite Z.mod_small by lia. reflexivity.
Qed.

Lemma createInfeBox_parseInfe_witness :
  exists box payload,
    createInfeBox 1 (fourChars "a" "v" "0" "1") = Ok box /\
    parseISOBMFF 2 box = mret [Box "infe" 21 0 payload None] /\
    parseInfe payload
    = Ok (mkItemInfo 1 0 (fourChars "a" "v" "0" "1") EmptyString).
Proof.
  apply (createInfeBox_parseInfe 2 1 "a" "v" "0" "1"); lia.
Defined.

End RoundTrips.

(** ** Extents *)

Section Extents.

Lemma slice_bytesAt (buffer : list byte) offset count :
  0 <= offset -> 0 <= count ->
  slice buffer offset (offset + count) = bytesAt buffer offset count /\
  len (bytesAt buffer offset count) = available buffer offset count.
Proof.
  intros Ho Hl. unfold slice, rel, bytesAt, available, len.
  destruct (Z.ltb_spec offset 0); [lia|].
  destruct (Z.ltb_spec (offset + count) 0); [lia|].
  rewrite length_take, length_drop.
  split; [|lia].
  destruct (Z.le_gt_cases offset (Z.of_nat (length buffer))) as [Hin|Hout].
  - rewrite (Z.min_l offset) by lia.
    destruct (Z.le_gt_cases (offset + count) (Z.of_nat (length buffer))).
    + rewrite Z.min_l by lia. do 2 f_equal. lia.
    + rewrite Z.min_r by lia.
      rewrite !take_ge; [reflexivity|rewrite length_drop; lia..].
  - rewrite !Z.min_r by lia. rewrite !drop_ge by lia. by rewrite !take_nil.
Qed.

Lemma getImageData_concat
    buffer boxes itemId metaChildren ilocBox locations location :
  childrenOf (findBox boxes "meta") = Some metaChildren ->
  findBox metaChildren "iloc" = Some ilocBox ->
  parseIloc (box_data ilocBox) = Ok locations ->
  List.find (fun loc => loc_itemId loc =? itemId) locations = Some location ->
  getImageData buffer boxes itemId
  = Ok (Some (concat (map (extentBytes buffer location (mdatPayloadOffset boxes))
                          (extents location)))).
Proof.
  intros Hmeta Hiloc Hloc Hfind. unfold getImageData.
  rewrite Hmeta, Hiloc, Hloc. cbn [rbind]. rewrite Hfind.
  fold (mdatPayloadOffset boxes).
  set (parts := map _ (extents location)).
  rewrite totalLength_concat, Z.add_0_l.
  unfold newUint8Array.
  pose proof (len_nonneg (concat parts)).
  destruct (Z.ltb_spec (len (concat parts)) 0); [lia|].
  cbn [rbind]. rewrite to_nat_len.
  pose proof (copyParts_concat parts []) as Hcopy.
  cbn [app] in Hcopy. change (len (@nil byte)) with 0 in Hcopy.
  rewrite Hcopy. reflexivity.
Qed.

(** X29.  [getImageData] does not check an extent against the buffer.
    For an item that [iloc] lists, with extents of non-negative start
    and length, it returns (and never throws) the bytes that the buffer
    holds at each extent, in listed order: an extent that runs past the
    end is cut there and one that starts past the end gives nothing, so
    the result has the declared total length only when every extent
    lies inside the buffer. *)
Theorem getImageData_cuts_extents
    buffer boxes itemId metaChildren ilocBox locations location :
  childrenOf (findBox boxes "meta") = Some metaChildren ->
  findBox metaChildren "iloc" = Some ilocBox ->
  parseIloc (box_data ilocBox) = Ok locations ->
  List.find (fun loc => loc_itemId loc =? itemId) locations = Some location ->
  Forall (fun extent =>
            0 <= extentStart location (mdatPayloadOffset boxes) extent /\
            0 <= extentLength extent) (extents location) ->
  exists data,
    getImageData buffer boxes itemId = Ok (Some data) /\
    data = concat (map (fun extent =>
                          bytesAt buffer
                            (extentStart location (mdatPayloadOffset boxes) extent)
                            (extentLength extent))
                       (extents location)) /\
    len data = fold_right (fun extent sum =>
                             available buffer
                               (extentStart location (mdatPayloadOffset boxes)
                                  extent)
                               (extentLength extent) + sum)
                          0 (extents location).
Proof.
  intros Hmeta Hiloc Hloc Hfind Hext.
  eexists. split; [by eapply getImageData_concat|].
  induction Hext as [|extent rest [Ho Hl] _ IH]; [by split|].
  destruct IH as [IHdata IHlen].
  destruct (slice_bytesAt buffer _ _ Ho Hl) as [Hslice Hlen].
  cbn [map concat fold_right]. rewrite len_app.
  unfold extentBytes at 1 3. fold (extentStart location (mdatPayloadOffset boxes) extent).
  rewrite Hslice, IHdata, Hlen. split; [reflexivity|].
  rewrite <- IHdata, IHlen. reflexivity.
Qed.

Lemma getImageData_cuts_extents_witness :
  exists data,
    getImageData idatItemFile idatItemBoxes 1 = Ok (Some data) /\
    data = concat (map (fun extent =>
                          bytesAt idatItemFile
                            (extentStart (mkItemLocation 1 1 0 0 [mkExtent 0 4])
                               (mdatPayloadOffset idatItemBoxes) extent)
                            (extentLength extent))
                       [mkExtent 0 4]) /\
    len data = fold_right (fun extent sum =>
                             available idatItemFile
                               (extentStart
                                  (mkItemLocation 1 1 0 0 [mkExtent 0 4])
                                  (mdatPayloadOffset idatItemBoxes) extent)
                               (extentLength extent) + sum)
                          0 [mkExtent 0 4].
Proof.
  eapply (getImageData_cuts_extents idatItemFile idatItemBoxes 1
            _ _ _ (mkItemLocation 1 1 0 0 [mkExtent 0 4])).
  - vm_compute. reflexivity.
  - vm_compute. reflexivity.
  - vm_compute. reflexivity.
  - vm_compute. reflexivity.
  - apply Forall_cons. split; [|apply Forall_nil_2].
    vm_compute. split; discriminate.
Defined.

End Extents.

(** ** Rejection *)

Section Rejection.

(** X30.  [decode] rejects a file before any box is parsed: a buffer of
    fewer than four bytes makes it throw the RangeError of the size
    read in [validateFtyp], not the 'Invalid AVIF file' error, and a
    buffer of four bytes or more whose bytes 4 to 7 do not spell [ftyp]
    makes it throw 'Invalid AVIF file'. *)
Theorem decode_rejects_before_parsing fuel buffer options :
  (len buffer < 4 -> decode fuel buffer options = draise (Inner RangeError)) /\
  (4 <= len buffer -> fromCharCode4 buffer 4 <> "ftyp"%string ->
   decode fuel buffer options = draise InvalidAvifFile).
Proof.
  unfold decode, validateFtyp, getUint32. split.
  - intros Hlen. destruct (Z.ltb_spec (len buffer) (0 + 4)); [|lia].
    reflexivity.
  - intros Hlen Htype. destruct (Z.ltb_spec (len buffer) (0 + 4)); [lia|].
    cbn [orb Z.ltb rbind].
    destruct (String.eqb_spec (fromCharCode4 buffer 4) "ftyp"); [done|].
    reflexivity.
Qed.

Lemma decode_rejects_before_parsing_witness :
  decode 0 [x00; x00; x00] rgbaOptions = draise (Inner RangeError) /\
  decode 0 overrunFile rgbaOptions = draise InvalidAvifFile.
Proof.
  split.
  - apply (proj1 (decode_rejects_before_parsing 0 [x00; x00; x00] rgbaOptions)).
    vm_compute. reflexivity.
  - apply (proj2 (decode_rejects_before_parsing 0 overrunFile rgbaOptions)).
    + vm_compute. discriminate.
    + vm_compute. discriminate.
Defined.

End Rejection.
